(** * Type unification for tagged JSON records: a model of [main.py]

    The program reads JSON documents with a PLY grammar.  Its semantic
    actions build mutable node objects ([ValueNode], [TypeNode], [ListNode]),
    merge repeated sightings of a tagged object into a module-level
    [TypeRegistry], and finally serialise the registry.

    Nodes are Python objects: they are mutated in place and shared between
    the registry, the parents that hold them and the parser's stack.  The
    model therefore keeps every node in a store addressed by location, and
    every operation is a computation in a state-and-exception monad over
    that store. *)

From Stdlib Require Import ZArith QArith String Ascii List Bool Lia.
From Stdlib Require Import DecimalString.
From stdpp Require Import base list.
Import ListNotations.

Set Warnings "-register-all".
#[local] Set Warnings "-notation-overridden".


Local Open Scope string_scope.
Local Open Scope list_scope.
Local Open Scope nat_scope.

(** ** Python values held by leaf tokens *)

(** A float object is modelled by the number it denotes (every finite double
    is a rational; the lexer's [float(...)] can also overflow to an infinity,
    never to a NaN) together with the text Python prints for it.  Printing a
    float is the interpreter's business, so the text is carried rather than
    computed. *)
Inductive float_value :=
| FFinite (q : Q)
| FInfinite (negative : bool).

Record pyfloat := { float_value_of : float_value; float_repr : string }.

(** The values of STRING, NUMBER, TRUE and FALSE tokens.  [None] (the value
    of a NULL token, and the default of [ValueNode.value]) is the [None] of
    [option literal]. *)
Inductive literal :=
| LStr (s : string)
| LInt (n : Z)
| LFloat (f : pyfloat)
| LBool (b : bool).

Definition float_value_eqb (a b : float_value) : bool :=
  match a, b with
  | FFinite p, FFinite q => Qeq_bool p q
  | FInfinite x, FInfinite y => Bool.eqb x y
  | _, _ => false
  end.

(** Python compares [bool], [int] and [float] by numeric value. *)
Definition numeric (v : literal) : option float_value :=
  match v with
  | LStr _ => None
  | LInt n => Some (FFinite (inject_Z n))
  | LFloat f => Some (float_value_of f)
  | LBool b => Some (FFinite (inject_Z (Z.b2z b)))
  end.

(** [a == b] on token values. *)
Definition py_eq (a b : literal) : bool :=
  match a, b with
  | LStr s, LStr t => String.eqb s t
  | _, _ =>
      match numeric a, numeric b with
      | Some x, Some y => float_value_eqb x y
      | _, _ => false
      end
  end.

(** [a == b] where either side may be [None]. *)
Definition py_eq_opt (a b : option literal) : bool :=
  match a, b with
  | None, None => true
  | Some x, Some y => py_eq x y
  | _, _ => false
  end.

(** [str(v)], as an f-string formats it. *)
Definition py_str (v : option literal) : string :=
  match v with
  | None => "None"
  | Some (LStr s) => s
  | Some (LInt n) => NilZero.string_of_int (Z.to_int n)
  | Some (LFloat f) => float_repr f
  | Some (LBool true) => "True"
  | Some (LBool false) => "False"
  end.

Definition opt_string_eqb (a b : option string) : bool :=
  match a, b with
  | None, None => true
  | Some x, Some y => String.eqb x y
  | _, _ => false
  end.

(** ** Python dictionaries

    A [dict] keeps its items in insertion order; assigning to a key that is
    present replaces the value and keeps the stored key and its position. *)
Section Dict.
Context {K V : Type} (eqb : K -> K -> bool).

Fixpoint dict_get (k : K) (d : list (K * V)) : option V :=
  match d with
  | [] => None
  | (k', v) :: d' => if eqb k' k then Some v else dict_get k d'
  end.

Definition dict_mem (k : K) (d : list (K * V)) : bool :=
  match dict_get k d with Some _ => true | None => false end.

(** The stored item whose key equals [k]. *)
Fixpoint dict_find (k : K) (d : list (K * V)) : option (K * V) :=
  match d with
  | [] => None
  | (k', v) :: d' => if eqb k' k then Some (k', v) else dict_find k d'
  end.

Fixpoint dict_set (k : K) (v : V) (d : list (K * V)) : list (K * V) :=
  match d with
  | [] => [(k, v)]
  | (k', v') :: d' =>
      if eqb k' k then (k', v) :: d' else (k', v') :: dict_set k v d'
  end.

(** The number of items stored under a key equal to [k]. *)
Fixpoint dict_count (k : K) (d : list (K * V)) : nat :=
  match d with
  | [] => 0
  | (k', _) :: d' => (if eqb k' k then 1 else 0) + dict_count k d'
  end.

(** No two stored keys are equal. *)
Fixpoint dict_ok (d : list (K * V)) : Prop :=
  match d with
  | [] => True
  | (k, _) :: d' => dict_get k d' = None /\ dict_ok d'
  end.
End Dict.

(** Dictionaries keyed by strings: attribute maps and output objects. *)
Definition sget {V : Type} : string -> list (string * V) -> option V :=
  dict_get String.eqb.
Definition smem {V : Type} : string -> list (string * V) -> bool :=
  dict_mem String.eqb.
Definition sset {V : Type} : string -> V -> list (string * V) -> list (string * V) :=
  dict_set String.eqb.

(** ** Node objects *)

Abbreviation loc := nat (only parsing).

(** [class ValueNode]: the fields set by [__init__]. *)
Record ValueNode := {
  vn_type : option string;
  vn_value : option literal;
  vn_nullable : bool;
  vn_key : option string
}.

(** [class TypeNode].  [attributes] maps attribute names to nodes. *)
Record TypeNode := {
  tn_type : string;
  tn_attributes : list (string * loc);
  tn_nullable : bool;
  tn_otype : option literal;
  tn_snippet : bool;
  tn_ref : option string
}.

(** [class ListNode]. *)
Record ListNode := {
  ln_element_type : option loc;
  ln_nullable : bool
}.

Inductive node :=
| VNode (v : ValueNode)
| TNode (t : TypeNode)
| LNode (l : ListNode).

(** [type(x)] *)
Inductive class := ValueNode_class | TypeNode_class | ListNode_class.

Definition class_of (n : node) : class :=
  match n with
  | VNode _ => ValueNode_class
  | TNode _ => TypeNode_class
  | LNode _ => ListNode_class
  end.

Definition class_eqb (a b : class) : bool :=
  match a, b with
  | ValueNode_class, ValueNode_class => true
  | TypeNode_class, TypeNode_class => true
  | ListNode_class, ListNode_class => true
  | _, _ => false
  end.

Definition class_name (c : class) : string :=
  match c with
  | ValueNode_class => "ValueNode"
  | TypeNode_class => "TypeNode"
  | ListNode_class => "ListNode"
  end.

(** The line [TypeNode.merge] prints when the two tags differ. *)
Record warning := {
  w_self_otype : option literal;
  w_self_snippet : bool;
  w_other_otype : option literal;
  w_other_snippet : bool
}.

(** The objects allocated so far, and what has been printed. *)
Record store := {
  objs : list node;
  stdout : list warning
}.

(** ** Exceptions *)

(** The [TypeError]s the program raises, by message. *)
Inductive type_error :=
| ValueMismatch (key : option string) (left right : literal)
    (* Value mismatch for attribute 'key': 'left' vs 'right' *)
| TypeMismatch (key : option string) (left right : option string)
    (* Type mismatch for attribute 'key': 'left' vs 'right' *)
| OtypeTypeMismatch (otype : option literal) (left right : option string)
    (* Type mismatch for otype 'otype': 'left' vs 'right' *)
| ArrayElementTypes
    (* All elements in array must be of the same type *)
| ArrayObjectTypes
    (* All object elements in array must have the same type *)
| InvalidSnippet (value : option literal)
    (* Invalid 'snippet' value: 'value' *)
| AtAttribute (key : string) (e : type_error)
    (* At attribute 'key': e *).

Inductive exn :=
| TypeError (e : type_error)
| AttributeError (object_class attribute : string)
| SyntaxError
| KeyError
| RuntimeError      (* dictionary changed size during iteration *)
| RecursionError    (* the call depth allowed to [merge] is used up *)
| Stuck (l : loc).
    (* model only: a location that no allocation returned, or a field
       written on an object whose class does not declare it; the program
       does neither *)

Inductive outcome (A : Type) :=
| Return (a : A)
| Raise (e : exn).
Arguments Return {A} a.
Arguments Raise {A} e.

(** ** Computations

    A computation runs in a state [St], returns or raises, and leaves a
    state: what it wrote before raising stays written. *)
Definition M (St A : Type) : Type := St -> outcome A * St.

Definition ret {St A} (a : A) : M St A := fun s => (Return a, s).
Definition raise {St A} (e : exn) : M St A := fun s => (Raise e, s).
Definition bind {St A B} (m : M St A) (k : A -> M St B) : M St B :=
  fun s =>
    match m s with
    | (Return a, s') => k a s'
    | (Raise e, s') => (Raise e, s')
    end.

Declare Scope py_scope.
Delimit Scope py_scope with py.
Notation "x <- m ;; k" := (bind m (fun x => k))
  (at level 100, m at next level, right associativity) : py_scope.
Notation "m ;;; k" := (bind m (fun _ => k))
  (at level 100, right associativity) : py_scope.
Local Open Scope py_scope.

(** [for x in xs: body x] over an immutable sequence. *)
Fixpoint for_each {St A} (xs : list A) (body : A -> M St unit) : M St unit :=
  match xs with
  | [] => ret tt
  | x :: xs' => body x ;;; for_each xs' body
  end.

(** [for key, value in d.items(): body key value], where [d] is re-read on
    every step as the live view does: the iterator first checks that the
    dictionary still has the size it had when the loop began, then yields
    the item at its position.  [pending] counts the items of the first
    reading that have not been visited. *)
Fixpoint items_from {St V} (d : M St (list (string * V))) (used : nat)
    (pending : list (string * V)) (i : nat)
    (body : string -> V -> M St unit) : M St unit :=
  cur <- d ;;
  if negb (length cur =? used) then raise RuntimeError
  else
    match pending with
    | [] => ret tt
    | _ :: pending' =>
        match cur !! i with
        | Some (k, v) => body k v ;;; items_from d used pending' (S i) body
        | None => ret tt
        end
    end.

Definition for_items {St V} (d : M St (list (string * V)))
    (body : string -> V -> M St unit) : M St unit :=
  first <- d ;;
  items_from d (length first) first 0 body.

(** ** Attribute access on stored objects *)

(** [ValueNode(...)], [TypeNode(...)], [ListNode(...)]: a new object. *)
Definition alloc (n : node) : M store loc :=
  fun s => (Return (length (objs s)),
            {| objs := objs s ++ [n]; stdout := stdout s |}).

Definition load (l : loc) : M store node :=
  fun s =>
    match objs s !! l with
    | Some n => (Return n, s)
    | None => (Raise (Stuck l), s)
    end.

Definition write (l : loc) (n : node) : M store unit :=
  fun s => (Return tt, {| objs := <[l := n]> (objs s); stdout := stdout s |}).

Definition print (w : warning) : M store unit :=
  fun s => (Return tt, {| objs := objs s; stdout := stdout s ++ [w] |}).

(** [type(x)] *)
Definition get_class (l : loc) : M store class :=
  n <- load l ;; ret (class_of n).

(** [x.nullable]: every class has the field. *)
Definition node_nullable (n : node) : bool :=
  match n with
  | VNode v => vn_nullable v
  | TNode t => tn_nullable t
  | LNode a => ln_nullable a
  end.

Definition node_with_nullable (b : bool) (n : node) : node :=
  match n with
  | VNode v => VNode {| vn_type := vn_type v; vn_value := vn_value v;
                        vn_nullable := b; vn_key := vn_key v |}
  | TNode t => TNode {| tn_type := tn_type t;
                        tn_attributes := tn_attributes t;
                        tn_nullable := b; tn_otype := tn_otype t;
                        tn_snippet := tn_snippet t; tn_ref := tn_ref t |}
  | LNode a => LNode {| ln_element_type := ln_element_type a;
                        ln_nullable := b |}
  end.

Definition get_nullable (l : loc) : M store bool :=
  n <- load l ;; ret (node_nullable n).

(** [x.nullable = b] *)
Definition set_nullable (l : loc) (b : bool) : M store unit :=
  n <- load l ;; write l (node_with_nullable b n).

(** [hasattr(x, 'type')]: a [ListNode] has no field [type]. *)
Definition hasattr_type (c : class) : bool :=
  match c with ListNode_class => false | _ => true end.

(** [x.type] *)
Definition get_type (l : loc) : M store (option string) :=
  n <- load l ;;
  match n with
  | VNode v => ret (vn_type v)
  | TNode t => ret (Some (tn_type t))
  | LNode _ => raise (AttributeError "ListNode" "type")
  end.

(** [x.value] *)
Definition get_value (l : loc) : M store (option literal) :=
  n <- load l ;;
  match n with
  | VNode v => ret (vn_value v)
  | _ => raise (AttributeError (class_name (class_of n)) "value")
  end.

(** [x.key] *)
Definition get_key (l : loc) : M store (option string) :=
  n <- load l ;;
  match n with
  | VNode v => ret (vn_key v)
  | _ => raise (AttributeError (class_name (class_of n)) "key")
  end.

(** A field of a [TypeNode]. *)
Definition get_TypeNode {A} (field : string) (f : TypeNode -> A) (l : loc)
    : M store A :=
  n <- load l ;;
  match n with
  | TNode t => ret (f t)
  | _ => raise (AttributeError (class_name (class_of n)) field)
  end.

Definition get_otype := get_TypeNode "otype" tn_otype.
Definition get_snippet := get_TypeNode "snippet" tn_snippet.
Definition get_attributes := get_TypeNode "attributes" tn_attributes.

Definition with_attributes (attrs : list (string * loc)) (t : TypeNode)
    : TypeNode :=
  {| tn_type := tn_type t; tn_attributes := attrs;
     tn_nullable := tn_nullable t; tn_otype := tn_otype t;
     tn_snippet := tn_snippet t; tn_ref := tn_ref t |}.

Definition with_ref (r : option string) (t : TypeNode) : TypeNode :=
  {| tn_type := tn_type t; tn_attributes := tn_attributes t;
     tn_nullable := tn_nullable t; tn_otype := tn_otype t;
     tn_snippet := tn_snippet t; tn_ref := r |}.

(** [x.attributes = attrs] on a [TypeNode]. *)
Definition set_attributes (l : loc) (attrs : list (string * loc))
    : M store unit :=
  n <- load l ;;
  match n with
  | TNode t => write l (TNode (with_attributes attrs t))
  | _ => raise (Stuck l)
  end.

(** [x.ref = r] on a [TypeNode]. *)
Definition set_ref (l : loc) (r : option string) : M store unit :=
  n <- load l ;;
  match n with
  | TNode t => write l (TNode (with_ref r t))
  | _ => raise (Stuck l)
  end.

(** [x.attributes[key] = v]: the dictionary is updated in place. *)
Definition set_item (l : loc) (key : string) (v : loc) : M store unit :=
  attrs <- get_attributes l ;;
  set_attributes l (sset key v attrs).

(** [x.element_type] *)
Definition get_element_type (l : loc) : M store (option loc) :=
  n <- load l ;;
  match n with
  | LNode a => ret (ln_element_type a)
  | _ => raise (AttributeError (class_name (class_of n)) "element_type")
  end.

(** [x.element_type = e] on a [ListNode]. *)
Definition set_element_type (l : loc) (e : option loc) : M store unit :=
  n <- load l ;;
  match n with
  | LNode a => write l (LNode {| ln_element_type := e;
                                 ln_nullable := ln_nullable a |})
  | _ => raise (Stuck l)
  end.

(** [a or b] on booleans: [b] is read only when [a] is false. *)
Definition py_or {St} (a b : M St bool) : M St bool :=
  x <- a ;; if x then ret true else b.

(** ** The values an expression can denote, for identity tests

    [self.element_type is not ListNode] compares the field with the class
    object [ListNode].  A field holds [None] or a reference to an instance;
    a class object is a third kind of value. *)
Inductive pyref :=
| RNone
| RInstance (l : loc)
| RClass (c : class).

Definition ref_of (field : option loc) : pyref :=
  match field with
  | None => RNone
  | Some l => RInstance l
  end.

(** [a is b] *)
Definition py_is (a b : pyref) : bool :=
  match a, b with
  | RNone, RNone => true
  | RInstance x, RInstance y => x =? y
  | RClass c, RClass d => class_eqb c d
  | _, _ => false
  end.

(** ** [merge] *)

Definition is_otype_or_snippet (key : option string) : bool :=
  match key with
  | Some k => String.eqb k "otype" || String.eqb k "snippet"
  | None => false
  end.

(** [ValueNode.merge(self, other)] *)
Definition ValueNode_merge (self other : loc) : M store loc :=
  self_type <- get_type self ;;
  match self_type with
  | None => set_nullable other true ;;; ret other
  | Some _ =>
      self_key <- get_key self ;;
      (if is_otype_or_snippet self_key then
         self_value <- get_value self ;;
         match self_value with
         | None => ret tt
         | Some a =>
             other_value <- get_value other ;;
             match other_value with
             | None => ret tt
             | Some b =>
                 if negb (py_eq a b)
                 then raise (TypeError (ValueMismatch self_key a b))
                 else ret tt
             end
         end
       else ret tt) ;;;
      self_type <- get_type self ;;
      match self_type with
      | None => set_nullable self true
      | Some _ =>
          other_type <- get_type other ;;
          match other_type with
          | None => set_nullable self true
          | Some _ =>
              if negb (opt_string_eqb self_type other_type)
              then raise (TypeError (TypeMismatch self_key self_type other_type))
              else ret tt
          end
      end ;;;
      ret self
  end.

(** [TypeNode.merge(self, other)]; [merge] is the method call on an
    attribute, dispatched on the attribute's class. *)
Definition TypeNode_merge (merge : loc -> loc -> M store loc)
    (self other : loc) : M store loc :=
  nullable <- py_or (get_nullable self) (get_nullable other) ;;
  set_nullable self nullable ;;;
  other_type <- get_type other ;;
  match other_type with
  | None => ret self
  | Some _ =>
      self_type <- get_type self ;;
      if negb (opt_string_eqb self_type other_type) then
        self_otype <- get_otype self ;;
        raise (TypeError (OtypeTypeMismatch self_otype self_type other_type))
      else
        differ <- py_or (a <- get_otype self ;; b <- get_otype other ;;
                         ret (negb (py_eq_opt a b)))
                        (a <- get_snippet self ;; b <- get_snippet other ;;
                         ret (negb (Bool.eqb a b))) ;;
        (if differ then
           a <- get_otype self ;; b <- get_snippet self ;;
           c <- get_otype other ;; d <- get_snippet other ;;
           print {| w_self_otype := a; w_self_snippet := b;
                    w_other_otype := c; w_other_snippet := d |}
         else ret tt) ;;;
        for_items (get_attributes self) (fun key attr =>
          other_attributes <- get_attributes other ;;
          if negb (smem key other_attributes)
          then set_nullable attr true
          else ret tt) ;;;
        for_items (get_attributes other) (fun key attr =>
          self_attributes <- get_attributes self ;;
          match sget key self_attributes with
          | Some mine => merged <- merge mine attr ;; set_item self key merged
          | None => set_nullable attr true ;;; set_item self key attr
          end) ;;;
        ret self
  end.

(** [ListNode.merge(self, other)] *)
Definition ListNode_merge (merge : loc -> loc -> M store loc)
    (self other : loc) : M store loc :=
  nullable <- py_or (get_nullable self) (get_nullable other) ;;
  set_nullable self nullable ;;;
  self_element_type <- get_element_type self ;;
  if negb (py_is (ref_of self_element_type) (RClass ListNode_class))
  then ret self
  else
    match self_element_type with
    | None =>
        other_element_type <- get_element_type other ;;
        set_element_type self other_element_type
    | Some mine =>
        other_element_type <- get_element_type other ;;
        match other_element_type with
        | Some theirs =>
            merged <- merge mine theirs ;;
            set_element_type self (Some merged)
        | None => ret tt
        end
    end ;;;
    ret self.

(** [self.merge(other)]: the method of [self]'s class.  [depth] bounds the
    nesting of calls, as the interpreter's recursion limit does. *)
Fixpoint merge (depth : nat) (self other : loc) : M store loc :=
  match depth with
  | 0 => raise RecursionError
  | S depth' =>
      n <- load self ;;
      match n with
      | VNode _ => ValueNode_merge self other
      | TNode _ => TypeNode_merge (merge depth') self other
      | LNode _ => ListNode_merge (merge depth') self other
      end
  end.

Definition recursion_limit : nat := 1000.

(** ** The type registry *)

(** A key [(otype, snippet)].  Dictionary keys are compared with [==]. *)
Definition regkey : Type := option literal * bool.

Definition key_eqb (a b : regkey) : bool :=
  py_eq_opt (fst a) (fst b) && Bool.eqb (snd a) (snd b).

(** [class TypeRegistry]: its two dictionaries. *)
Record TypeRegistry := {
  types : list (regkey * loc);
  type_names : list (regkey * string)
}.

(** [TypeRegistry()] *)
Definition TypeRegistry_init : TypeRegistry :=
  {| types := []; type_names := [] |}.

(** The state of the process: the objects, and the module-level variable
    [type_registry], which every parser action reads and writes. *)
Record world := {
  mem : store;
  type_registry : TypeRegistry
}.

(** The state once the module is loaded. *)
Definition initial_world : world :=
  {| mem := {| objs := []; stdout := [] |};
     type_registry := TypeRegistry_init |}.

(** A computation on the objects, run in the process. *)
Definition lift {A} (m : M store A) : M world A :=
  fun w =>
    let (r, s) := m (mem w) in
    (r, {| mem := s; type_registry := type_registry w |}).

Definition get_registry : M world TypeRegistry :=
  fun w => (Return (type_registry w), w).

Definition put_registry (r : TypeRegistry) : M world unit :=
  fun w => (Return tt, {| mem := mem w; type_registry := r |}).

(** The name given to a key: [f"{otype}{snippet_append}"]. *)
Definition type_name (otype : option literal) (snippet : bool) : string :=
  let snippet_append := if snippet then "_snippet" else "" in
  String.append (py_str otype) snippet_append.

(** [TypeRegistry.register_type(self, otype, snippet, type_node)] *)
Definition register_type (otype : option literal) (snippet : bool)
    (type_node : loc) : M world unit :=
  let key := (otype, snippet) in
  r <- get_registry ;;
  match dict_get key_eqb key (types r) with
  | Some existing => lift (merge recursion_limit existing type_node) ;;; ret tt
  | None =>
      put_registry {| types := dict_set key_eqb key type_node (types r);
                      type_names := type_names r |} ;;;
      r <- get_registry ;;
      put_registry {| types := types r;
                      type_names := dict_set key_eqb key
                                      (type_name otype snippet)
                                      (type_names r) |}
  end.

(** [TypeRegistry.get_preferred_snippet(self, otype)] *)
Definition get_preferred_snippet (r : TypeRegistry) (otype : option literal)
    : option bool :=
  if dict_mem key_eqb (otype, false) (types r) then Some false
  else if dict_mem key_eqb (otype, true) (types r) then Some true
  else None.

(** [TypeRegistry.get_ref(self, otype)] *)
Definition get_ref (r : TypeRegistry) (otype : option literal)
    : option string :=
  match get_preferred_snippet r otype with
  | Some snippet => dict_get key_eqb (otype, snippet) (type_names r)
  | None => None
  end.

(** ** Serialisation *)

(** The objects [to_dict] builds: values and dictionaries keyed by
    strings. *)
Inductive pyobj :=
| PyValue (v : option literal)
| PyDict (items : list (string * pyobj)).

Definition PyStr (s : option string) : pyobj :=
  PyValue (option_map LStr s).

Definition obind {A B} (m : outcome A) (k : A -> outcome B) : outcome B :=
  match m with
  | Return a => k a
  | Raise e => Raise e
  end.

(** [if nullable: result['nullable'] = True] *)
Definition with_nullable (nullable : bool) (result : list (string * pyobj))
    : list (string * pyobj) :=
  if nullable then sset "nullable" (PyValue (Some (LBool true))) result
  else result.

(** [ValueNode.to_dict(self)] *)
Definition ValueNode_to_dict (self : ValueNode) : pyobj :=
  PyDict (with_nullable (vn_nullable self) [("type", PyStr (vn_type self))]).

(** [ListNode.to_dict(self, type_registry)] *)
Fixpoint ListNode_to_dict (depth : nat) (s : store) (r : TypeRegistry)
    (self : ListNode) : outcome pyobj :=
  match depth with
  | 0 => Raise RecursionError
  | S depth' =>
      let result :=
        with_nullable (ln_nullable self) [("type", PyStr (Some "array"))] in
      match ln_element_type self with
      | None => Raise (AttributeError "NoneType" "to_dict")
      | Some e =>
          match objs s !! e with
          | None => Raise (Stuck e)
          | Some (TNode t) =>
              Return (PyDict (sset "element"
                        (PyDict [("ref", PyStr (get_ref r (tn_otype t)))])
                        result))
          | Some (LNode a) =>
              obind (ListNode_to_dict depth' s r a) (fun element =>
              Return (PyDict (sset "element" element result)))
          | Some (VNode v) =>
              Return (PyDict (sset "element" (ValueNode_to_dict v) result))
          end
      end
  end.

(** One step of the loop over [self.attributes.items()]. *)
Definition attribute_to_dict (s : store) (r : TypeRegistry) (attr : loc)
    : outcome pyobj :=
  match objs s !! attr with
  | None => Raise (Stuck attr)
  | Some (TNode t) =>
      Return (PyDict (with_nullable (tn_nullable t)
                        [("ref", PyStr (get_ref r (tn_otype t)))]))
  | Some (LNode a) => ListNode_to_dict recursion_limit s r a
  | Some (VNode v) => Return (ValueNode_to_dict v)
  end.

Fixpoint attributes_to_dict (s : store) (r : TypeRegistry)
    (items : list (string * loc)) (result : list (string * pyobj))
    : outcome (list (string * pyobj)) :=
  match items with
  | [] => Return result
  | (key, attr) :: items' =>
      obind (attribute_to_dict s r attr) (fun d =>
      attributes_to_dict s r items' (sset key d result))
  end.

(** [TypeNode.to_dict(self, type_registry)] *)
Definition TypeNode_to_dict (s : store) (r : TypeRegistry) (self : TypeNode)
    : outcome pyobj :=
  let result :=
    with_nullable (tn_nullable self)
      [("type", PyStr (Some (tn_type self)));
       ("otype", PyValue (tn_otype self));
       ("snippet", PyValue (Some (LBool (tn_snippet self))))] in
  match tn_attributes self with
  | [] => Return (PyDict result)
  | _ :: _ =>
      obind (attributes_to_dict s r (tn_attributes self) []) (fun attrs =>
      Return (PyDict (sset "attributes" (PyDict attrs) result)))
  end.

(** The loop of [TypeRegistry.to_dict].  An entry is a [TypeNode]: both
    callers of [register_type] pass one. *)
Fixpoint registry_to_dict (s : store) (r : TypeRegistry)
    (items : list (regkey * loc)) (output : list (string * pyobj))
    : outcome (list (string * pyobj)) :=
  match items with
  | [] => Return output
  | (key, type_node) :: items' =>
      match dict_get key_eqb key (type_names r) with
      | None => Raise KeyError
      | Some name =>
          match objs s !! type_node with
          | Some (TNode t) =>
              obind (TypeNode_to_dict s r t) (fun d =>
              registry_to_dict s r items' (sset name d output))
          | _ => Raise (Stuck type_node)
          end
      end
  end.

(** [TypeRegistry.to_dict(self)]: reads the process state, writes
    nothing. *)
Definition TypeRegistry_to_dict (w : world) : outcome (list (string * pyobj)) :=
  registry_to_dict (mem w) (type_registry w) (types (type_registry w)) [].

(** ** The grammar's semantic actions *)

(** What the lexer and the grammar accept: the token values are already
    converted ([t_NUMBER] yields an [int] or a [float]).  The rules
    [elements] and [members] have no empty alternative, so [[]] and [{}] are
    syntax errors. *)
Inductive json :=
| JObject (members : list (string * json))
| JArray (elements : list json)
| JString (s : string)
| JInt (n : Z)
| JFloat (f : pyfloat)
| JTrue
| JFalse
| JNull.

(** [\d].  Strings are sequences of 8-bit characters here, so the decimal
    digits are the ASCII ones; Python's [\d] also accepts the decimal digits
    of other scripts, which such strings do not hold. *)
Definition is_digit (c : ascii) : bool :=
  (48 <=? nat_of_ascii c) && (nat_of_ascii c <=? 57).

Definition is_dash (c : ascii) : bool := nat_of_ascii c =? 45.

(** [re.fullmatch] for a pattern that is a sequence of character
    classes. *)
Fixpoint fullmatch (pattern : list (ascii -> bool)) (s : string) : bool :=
  match pattern, s with
  | [], EmptyString => true
  | p :: pattern', String c s' => p c && fullmatch pattern' s'
  | _, _ => false
  end.

(** [r'\d{4}-\d{2}-\d{2}'] *)
Definition date_pattern : list (ascii -> bool) :=
  [is_digit; is_digit; is_digit; is_digit; is_dash;
   is_digit; is_digit; is_dash; is_digit; is_digit].

(** [ValueNode(type=t, value=v)] *)
Definition new_ValueNode (t : option string) (v : option literal)
    (nullable : bool) : M store loc :=
  alloc (VNode {| vn_type := t; vn_value := v; vn_nullable := nullable;
                  vn_key := None |}).

Definition p_value_string (s : string) : M store loc :=
  if fullmatch date_pattern s
  then new_ValueNode (Some "date") (Some (LStr s)) false
  else new_ValueNode (Some "string") (Some (LStr s)) false.

Definition p_value_number (n : Z + pyfloat) : M store loc :=
  match n with
  | inl i => new_ValueNode (Some "int") (Some (LInt i)) false
  | inr f => new_ValueNode (Some "float") (Some (LFloat f)) false
  end.

Definition p_value_true : M store loc :=
  new_ValueNode (Some "bool") (Some (LBool true)) false.

Definition p_value_false : M store loc :=
  new_ValueNode (Some "bool") (Some (LBool false)) false.

Definition p_value_null : M store loc :=
  new_ValueNode None None true.

(** [p_array], given the list [p[2]] of element nodes. *)
Definition p_array (elements : list loc) : M store loc :=
  match elements with
  | [] => alloc (LNode {| ln_element_type := None; ln_nullable := false |})
  | first_element :: rest =>
      for_each rest (fun elem =>
        elem_class <- get_class elem ;;
        first_class <- get_class first_element ;;
        if negb (class_eqb elem_class first_class)
        then raise (TypeError ArrayElementTypes)
        else if hasattr_type first_class && hasattr_type elem_class then
          first_type <- get_type first_element ;;
          elem_type <- get_type elem ;;
          if negb (opt_string_eqb first_type elem_type)
          then raise (TypeError ArrayObjectTypes)
          else ret tt
        else ret tt) ;;;
      alloc (LNode {| ln_element_type := Some first_element;
                      ln_nullable := false |})
  end.

(** [p_object], given the dictionary [p[2]] of members. *)
Definition p_object (attributes : list (string * loc)) : M world loc :=
  otype <- match sget "otype" attributes with
           | Some otype_node => lift (get_value otype_node)
           | None => ret None
           end ;;
  snippet <- match sget "snippet" attributes with
             | Some snippet_node =>
                 v <- lift (get_value snippet_node) ;;
                 match v with
                 | Some (LBool true) => ret true
                 | Some (LBool false) => ret false
                 | _ => raise (TypeError (InvalidSnippet v))
                 end
             | None => ret false
             end ;;
  type_node <- lift (alloc (TNode {| tn_type := "object";
                                     tn_attributes := attributes;
                                     tn_nullable := false;
                                     tn_otype := otype;
                                     tn_snippet := snippet;
                                     tn_ref := None |})) ;;
  match otype with
  | Some _ => register_type otype snippet type_node
  | None => ret tt
  end ;;;
  ret type_node.

(** [try: m  except TypeError as e: raise TypeError(f"At attribute ...")] *)
Definition at_attribute {St A} (key : string) (m : M St A) : M St A :=
  fun s =>
    match m s with
    | (Raise (TypeError e), s') => (Raise (TypeError (AtAttribute key e)), s')
    | r => r
    end.

(** [p_members_multiple], given [p[1]] and [p[3]]; the result is [p[0]]. *)
Fixpoint p_members_multiple (p1 p3 : list (string * loc))
    : M store (list (string * loc)) :=
  match p1 with
  | [] => ret p3
  | (key, value) :: p1' =>
      p0 <- match sget key p3 with
            | Some mine =>
                merged <- at_attribute key (merge recursion_limit mine value) ;;
                ret (sset key merged p3)
            | None => ret (sset key value p3)
            end ;;
      p_members_multiple p1' p0
  end.

(** Truth of an [Optional[str]]: [None] and the empty string are false. *)
Definition truthy (name : option string) : bool :=
  match name with
  | None => false
  | Some n => negb (String.eqb n "")
  end.

(** The [isinstance(value, TypeNode)] branch of [p_member]. *)
Definition p_member_TypeNode (value : loc) : M world unit :=
  otype <- lift (get_otype value) ;;
  r <- get_registry ;;
  let ref_type_name := get_ref r otype in
  if truthy ref_type_name then
    lift (set_ref value ref_type_name) ;;;
    lift (set_attributes value [])
  else
    otype <- lift (get_otype value) ;;
    snippet <- lift (get_snippet value) ;;
    register_type otype snippet value ;;;
    otype <- lift (get_otype value) ;;
    r <- get_registry ;;
    lift (set_ref value (get_ref r otype)) ;;;
    lift (set_attributes value []).

(** [value.element_type], known to be an instance. *)
Definition the_element_type (value : loc) : M store loc :=
  e <- get_element_type value ;;
  match e with
  | Some element => ret element
  | None => raise (AttributeError "NoneType" "otype")
  end.

(** The [isinstance(value, ListNode)] branch of [p_member]. *)
Definition p_member_ListNode (value : loc) : M world unit :=
  e <- lift (get_element_type value) ;;
  match e with
  | None => ret tt
  | Some element =>
      c <- lift (get_class element) ;;
      match c with
      | TypeNode_class =>
          otype <- lift (e <- the_element_type value ;; get_otype e) ;;
          r <- get_registry ;;
          let ref_type_name := get_ref r otype in
          if truthy ref_type_name then
            e <- lift (the_element_type value) ;;
            lift (set_ref e ref_type_name)
          else
            otype <- lift (e <- the_element_type value ;; get_otype e) ;;
            snippet <- lift (e <- the_element_type value ;; get_snippet e) ;;
            e <- lift (the_element_type value) ;;
            register_type otype snippet e ;;;
            otype <- lift (e <- the_element_type value ;; get_otype e) ;;
            r <- get_registry ;;
            e <- lift (the_element_type value) ;;
            lift (set_ref e (get_ref r otype)) ;;;
            e <- lift (the_element_type value) ;;
            lift (set_attributes e [])
      | _ => ret tt
      end
  end.

(** [p_member], given the key [p[1]] and the node [p[3]]. *)
Definition p_member (key : string) (value : loc)
    : M world (list (string * loc)) :=
  c <- lift (get_class value) ;;
  match c with
  | TypeNode_class => p_member_TypeNode value
  | ListNode_class => p_member_ListNode value
  | ValueNode_class => ret tt
  end ;;;
  ret [(key, value)].

(** The actions in the order the LR parser runs them: a value's actions,
    then [p_member] for it, for each member from left to right; then the
    [members] rules from the right, each merging one member into the
    dictionary built from those after it. *)
Fixpoint value (j : json) : M world loc :=
  match j with
  | JObject members =>
      attributes <-
        (fix members_ (ms : list (string * json))
           : M world (list (string * loc)) :=
           match ms with
           | [] => raise SyntaxError
           | (key, j') :: rest =>
               v <- value j' ;;
               member <- p_member key v ;;
               match rest with
               | [] => ret member
               | _ :: _ =>
                   tail <- members_ rest ;;
                   lift (p_members_multiple member tail)
               end
           end) members ;;
      p_object attributes
  | JArray elements =>
      nodes <-
        (fix elements_ (js : list json) : M world (list loc) :=
           match js with
           | [] => raise SyntaxError
           | j' :: rest =>
               v <- value j' ;;
               match rest with
               | [] => ret [v]
               | _ :: _ => tail <- elements_ rest ;; ret (v :: tail)
               end
           end) elements ;;
      lift (p_array nodes)
  | JString s => lift (p_value_string s)
  | JInt n => lift (p_value_number (inl n))
  | JFloat f => lift (p_value_number (inr f))
  | JTrue => lift p_value_true
  | JFalse => lift p_value_false
  | JNull => lift p_value_null
  end.

(** [parser.parse(data)] *)
Definition parse (data : json) : M world loc := value data.

(** The loop of [main] over [data_list]. *)
Definition parse_all (data_list : list json) : M world unit :=
  for_each data_list (fun data => parse data ;;; ret tt).

(** The body of [main]'s [try]: parse every document into the registry,
    then serialise the registry. *)
Definition run (data_list : list json) : M world (list (string * pyobj)) :=
  parse_all data_list ;;;
  fun w => (TypeRegistry_to_dict w, w).

(** ** Notions used to state the properties *)

(** Two nodes of the same kind: scalars of one type, objects of one
    structural type, or lists. *)
Definition same_kind (a b : node) : bool :=
  match a, b with
  | VNode x, VNode y => opt_string_eqb (vn_type x) (vn_type y)
  | TNode x, TNode y => String.eqb (tn_type x) (tn_type y)
  | LNode _, LNode _ => true
  | _, _ => false
  end.


(** The registry's two dictionaries go together: no key is stored twice,
    and [type_names] names every key of [types], in the same order, with
    the name [register_type] computes for the stored key. *)
Definition registry_inv (r : TypeRegistry) : Prop :=
  dict_ok key_eqb (types r) /\
  type_names r
  = map (fun kl => (fst kl, type_name (fst (fst kl)) (snd (fst kl)))) (types r).

(** The structure under a node: the node's own fields and, in place of each
    reference to another node, that node's structure. *)
Inductive shape :=
| ShValue (v : ValueNode)
| ShList (nullable : bool) (element : option shape)
| ShType (fields : TypeNode) (attributes : list (string * shape)).



(** The number of levels of a structure. *)
Fixpoint height (T : shape) : nat :=
  match T with
  | ShValue _ => 1
  | ShList _ None => 1
  | ShList _ (Some T') => S (height T')
  | ShType _ attrs =>
      S ((fix heights (l : list (string * shape)) : nat :=
            match l with
            | [] => 0
            | (_, T') :: l' => Nat.max (height T') (heights l')
            end) attrs)
  end.

Fixpoint heights (l : list (string * shape)) : nat :=
  match l with
  | [] => 0
  | (_, T') :: l' => Nat.max (height T') (heights l')
  end.




(** A computation keeps the registry's dictionaries together, whether it
    returns or raises. *)
Definition keeps_registry {A} (m : M world A) : Prop :=
  forall w, registry_inv (type_registry w) ->
            registry_inv (type_registry (snd (m w))).


(** The error the loop of [p_array] raises, if any: that of the first
    element which is not of the first element's kind. *)
Fixpoint array_error (fn : node) (nodes : list node) : option type_error :=
  match nodes with
  | [] => None
  | n :: nodes' =>
      if same_kind fn n then array_error fn nodes'
      else Some (if class_eqb (class_of n) (class_of fn)
                 then ArrayObjectTypes else ArrayElementTypes)
  end.

(** [TypeRegistry.get_type(self, otype, snippet)] *)
Definition TypeRegistry_get_type (r : TypeRegistry) (otype : option literal)
    (snippet : bool) : option loc :=
  dict_get key_eqb (otype, snippet) (types r).

(** [TypeRegistry.get_type_name(self, key)] *)
Definition TypeRegistry_get_type_name (r : TypeRegistry) (key : regkey)
    : option string :=
  dict_get key_eqb key (type_names r).

(** The fields that no statement of the program assigns after the
    constructor: a node's class, a scalar's type, value and key, a list's
    element type (the two assignments in [ListNode.merge] are never
    reached), an object's type, otype and snippet. *)
Definition node_fixed (n n' : node) : Prop :=
  match n, n' with
  | VNode v, VNode v' =>
      vn_type v' = vn_type v /\ vn_value v' = vn_value v /\
      vn_key v' = vn_key v
  | TNode t, TNode t' =>
      tn_type t' = tn_type t /\ tn_otype t' = tn_otype t /\
      tn_snippet t' = tn_snippet t
  | LNode a, LNode a' => ln_element_type a' = ln_element_type a
  | _, _ => False
  end.

(** [s'] holds every object of [s], with those fields as they were. *)
Definition extends (s s' : store) : Prop :=
  forall l n, objs s !! l = Some n ->
              exists n', objs s' !! l = Some n' /\ node_fixed n n'.

(** What a merge can do to a node: set its flag, and for an object rebind
    attributes and add attributes after those it has. *)
Definition node_grows (n n' : node) : Prop :=
  match n, n' with
  | VNode v, VNode v' =>
      vn_type v' = vn_type v /\ vn_value v' = vn_value v /\
      vn_key v' = vn_key v /\
      (vn_nullable v = true -> vn_nullable v' = true)
  | TNode t, TNode t' =>
      tn_type t' = tn_type t /\ tn_otype t' = tn_otype t /\
      tn_snippet t' = tn_snippet t /\ tn_ref t' = tn_ref t /\
      (tn_nullable t = true -> tn_nullable t' = true) /\
      exists more,
        map fst (tn_attributes t') = map fst (tn_attributes t) ++ more
  | LNode a, LNode a' =>
      ln_element_type a' = ln_element_type a /\
      (ln_nullable a = true -> ln_nullable a' = true)
  | _, _ => False
  end.

Definition grows (s s' : store) : Prop :=
  length (objs s') = length (objs s) /\
  (forall l n, objs s !! l = Some n ->
               exists n', objs s' !! l = Some n' /\ node_grows n n') /\
  exists more, stdout s' = stdout s ++ more.

(** Whatever state a computation starts in, the state it leaves is related
    to it by [R]. *)
Definition always {St A} (R : St -> St -> Prop) (m : M St A) : Prop :=
  forall s, R s (snd (m s)).

(** A computation that leaves the state as it is. *)
Definition reads {St A} (m : M St A) : Prop := forall s, snd (m s) = s.

(** [m], run in [s], returns a value and a state that satisfy [Q], or
    raises an exception that with the state left satisfies [E]. *)
Definition wp {St A} (m : M St A) (Q : A -> St -> Prop)
    (E : exn -> St -> Prop) (s : St) : Prop :=
  match m s with
  | (Return a, s') => Q a s'
  | (Raise e, s') => E e s'
  end.

(** The nodes the grammar's actions build, in a store of [len] objects: a
    scalar has no key and one of the scalar types, an object has the type
    [object], a list has an element type ([p_array] is never run on an
    empty list), and every reference is to an allocated object. *)
Definition node_ok (len : nat) (n : node) : Prop :=
  match n with
  | VNode v => vn_key v = None /\ vn_type v <> Some "object"
  | TNode t =>
      tn_type t = "object" /\
      Forall (fun kv : string * loc => snd kv < len) (tn_attributes t)
  | LNode a => exists e, ln_element_type a = Some e /\ e < len
  end.

(** A store of such nodes, whose classes are those listed in [cls]. *)
Definition store_ok (cls : list class) (s : store) : Prop :=
  map class_of (objs s) = cls /\ Forall (node_ok (length cls)) (objs s).

(** A state of the process in which, besides, the registry's dictionaries
    go together and every entry is an object. *)
Definition world_ok_with (cls : list class) (w : world) : Prop :=
  store_ok cls (mem w) /\
  registry_inv (type_registry w) /\
  Forall (fun kl : regkey * loc => cls !! snd kl = Some TypeNode_class)
    (types (type_registry w)).

Definition world_ok (w : world) : Prop := exists cls, world_ok_with cls w.

(** The exceptions a [merge] of such nodes can raise. *)
Definition merge_raises (e : exn) : Prop :=
  match e with
  | TypeError (TypeMismatch None (Some _) (Some _)) => True
  | TypeError (OtypeTypeMismatch _ (Some _) (Some _)) => True
  | AttributeError c a => c = "ListNode" /\ a = "type"
  | RuntimeError => True
  | RecursionError => True
  | _ => False
  end.

(** The exceptions the parser's actions can raise. *)
Definition parse_raises (e : exn) : Prop :=
  match e with
  | TypeError (AtAttribute _ e') => merge_raises (TypeError e')
  | TypeError ArrayElementTypes => True
  | TypeError ArrayObjectTypes => True
  | TypeError (InvalidSnippet _) => True
  | AttributeError c a =>
      (c = "ListNode" /\ a = "type") \/
      ((c = "TypeNode" \/ c = "ListNode") /\ a = "value")
  | SyntaxError => True
  | _ => merge_raises e
  end.

(** A document without an empty array or object. *)
Fixpoint no_empty (j : json) : bool :=
  match j with
  | JObject members =>
      match members with [] => false | _ :: _ => true end &&
      forallb (fun m => no_empty (snd m)) members
  | JArray elements =>
      match elements with [] => false | _ :: _ => true end &&
      forallb no_empty elements
  | _ => true
  end.

(** What a merge of such nodes leaves: a store of such nodes with the same
    classes, and a node of it or one of those exceptions. *)
Definition merge_returns (cls : list class) (r : loc) (s : store) : Prop :=
  store_ok cls s /\ r < length cls.

Definition merge_fails (cls : list class) (e : exn) (s : store) : Prop :=
  store_ok cls s /\ merge_raises e.

(** The exceptions of the actions: those of the parser other than a syntax
    error, which only the grammar raises. *)
Definition action_raises (e : exn) : Prop :=
  parse_raises e /\ e <> SyntaxError.

(** What parsing a document leaves, from a state of such nodes with classes
    [cls]: a state of such nodes that holds those of [cls] and the new ones,
    and a node of it, or an exception of the parser, a syntax error only if
    the document is not [complete]. *)
Definition parse_returns (cls : list class) (l : loc) (w : world) : Prop :=
  exists more, world_ok_with (cls ++ more) w /\ l < length (cls ++ more).

Definition parse_fails (cls : list class) (complete : bool) (e : exn)
    (w : world) : Prop :=
  (exists more, world_ok_with (cls ++ more) w) /\
  parse_raises e /\
  (complete = true -> e <> SyntaxError).

(** Serialising returns, or the nesting of lists is deeper than the calls
    allowed. *)
Definition returns_or_too_deep {A} (r : outcome A) : Prop :=
  match r with
  | Return _ => True
  | Raise e => e = RecursionError
  end.

(** The object at [l] is allocated and its [nullable] is true. *)
Definition nullable_at (s : store) (l : loc) : Prop :=
  exists n, objs s !! l = Some n /\ node_nullable n = true.

(** [x.attributes], when [x] is an object. *)
Definition attrs_of (s : store) (l : loc) : option (list (string * loc)) :=
  match objs s !! l with
  | Some (TNode t) => Some (tn_attributes t)
  | _ => None
  end.

(** Every attribute of the object at [x] whose name is in [names] is bound
    to a nullable node. *)
Definition attrs_nullable (names : string -> Prop) (x : loc) (s : store)
    : Prop :=
  forall attrs k a,
    attrs_of s x = Some attrs -> names k -> sget k attrs = Some a ->
    nullable_at s a.

(** No condition on the exception raised. *)
Definition any_exn {St} (e : exn) (s : St) : Prop := True.

(** What [p_object] reads for the member [key] of [attributes]: nothing
    when the member is absent, and else the [value] of its node, which only
    a scalar has. *)
Definition member_value (s : store) (key : string)
    (attributes : list (string * loc)) (v : option literal) : Prop :=
  match sget key attributes with
  | None => v = None
  | Some l => exists x, objs s !! l = Some (VNode x) /\ v = vn_value x
  end.

(** A string of the form [dddd-dd-dd], each [d] a decimal digit. *)
Definition date_shaped (s : string) : Prop :=
  exists y1 y2 y3 y4 m1 m2 d1 d2 : ascii,
    Forall (fun c => is_digit c = true) [y1; y2; y3; y4; m1; m2; d1; d2] /\
    s = String y1 (String y2 (String y3 (String y4 (String "-"
          (String m1 (String m2 (String "-"
             (String d1 (String d2 EmptyString))))))))).

(** The items every serialised object starts with. *)
Definition entry_header (t : TypeNode) : list (string * pyobj) :=
  [("type", PyStr (Some (tn_type t)));
   ("otype", PyValue (tn_otype t));
   ("snippet", PyValue (Some (LBool (tn_snippet t))))]
  ++ (if tn_nullable t then [("nullable", PyValue (Some (LBool true)))]
      else []).

(** What a run never undoes on an object: its class and the fields fixed
    by the constructor stay, and a [nullable] that is true stays true. *)
Definition node_kept (n n' : node) : Prop :=
  node_fixed n n' /\ (node_nullable n = true -> node_nullable n' = true).

Definition store_kept (s s' : store) : Prop :=
  (forall l n, objs s !! l = Some n ->
               exists n', objs s' !! l = Some n' /\ node_kept n n') /\
  exists more, stdout s' = stdout s ++ more.

(** And in the process: the registry's dictionaries are only added to, at
    their ends. *)
Definition world_kept (w w' : world) : Prop :=
  store_kept (mem w) (mem w') /\
  (exists more, types (type_registry w')
                = types (type_registry w) ++ more) /\
  (exists more, type_names (type_registry w')
                = type_names (type_registry w) ++ more).

(** A computation that, run with the registry's dictionaries together,
    keeps them together and undoes nothing. *)
Definition learns {A} (m : M world A) : Prop :=
  forall w, registry_inv (type_registry w) ->
            registry_inv (type_registry (snd (m w))) /\
            world_kept w (snd (m w)).

(** The rules [members] as [value] runs them, for the members of one
    object: [value] is the action for a member's value. *)
Definition members_of (value : json -> M world loc)
    : list (string * json) -> M world (list (string * loc)) :=
  fix members_ (ms : list (string * json)) : M world (list (string * loc)) :=
    match ms with
    | [] => raise SyntaxError
    | (key, j') :: rest =>
        v <- value j' ;;
        member <- p_member key v ;;
        match rest with
        | [] => ret member
        | _ :: _ =>
            tail <- members_ rest ;;
            lift (p_members_multiple member tail)
        end
    end.

(** No attribute of any object is the object at [l]. *)
Definition unreferenced (l : loc) (s : store) : Prop :=
  forall x attrs k v,
    attrs_of s x = Some attrs -> In (k, v) attrs -> v <> l.

(** ** Sample inputs *)

Definition otype_person : ValueNode :=
  {| vn_type := Some "string"; vn_value := Some (LStr "person");
     vn_nullable := false; vn_key := Some "otype" |}.

Definition otype_animal : ValueNode :=
  {| vn_type := Some "string"; vn_value := Some (LStr "animal");
     vn_nullable := false; vn_key := Some "otype" |}.

Definition string_scalar (nullable : bool) : ValueNode :=
  {| vn_type := Some "string"; vn_value := Some (LStr "x");
     vn_nullable := nullable; vn_key := None |}.

(** The documents [{"otype": "a", "x": "s"}] and
    [{"otype": "a", "x": "t", "x": null}]. *)
Definition doc_x_present : json :=
  JObject [("otype", JString "a"); ("x", JString "s")].

Definition doc_x_null : json :=
  JObject [("otype", JString "a"); ("x", JString "t"); ("x", JNull)].

Definition empty_list : ListNode :=
  {| ln_element_type := None; ln_nullable := false |}.

Definition list_of_strings : ListNode :=
  {| ln_element_type := Some 1; ln_nullable := false |}.

(** An object with a string, a null, a list and the tag among its
    attributes. *)
Definition sample_object : TypeNode :=
  {| tn_type := "object";
     tn_attributes := [("xs", 3); ("z", 2); ("n", 1); ("otype", 0)];
     tn_nullable := false; tn_otype := Some (LStr "person");
     tn_snippet := false; tn_ref := None |}.

Definition sample_store : store :=
  {| objs := [VNode otype_person;
              VNode (string_scalar false);
              VNode {| vn_type := None; vn_value := None;
                       vn_nullable := true; vn_key := None |};
              LNode list_of_strings;
              TNode sample_object];
     stdout := [] |}.

Definition name_scalar : ValueNode :=
  {| vn_type := Some "string"; vn_value := Some (LStr "Hungarian");
     vn_nullable := false; vn_key := None |}.

Definition language_object (attributes : list (string * loc)) : TypeNode :=
  {| tn_type := "object"; tn_attributes := attributes; tn_nullable := false;
     tn_otype := Some (LStr "language"); tn_snippet := false; tn_ref := None |}.

(** Two sightings of the object tagged "language": one with a name, one
    with a name and a dialect. *)
Definition two_languages : store :=
  {| objs := [VNode name_scalar;
              TNode (language_object [("name", 0)]);
              VNode name_scalar;
              VNode name_scalar;
              TNode (language_object [("dialect", 3); ("name", 2)])];
     stdout := [] |}.

(** The registry after the run of [main]'s own two documents' tags: both
    variants of "language" and of "person". *)
Definition sample_registry : TypeRegistry :=
  {| types := [((Some (LStr "person"), true), 8);
               ((Some (LStr "language"), false), 17);
               ((Some (LStr "person"), false), 27);
               ((Some (LStr "language"), true), 46)];
     type_names := [((Some (LStr "person"), true), "person_snippet");
                    ((Some (LStr "language"), false), "language");
                    ((Some (LStr "person"), false), "person");
                    ((Some (LStr "language"), true), "language_snippet")] |}.

(** The document [[{"otype": "x_snippet"}, {"otype": "x", "snippet": true}]]. *)
Definition colliding_tags : json :=
  JArray [JObject [("otype", JString "x_snippet")];
          JObject [("otype", JString "x"); ("snippet", JTrue)]].

(** The documents [{"otype": "a", "x": 1}] and [{"otype": "b", "y": 1}]. *)
Definition corpus_a : list json :=
  [JObject [("otype", JString "a"); ("x", JInt 1)]].

Definition corpus_b : list json :=
  [JObject [("otype", JString "b"); ("y", JInt 1)]].

(** The document [[{"otype": "language", "name": "Hungarian"}]]. *)
Definition language_list : json :=
  JArray [JObject [("otype", JString "language"); ("name", JString "Hungarian")]].

(** The state after the actions for [language_list]: object [2] is
    registered as "language" and is the element of list [3]. *)
Definition after_language_list : world :=
  snd (value language_list initial_world).

(** The document [{"otype": "a", "otype": "b"}]. *)
Definition doc_two_otypes : json :=
  JObject [("otype", JString "a"); ("otype", JString "b")].

(** The document [{"child": {"otype": "t", "n": 1}}]. *)
Definition doc_tagged_child : json :=
  JObject [("child", JObject [("otype", JString "t"); ("n", JInt 1)])].

(** The document [{"otype": "p", "child": {"n": 1}}]. *)
Definition doc_untagged_child : json :=
  JObject [("otype", JString "p"); ("child", JObject [("n", JInt 1)])].

Definition null_scalar : ValueNode :=
  {| vn_type := None; vn_value := None; vn_nullable := true; vn_key := None |}.

(** The occurrences of "person" (as a snippet) and of "language" that the
    specification's scenarios use. *)
Definition person_alice : json :=
  JObject [("otype", JString "person"); ("snippet", JTrue);
           ("name", JString "Alice"); ("age", JInt 30)].

Definition person_charlie : json :=
  JObject [("otype", JString "person"); ("snippet", JTrue);
           ("name", JString "Charlie"); ("age", JInt 35); ("email", JNull)].

Definition language_hungarian : json :=
  JObject [("otype", JString "language"); ("snippet", JFalse);
           ("name", JString "Hungarian")].

Definition language_english : json :=
  JObject [("otype", JString "language"); ("snippet", JFalse);
           ("name", JString "English"); ("dialect", JString "British")].

Definition person_bob : json :=
  JObject [("otype", JString "person"); ("snippet", JFalse);
           ("name", JString "Bob"); ("age", JInt 25);
           ("email", JString "bob@example.com");
           ("languages", JArray [language_hungarian; language_english]);
           ("hobbies", JArray [JString "gaming"; JString "painting"])].

(** The serialised scalar attribute of type [t]. *)
Definition scalar_schema (t : string) : pyobj :=
  PyDict [("type", PyValue (Some (LStr t)))].

Definition language_schema : pyobj :=
  PyDict
    [("type", PyValue (Some (LStr "object")));
     ("otype", PyValue (Some (LStr "language")));
     ("snippet", PyValue (Some (LBool false)));
     ("attributes",
      PyDict
        [("name", scalar_schema "string");
         ("snippet", scalar_schema "bool");
         ("otype", scalar_schema "string");
         ("dialect",
          PyDict [("type", PyValue (Some (LStr "string")));
                  ("nullable", PyValue (Some (LBool true)))])])].

(** [sample_store] followed by a copy of its five objects: object [9] is a
    copy of object [4]. *)
Definition sample_copies : store :=
  {| objs := [VNode otype_person;
              VNode (string_scalar false);
              VNode null_scalar;
              LNode list_of_strings;
              TNode sample_object;
              VNode otype_person;
              VNode (string_scalar false);
              VNode null_scalar;
              LNode {| ln_element_type := Some 6; ln_nullable := false |};
              TNode {| tn_type := "object";
                       tn_attributes := [("xs", 8); ("z", 7); ("n", 6);
                                         ("otype", 5)];
                       tn_nullable := false;
                       tn_otype := Some (LStr "person");
                       tn_snippet := false; tn_ref := None |}];
     stdout := [] |}.


(** The document [{"otype": "t", "snippet": true, "snippet": false}]. *)
Definition doc_conflicting_snippets : json :=
  JObject [("otype", JString "t"); ("snippet", JTrue); ("snippet", JFalse)].

(** The document [{"k": "x", "k": {"otype": "t"}}]. *)
Definition doc_scalar_then_object : json :=
  JObject [("k", JString "x"); ("k", JObject [("otype", JString "t")])].

(** The object of [{"snippet": true, "n": 1}], which has no "otype", and
    the store its members' actions leave. *)
Definition untagged_snippet_object : TypeNode :=
  {| tn_type := "object"; tn_attributes := [("n", 1); ("snippet", 0)];
     tn_nullable := false; tn_otype := None; tn_snippet := true;
     tn_ref := None |}.

Definition untagged_store : store :=
  {| objs := [VNode {| vn_type := Some "bool"; vn_value := Some (LBool true);
                       vn_nullable := false; vn_key := None |};
              VNode {| vn_type := Some "int"; vn_value := Some (LInt 1);
                       vn_nullable := false; vn_key := None |};
              TNode untagged_snippet_object];
     stdout := [] |}.

(** The float [1.0]. *)
Definition float_one : pyfloat :=
  {| float_value_of := FFinite 1; float_repr := "1.0" |}.

(** [sample_copies] with object [4] registered under the otype [1]. *)
Definition one_registered : world :=
  {| mem := sample_copies;
     type_registry :=
       {| types := [((Some (LInt 1), false), 4)];
          type_names := [((Some (LInt 1), false), "1")] |} |}.

(** The state after registering object [9] under the otype [True] there:
    the two objects are merged under the key stored first. *)
Definition one_then_true : world :=
  snd (register_type (Some (LBool true)) false 9 one_registered).

(** * Properties *)

(** ** Equality of token values *)

Lemma float_value_eqb_refl (a : float_value) : float_value_eqb a a = true.
Proof.
  destruct a as [q|b]; cbn.
  - apply Qeq_bool_iff. reflexivity.
  - now destruct b.
Qed.

Lemma float_value_eqb_sym (a b : float_value) :
  float_value_eqb a b = float_value_eqb b a.
Proof.
  destruct a as [p|x], b as [q|y]; cbn; try reflexivity.
  - apply eq_true_iff_eq. rewrite !Qeq_bool_iff. split; intros H; now symmetry.
  - now destruct x, y.
Qed.

Lemma float_value_eqb_trans (a b c : float_value) :
  float_value_eqb a b = true -> float_value_eqb b c = true ->
  float_value_eqb a c = true.
Proof.
  destruct a as [p|x], b as [q|y], c as [r|z]; cbn; try discriminate.
  - rewrite !Qeq_bool_iff. intros H1 H2. now rewrite H1.
  - destruct x, y, z; cbn; congruence.
Qed.

Lemma py_eq_refl (a : literal) : py_eq a a = true.
Proof.
  destruct a; unfold py_eq; cbn [numeric];
    auto using String.eqb_refl, float_value_eqb_refl.
Qed.

Lemma py_eq_sym (a b : literal) : py_eq a b = py_eq b a.
Proof.
  destruct a, b; unfold py_eq; cbn [numeric];
    auto using String.eqb_sym, float_value_eqb_sym.
Qed.

Lemma py_eq_trans (a b c : literal) :
  py_eq a b = true -> py_eq b c = true -> py_eq a c = true.
Proof.
  destruct a, b, c; unfold py_eq; cbn [numeric]; try discriminate;
    try (apply float_value_eqb_trans).
  rewrite !String.eqb_eq. congruence.
Qed.

(** A string is equal only to itself. *)
Lemma py_eq_LStr (s : string) (b : literal) :
  py_eq b (LStr s) = true -> b = LStr s.
Proof.
  destruct b; cbn; try discriminate.
  rewrite String.eqb_eq. congruence.
Qed.

Lemma py_eq_opt_refl (a : option literal) : py_eq_opt a a = true.
Proof. destruct a; cbn [py_eq_opt]; auto using py_eq_refl. Qed.

Lemma py_eq_opt_sym (a b : option literal) : py_eq_opt a b = py_eq_opt b a.
Proof. destruct a, b; cbn [py_eq_opt]; auto using py_eq_sym. Qed.

Lemma py_eq_opt_trans (a b c : option literal) :
  py_eq_opt a b = true -> py_eq_opt b c = true -> py_eq_opt a c = true.
Proof.
  destruct a, b, c; cbn [py_eq_opt]; try discriminate; auto.
  apply py_eq_trans.
Qed.

Lemma key_eqb_refl (k : regkey) : key_eqb k k = true.
Proof.
  unfold key_eqb. rewrite py_eq_opt_refl. now destruct (snd k).
Qed.

Lemma key_eqb_sym (a b : regkey) : key_eqb a b = key_eqb b a.
Proof.
  unfold key_eqb. rewrite py_eq_opt_sym. f_equal.
  now destruct (snd a), (snd b).
Qed.

Lemma key_eqb_trans (a b c : regkey) :
  key_eqb a b = true -> key_eqb b c = true -> key_eqb a c = true.
Proof.
  unfold key_eqb. rewrite !andb_true_iff. intros [H1 H2] [H3 H4]. split.
  - eapply py_eq_opt_trans; eauto.
  - destruct (snd a), (snd b), (snd c); cbn in *; congruence.
Qed.

Lemma string_eqb_trans (a b c : string) :
  String.eqb a b = true -> String.eqb b c = true -> String.eqb a c = true.
Proof. rewrite !String.eqb_eq. congruence. Qed.


Lemma opt_string_eqb_eq (a b : option string) :
  opt_string_eqb a b = true <-> a = b.
Proof.
  destruct a, b; cbn; try (split; congruence).
  rewrite String.eqb_eq. split; congruence.
Qed.

(** ** Dictionaries *)

Section DictFacts.
Context {K V : Type} (eqb : K -> K -> bool).
Hypothesis eqb_refl : forall k, eqb k k = true.
Hypothesis eqb_sym : forall a b, eqb a b = eqb b a.
Hypothesis eqb_trans :
  forall a b c, eqb a b = true -> eqb b c = true -> eqb a c = true.

Lemma dict_set_absent (k : K) (v : V) (d : list (K * V)) :
  dict_get eqb k d = None -> dict_set eqb k v d = d ++ [(k, v)].
Proof.
  induction d as [|[k' v'] d IH]; cbn; [reflexivity|].
  destruct (eqb k' k); [discriminate|]. intros H. now rewrite IH.
Qed.

Lemma dict_set_same (k : K) (v : V) (d : list (K * V)) :
  dict_get eqb k d = Some v -> dict_set eqb k v d = d.
Proof.
  induction d as [|[k' v'] d IH]; cbn; [discriminate|].
  destruct (eqb k' k); [congruence|]. intros H. now rewrite IH.
Qed.

Lemma dict_get_app (k : K) (d e : list (K * V)) :
  dict_get eqb k (d ++ e)
  = match dict_get eqb k d with Some v => Some v | None => dict_get eqb k e end.
Proof.
  induction d as [|[k' v'] d IH]; cbn; [reflexivity|].
  now destruct (eqb k' k).
Qed.




Lemma dict_count_app (k : K) (d e : list (K * V)) :
  dict_count eqb k (d ++ e) = dict_count eqb k d + dict_count eqb k e.
Proof.
  induction d as [|[k' v'] d IH]; cbn; [reflexivity|]. rewrite IH. lia.
Qed.

Lemma dict_ok_app_absent (k : K) (v : V) (d : list (K * V)) :
  dict_ok eqb d -> dict_get eqb k d = None -> dict_ok eqb (d ++ [(k, v)]).
Proof.
  induction d as [|[k' v'] d IH]; cbn; [auto|].
  intros [Hk' Hd]. destruct (eqb k' k) eqn:E; [discriminate|]. intros Hk.
  split; [|now apply IH].
  rewrite dict_get_app, Hk'. cbn. rewrite eqb_sym, E. reflexivity.
Qed.

End DictFacts.

(** ** Stored objects *)

Lemma store_eta (s : store) : {| objs := objs s; stdout := stdout s |} = s.
Proof. now destruct s. Qed.

Lemma load_eq (s : store) (l : loc) (n : node) :
  objs s !! l = Some n -> load l s = (Return n, s).
Proof. intros H. unfold load. now rewrite H. Qed.

Lemma bind_load {A} (s : store) (l : loc) (n : node) (k : node -> M store A) :
  objs s !! l = Some n -> bind (load l) k s = k n s.
Proof. intros H. unfold bind. now rewrite (load_eq _ _ _ H). Qed.

Lemma bind_eq {St A B} (m : M St A) (k : A -> M St B) (s s' : St) (a : A) :
  m s = (Return a, s') -> bind m k s = k a s'.
Proof. intros H. unfold bind. now rewrite H. Qed.

Lemma bind_raise {St A B} (m : M St A) (k : A -> M St B) (s s' : St) (e : exn) :
  m s = (Raise e, s') -> bind m k s = (Raise e, s').
Proof. intros H. unfold bind. now rewrite H. Qed.



Lemma get_class_eq (s : store) (l : loc) (n : node) :
  objs s !! l = Some n -> get_class l s = (Return (class_of n), s).
Proof. intros H. unfold get_class. now rewrite (bind_load _ _ _ _ H). Qed.

Lemma get_nullable_eq (s : store) (l : loc) (n : node) :
  objs s !! l = Some n -> get_nullable l s = (Return (node_nullable n), s).
Proof. intros H. unfold get_nullable. now rewrite (bind_load _ _ _ _ H). Qed.

Lemma set_nullable_eq (s : store) (l : loc) (n : node) (b : bool) :
  objs s !! l = Some n ->
  set_nullable l b s = write l (node_with_nullable b n) s.
Proof. intros H. unfold set_nullable. now rewrite (bind_load _ _ _ _ H). Qed.


Lemma get_type_VNode (s : store) (l : loc) (v : ValueNode) :
  objs s !! l = Some (VNode v) -> get_type l s = (Return (vn_type v), s).
Proof. intros H. unfold get_type. now rewrite (bind_load _ _ _ _ H). Qed.

Lemma get_type_TNode (s : store) (l : loc) (t : TypeNode) :
  objs s !! l = Some (TNode t) -> get_type l s = (Return (Some (tn_type t)), s).
Proof. intros H. unfold get_type. now rewrite (bind_load _ _ _ _ H). Qed.

Lemma get_key_VNode (s : store) (l : loc) (v : ValueNode) :
  objs s !! l = Some (VNode v) -> get_key l s = (Return (vn_key v), s).
Proof. intros H. unfold get_key. now rewrite (bind_load _ _ _ _ H). Qed.

Lemma get_value_VNode (s : store) (l : loc) (v : ValueNode) :
  objs s !! l = Some (VNode v) -> get_value l s = (Return (vn_value v), s).
Proof. intros H. unfold get_value. now rewrite (bind_load _ _ _ _ H). Qed.

Lemma get_TypeNode_eq {A} (field : string) (f : TypeNode -> A) (s : store)
    (l : loc) (t : TypeNode) :
  objs s !! l = Some (TNode t) -> get_TypeNode field f l s = (Return (f t), s).
Proof. intros H. unfold get_TypeNode. now rewrite (bind_load _ _ _ _ H). Qed.

Lemma get_element_type_eq (s : store) (l : loc) (a : ListNode) :
  objs s !! l = Some (LNode a) ->
  get_element_type l s = (Return (ln_element_type a), s).
Proof. intros H. unfold get_element_type. now rewrite (bind_load _ _ _ _ H). Qed.

(** ** Loops *)

Lemma for_each_skip {St A} (xs : list A) (body : A -> M St unit) (s : St) :
  Forall (fun x => body x s = (Return tt, s)) xs ->
  for_each xs body s = (Return tt, s).
Proof.
  induction 1 as [|x xs Hx _ IH]; cbn; [reflexivity|].
  now rewrite (bind_eq _ _ _ _ _ Hx).
Qed.

Lemma for_each_app {St A} (xs ys : list A) (body : A -> M St unit) (s : St) :
  for_each (xs ++ ys) body s
  = bind (for_each xs body) (fun _ => for_each ys body) s.
Proof.
  revert s. induction xs as [|x xs IH]; intros s; cbn; [reflexivity|].
  unfold bind in *. destruct (body x s) as [[[]|e] s']; [|reflexivity].
  apply IH.
Qed.



(** ** Scalars *)

(** The check of [ValueNode.merge] as it is written.  Where the left scalar
    does carry the key "otype" or "snippet" (the constructor's [key]
    argument), merging it with a scalar whose value differs raises the
    value-mismatch [TypeError], which names the key and both values, and
    changes nothing.  The left scalar is one of known type: a scalar of
    unknown type is the placeholder of a null and is absorbed by the first
    rule of [merge]. *)
Theorem identity_attribute_conflict_raises
    (depth : nat) (s : store) (self other : loc) (a b : ValueNode)
    (x y : literal) :
  objs s !! self = Some (VNode a) ->
  objs s !! other = Some (VNode b) ->
  is_otype_or_snippet (vn_key a) = true ->
  vn_type a <> None ->
  vn_value a = Some x ->
  vn_value b = Some y ->
  py_eq x y = false ->
  merge (S depth) self other s
  = (Raise (TypeError (ValueMismatch (vn_key a) x y)), s).
Proof.
  intros Hs Ho Hk Ht Hx Hy Hne.
  cbn [merge]. rewrite (bind_load _ _ _ _ Hs).
  unfold ValueNode_merge.
  rewrite (bind_eq _ _ _ _ _ (get_type_VNode _ _ _ Hs)).
  destruct (vn_type a) as [t|]; [|congruence].
  rewrite (bind_eq _ _ _ _ _ (get_key_VNode _ _ _ Hs)), Hk.
  apply bind_raise.
  rewrite (bind_eq _ _ _ _ _ (get_value_VNode _ _ _ Hs)), Hx.
  rewrite (bind_eq _ _ _ _ _ (get_value_VNode _ _ _ Ho)), Hy, Hne.
  reflexivity.
Qed.

Lemma identity_attribute_conflict_witness :
  merge 1 0 1 {| objs := [VNode otype_person; VNode otype_animal];
                 stdout := [] |}
  = (Raise (TypeError (ValueMismatch (Some "otype") (LStr "person")
                         (LStr "animal"))),
     {| objs := [VNode otype_person; VNode otype_animal]; stdout := [] |}).
Proof.
  apply (identity_attribute_conflict_raises 0
           {| objs := [VNode otype_person; VNode otype_animal]; stdout := [] |}
           0 1 otype_person otype_animal (LStr "person") (LStr "animal"));
    try reflexivity.
  discriminate.
Defined.

(** Merging two scalars of one known type, when no value mismatch is
    raised, returns the left scalar and changes nothing: the right scalar's
    [nullable] is not read. *)
Lemma ValueNode_merge_same_type (depth : nat) (s : store) (self other : loc)
    (a b : ValueNode) (t : string) :
  objs s !! self = Some (VNode a) ->
  objs s !! other = Some (VNode b) ->
  vn_type a = Some t ->
  vn_type b = Some t ->
  is_otype_or_snippet (vn_key a) = false ->
  merge (S depth) self other s = (Return self, s).
Proof.
  intros Hs Ho Ha Hb Hk.
  cbn [merge]. rewrite (bind_load _ _ _ _ Hs). unfold ValueNode_merge.
  rewrite (bind_eq _ _ _ _ _ (get_type_VNode _ _ _ Hs)), Ha.
  rewrite (bind_eq _ _ _ _ _ (get_key_VNode _ _ _ Hs)), Hk.
  unfold bind at 1. cbn [ret].
  rewrite (bind_eq _ _ _ _ _ (get_type_VNode _ _ _ Hs)), Ha.
  unfold bind at 1.
  rewrite (bind_eq _ _ _ _ _ (get_type_VNode _ _ _ Ho)), Hb.
  cbn [opt_string_eqb]. rewrite String.eqb_refl. reflexivity.
Qed.

(** A scalar of unknown type is absorbed: the result is the other node, made
    nullable. *)
Lemma ValueNode_merge_unknown (depth : nat) (s : store) (self other : loc)
    (a : ValueNode) (n : node) :
  objs s !! self = Some (VNode a) ->
  objs s !! other = Some n ->
  vn_type a = None ->
  merge (S depth) self other s
  = (Return other,
     {| objs := <[other := node_with_nullable true n]> (objs s);
        stdout := stdout s |}).
Proof.
  intros Hs Ho Ha.
  cbn [merge]. rewrite (bind_load _ _ _ _ Hs). unfold ValueNode_merge.
  rewrite (bind_eq _ _ _ _ _ (get_type_VNode _ _ _ Hs)), Ha.
  unfold bind. rewrite (set_nullable_eq _ _ _ _ Ho). reflexivity.
Qed.

(** C2. Merging a nullable string scalar into a string scalar that is not
    nullable succeeds and returns the left scalar as it was: the result's
    flag is [false], not the disjunction [true] of the two flags.  In a run:
    after an object whose ["x"] is a string, a second sighting whose ["x"]
    was also seen as null leaves ["x"] without the nullable mark. *)
Theorem scalar_merge_keeps_left_flag :
  let s := {| objs := [VNode (string_scalar false); VNode (string_scalar true)];
              stdout := [] |} in
  merge recursion_limit 0 1 s = (Return 0, s) /\
  (objs s !! 0 = Some (VNode (string_scalar false))) /\
  vn_nullable (string_scalar false) || vn_nullable (string_scalar true) = true /\
  fst (run [doc_x_present; doc_x_null] initial_world)
  = Return
      [("a",
        PyDict
          [("type", PyValue (Some (LStr "object")));
           ("otype", PyValue (Some (LStr "a")));
           ("snippet", PyValue (Some (LBool false)));
           ("attributes",
            PyDict
              [("x", PyDict [("type", PyValue (Some (LStr "string")))]);
               ("otype", PyDict [("type", PyValue (Some (LStr "string")))])])])].
Proof.
  cbv zeta. split; [|split; [|split]].
  - change recursion_limit with (S 999).
    now apply (ValueNode_merge_same_type 999 _ 0 1 (string_scalar false)
                 (string_scalar true) "string").
  - reflexivity.
  - reflexivity.
  - vm_compute. reflexivity.
Qed.

(** C3. The conflict check of [ValueNode.merge] reads the receiver's [key],
    and a scalar built by a grammar action has none: [new_ValueNode], the
    only way the actions build a scalar, leaves [key] at [None].  Merging
    two such scalars of one known type therefore returns the receiver and
    changes nothing, whatever their values: two differing literals raise no
    value mismatch.  In a run, the object
    [{"otype": "t", "snippet": true, "snippet": false}] is accepted, its two
    "snippet" values are merged without an error and it is registered as
    the full variant of "t"; likewise [{"otype": "a", "otype": "b"}] is
    accepted and registered as "b". *)
Theorem identity_conflict_is_merged_silently :
  (forall (t : option string) (v : option literal) (nullable : bool)
          (s : store),
     exists (l : loc) (a : ValueNode),
       fst (new_ValueNode t v nullable s) = Return l /\
       objs (snd (new_ValueNode t v nullable s)) !! l = Some (VNode a) /\
       vn_key a = None /\ vn_type a = t /\ vn_value a = v) /\
  (forall (depth : nat) (s : store) (self other : loc) (a b : ValueNode)
          (t : string) (x y : literal),
     objs s !! self = Some (VNode a) ->
     objs s !! other = Some (VNode b) ->
     vn_key a = None ->
     vn_type a = Some t ->
     vn_type b = Some t ->
     vn_value a = Some x ->
     vn_value b = Some y ->
     py_eq x y = false ->
     merge (S depth) self other s = (Return self, s)) /\
  fst (run [doc_conflicting_snippets] initial_world)
  = Return
      [("t",
        PyDict
          [("type", PyValue (Some (LStr "object")));
           ("otype", PyValue (Some (LStr "t")));
           ("snippet", PyValue (Some (LBool false)));
           ("attributes",
            PyDict
              [("snippet", PyDict [("type", PyValue (Some (LStr "bool")))]);
               ("otype", PyDict [("type", PyValue (Some (LStr "string")))])])])]
  /\
  fst (run [doc_two_otypes] initial_world)
  = Return
      [("b",
        PyDict
          [("type", PyValue (Some (LStr "object")));
           ("otype", PyValue (Some (LStr "b")));
           ("snippet", PyValue (Some (LBool false)));
           ("attributes",
            PyDict
              [("otype", PyDict [("type", PyValue (Some (LStr "string")))])])])].
Proof.
  split; [|split; [|split]].
  - intros t v nullable s.
    exists (length (objs s)),
           {| vn_type := t; vn_value := v; vn_nullable := nullable;
              vn_key := None |}.
    unfold new_ValueNode, alloc. cbn [fst snd objs].
    split; [reflexivity|]. split; [|now repeat split].
    now apply list_lookup_middle.
  - intros depth s self other a b t x y Hs Ho Hk Ha Hb _ _ _.
    apply (ValueNode_merge_same_type depth s self other a b t Hs Ho Ha Hb).
    now rewrite Hk.
  - vm_compute. reflexivity.
  - vm_compute. reflexivity.
Qed.

(** ** Lists *)

(** The identity test against the class is true of every field value. *)
Lemma is_not_ListNode_class (e : option loc) :
  negb (py_is (ref_of e) (RClass ListNode_class)) = true.
Proof. now destruct e. Qed.

(** [ListNode.merge] updates the receiver's [nullable] to the disjunction
    of the two flags and returns the receiver; it leaves [element_type] as
    it was, whatever the other node holds. *)
Lemma ListNode_merge_eq (depth : nat) (s : store) (self other : loc)
    (a : ListNode) (n : node) :
  objs s !! self = Some (LNode a) ->
  objs s !! other = Some n ->
  merge (S depth) self other s
  = (Return self,
     {| objs := <[self := LNode {| ln_element_type := ln_element_type a;
                                   ln_nullable := ln_nullable a || node_nullable n |}]>
                  (objs s);
        stdout := stdout s |}).
Proof.
  intros Hs Ho.
  cbn [merge]. rewrite (bind_load _ _ _ _ Hs). unfold ListNode_merge, py_or.
  assert (Hor : (x <- get_nullable self ;; if x then ret true else get_nullable other) s
                = (Return (ln_nullable a || node_nullable n), s)).
  { rewrite (bind_eq _ _ _ _ _ (get_nullable_eq _ _ _ Hs)). cbn [node_nullable].
    destruct (ln_nullable a); [reflexivity|].
    now rewrite (get_nullable_eq _ _ _ Ho). }
  rewrite (bind_eq _ _ _ _ _ Hor).
  unfold bind at 1. rewrite (set_nullable_eq _ _ _ _ Hs).
  cbn [write node_with_nullable].
  assert (Hlt : self < length (objs s)) by (eapply lookup_lt_Some; eauto).
  erewrite bind_eq.
  2:{ apply get_element_type_eq. cbn [objs].
      now apply list_lookup_insert_eq. }
  cbn [ln_element_type]. rewrite is_not_ListNode_class. reflexivity.
Qed.

(** C1. Merging a list of strings into an empty list (one whose element
    type is absent) returns the receiver with its element type still
    absent: the other list's element type is not taken over. *)
Theorem list_merge_keeps_absent_element_type :
  let s := {| objs := [LNode empty_list; VNode (string_scalar false);
                       LNode list_of_strings];
              stdout := [] |} in
  merge recursion_limit 0 2 s = (Return 0, s) /\
  objs s !! 0 = Some (LNode empty_list) /\
  ln_element_type empty_list = None /\
  ln_element_type list_of_strings = Some 1.
Proof. cbv zeta. repeat split. Qed.

(** The check [p_array] runs on each element after the first. *)
Lemma p_array_check (s : store) (first elem : loc) (fn n : node)
    (k : M store unit) :
  objs s !! first = Some fn ->
  objs s !! elem = Some n ->
  (elem_class <- get_class elem ;;
   first_class <- get_class first ;;
   if negb (class_eqb elem_class first_class)
   then raise (TypeError ArrayElementTypes)
   else if hasattr_type first_class && hasattr_type elem_class then
     first_type <- get_type first ;;
     elem_type <- get_type elem ;;
     if negb (opt_string_eqb first_type elem_type)
     then raise (TypeError ArrayObjectTypes)
     else ret tt
   else ret tt) s
  = if same_kind fn n then (Return tt, s)
    else (Raise (TypeError (if class_eqb (class_of n) (class_of fn)
                            then ArrayObjectTypes else ArrayElementTypes)), s).
Proof.
  intros Hf He.
  rewrite (bind_eq _ _ _ _ _ (get_class_eq _ _ _ He)).
  rewrite (bind_eq _ _ _ _ _ (get_class_eq _ _ _ Hf)).
  destruct fn as [x|x|x], n as [y|y|y]; cbn [class_of class_eqb negb same_kind
    hasattr_type andb]; try reflexivity.
  - rewrite (bind_eq _ _ _ _ _ (get_type_VNode _ _ _ Hf)).
    rewrite (bind_eq _ _ _ _ _ (get_type_VNode _ _ _ He)).
    now destruct (opt_string_eqb (vn_type x) (vn_type y)).
  - rewrite (bind_eq _ _ _ _ _ (get_type_TNode _ _ _ Hf)).
    rewrite (bind_eq _ _ _ _ _ (get_type_TNode _ _ _ He)).
    cbn [opt_string_eqb]. now destruct (String.eqb (tn_type x) (tn_type y)).
Qed.

Lemma p_array_loop (s : store) (first : loc) (rest : list loc) (fn : node)
    (nodes : list node) :
  objs s !! first = Some fn ->
  Forall2 (fun l n => objs s !! l = Some n) rest nodes ->
  for_each rest (fun elem =>
    elem_class <- get_class elem ;;
    first_class <- get_class first ;;
    if negb (class_eqb elem_class first_class)
    then raise (TypeError ArrayElementTypes)
    else if hasattr_type first_class && hasattr_type elem_class then
      first_type <- get_type first ;;
      elem_type <- get_type elem ;;
      if negb (opt_string_eqb first_type elem_type)
      then raise (TypeError ArrayObjectTypes)
      else ret tt
    else ret tt) s
  = match array_error fn nodes with
    | None => (Return tt, s)
    | Some e => (Raise (TypeError e), s)
    end.
Proof.
  intros Hf Hrest.
  induction Hrest as [|l n rest nodes Hl _ IH]; cbn [array_error for_each];
    [reflexivity|].
  unfold bind at 1. rewrite (p_array_check s first l fn n (ret tt) Hf Hl).
  destruct (same_kind fn n); [exact IH | reflexivity].
Qed.

Lemma array_error_forallb (fn : node) (nodes : list node) :
  forallb (same_kind fn) nodes = true <-> array_error fn nodes = None.
Proof.
  induction nodes as [|n nodes IH]; cbn; [tauto|].
  destruct (same_kind fn n); cbn; [exact IH|]. split; discriminate.
Qed.

Lemma array_error_cases (fn : node) (nodes : list node) (e : type_error) :
  array_error fn nodes = Some e -> e = ArrayElementTypes \/ e = ArrayObjectTypes.
Proof.
  induction nodes as [|n nodes IH]; cbn; [discriminate|].
  destruct (same_kind fn n); [exact IH|].
  destruct (class_eqb (class_of n) (class_of fn)); intros [= <-]; auto.
Qed.

(** C8. [p_array] on no elements allocates a list node with no element
    type that is not nullable.  On a first element and further elements,
    all allocated: when every further element is of the same kind as the
    first, it allocates a list node whose element type is the first element
    and which is not nullable, and changes no other object (no element is
    merged into another); otherwise it raises one of the two array
    [TypeError]s and changes nothing. *)
Theorem p_array_spec (s : store) :
  p_array [] s
  = alloc (LNode {| ln_element_type := None; ln_nullable := false |}) s /\
  forall (first : loc) (rest : list loc) (fn : node) (nodes : list node),
    objs s !! first = Some fn ->
    Forall2 (fun l n => objs s !! l = Some n) rest nodes ->
    (forallb (same_kind fn) nodes = true ->
     p_array (first :: rest) s
     = alloc (LNode {| ln_element_type := Some first; ln_nullable := false |}) s)
    /\
    (forallb (same_kind fn) nodes = false ->
     exists e, (e = ArrayElementTypes \/ e = ArrayObjectTypes) /\
               p_array (first :: rest) s = (Raise (TypeError e), s)).
Proof.
  split; [reflexivity|].
  intros first rest fn nodes Hf Hrest. cbn [p_array].
  pose proof (p_array_loop s first rest fn nodes Hf Hrest) as Hloop.
  pose proof (array_error_forallb fn nodes) as Hall.
  destruct (array_error fn nodes) as [e|] eqn:Ee.
  - split.
    + intros H. apply Hall in H. discriminate.
    + intros _. exists e. split; [eapply array_error_cases; eauto|].
      now apply bind_raise.
  - split.
    + intros _. now rewrite (bind_eq _ _ _ _ _ Hloop).
    + intros H. rewrite (proj2 Hall eq_refl) in H. discriminate.
Qed.

Lemma p_array_spec_witness :
  let s := {| objs := [VNode (string_scalar false); VNode (string_scalar true)];
              stdout := [] |} in
  p_array [0; 1] s
  = alloc (LNode {| ln_element_type := Some 0; ln_nullable := false |}) s.
Proof.
  cbv zeta.
  refine (proj1 (proj2 (p_array_spec _) 0 [1] (VNode (string_scalar false))
                   [VNode (string_scalar true)] _ _) _).
  - reflexivity.
  - repeat constructor.
  - reflexivity.
Defined.

(** ** Idempotence *)





(** ** The registry *)

Section FindFacts.
Context {K V : Type} (eqb : K -> K -> bool).

Lemma dict_get_find (k : K) (d : list (K * V)) :
  dict_get eqb k d = option_map snd (dict_find eqb k d).
Proof.
  induction d as [|[k' v'] d IH]; cbn; [reflexivity|].
  now destruct (eqb k' k).
Qed.

Lemma dict_find_key (k k' : K) (v : V) (d : list (K * V)) :
  dict_find eqb k d = Some (k', v) -> eqb k' k = true.
Proof.
  induction d as [|[k0 v0] d IH]; cbn; [discriminate|].
  destruct (eqb k0 k) eqn:E; [|exact IH]. now intros [= <- <-].
Qed.

(** Looking a key up in a dictionary that maps each stored key to a value
    computed from the item. *)
Lemma dict_get_map_find {W} (h : K * V -> W) (k : K) (d : list (K * V)) :
  dict_get eqb k (map (fun kv => (fst kv, h kv)) d)
  = option_map h (dict_find eqb k d).
Proof.
  induction d as [|[k' v'] d IH]; cbn; [reflexivity|].
  now destruct (eqb k' k).
Qed.
End FindFacts.

Lemma registry_inv_init : registry_inv TypeRegistry_init.
Proof. split; reflexivity. Qed.

Lemma lift_eq {A} (m : M store A) (w : world) :
  lift m w = (fst (m (mem w)),
              {| mem := snd (m (mem w)); type_registry := type_registry w |}).
Proof. unfold lift. now destruct (m (mem w)). Qed.

(** The name [type_names] holds for a key, under the invariant: that of
    the stored key. *)
Lemma type_names_get (r : TypeRegistry) (k : regkey) :
  registry_inv r ->
  dict_get key_eqb k (type_names r)
  = option_map (fun kl => type_name (fst (fst kl)) (snd (fst kl)))
      (dict_find key_eqb k (types r)).
Proof.
  intros [_ Hnames]. rewrite Hnames.
  apply (dict_get_map_find key_eqb
           (fun kl : regkey * loc => type_name (fst (fst kl)) (snd (fst kl)))).
Qed.

(** A key whose identifier is a string is stored as itself. *)
Lemma key_eqb_LStr (k : regkey) (id : string) (snippet : bool) :
  key_eqb k (Some (LStr id), snippet) = true -> k = (Some (LStr id), snippet).
Proof.
  destruct k as [[o|] b]; unfold key_eqb; cbn [fst snd py_eq_opt];
    rewrite ?andb_true_iff; [|intros [? _]; discriminate].
  intros [H1 H2]. apply py_eq_LStr in H1. apply Bool.eqb_prop in H2.
  congruence.
Qed.

Lemma register_type_existing (w : world) (otype : option literal)
    (snippet : bool) (type_node existing : loc) :
  dict_get key_eqb (otype, snippet) (types (type_registry w)) = Some existing ->
  register_type otype snippet type_node w
  = match merge recursion_limit existing type_node (mem w) with
    | (Return _, s) => (Return tt, {| mem := s; type_registry := type_registry w |})
    | (Raise e, s) => (Raise e, {| mem := s; type_registry := type_registry w |})
    end.
Proof.
  intros H. unfold register_type, get_registry. unfold bind at 1. rewrite H.
  unfold bind, lift.
  now destruct (merge recursion_limit existing type_node (mem w)) as [[l|e] s].
Qed.

Lemma register_type_new (w : world) (otype : option literal)
    (snippet : bool) (type_node : loc) :
  registry_inv (type_registry w) ->
  dict_get key_eqb (otype, snippet) (types (type_registry w)) = None ->
  register_type otype snippet type_node w
  = (Return tt,
     {| mem := mem w;
        type_registry :=
          {| types := types (type_registry w) ++ [((otype, snippet), type_node)];
             type_names := type_names (type_registry w)
                           ++ [((otype, snippet), type_name otype snippet)] |} |}).
Proof.
  intros Hinv H. unfold register_type, get_registry. unfold bind at 1. rewrite H.
  unfold bind, put_registry. cbn [mem type_registry types type_names].
  rewrite (dict_set_absent key_eqb _ _ _ H).
  rewrite (dict_set_absent key_eqb); [reflexivity|].
  rewrite (type_names_get _ _ Hinv).
  rewrite (dict_get_find key_eqb) in H.
  now destruct (dict_find key_eqb (otype, snippet) (types (type_registry w))).
Qed.

Lemma registry_inv_insert (r : TypeRegistry) (key : regkey) (l : loc) :
  registry_inv r ->
  dict_get key_eqb key (types r) = None ->
  registry_inv {| types := types r ++ [(key, l)];
                  type_names := type_names r
                                ++ [(key, type_name (fst key) (snd key))] |}.
Proof.
  intros [Hok Hnames] H. split; cbn [types type_names].
  - apply dict_ok_app_absent; auto using key_eqb_sym.
  - rewrite map_app, Hnames. reflexivity.
Qed.

(** One call: the registry after it. *)
Lemma register_type_registry (w : world) (otype : option literal)
    (snippet : bool) (type_node : loc) :
  registry_inv (type_registry w) ->
  type_registry (snd (register_type otype snippet type_node w))
  = match dict_get key_eqb (otype, snippet) (types (type_registry w)) with
    | Some _ => type_registry w
    | None =>
        {| types := types (type_registry w) ++ [((otype, snippet), type_node)];
           type_names := type_names (type_registry w)
                         ++ [((otype, snippet), type_name otype snippet)] |}
    end.
Proof.
  intros Hinv.
  destruct (dict_get key_eqb (otype, snippet) (types (type_registry w)))
    as [existing|] eqn:E.
  - rewrite (register_type_existing _ _ _ _ _ E).
    now destruct (merge recursion_limit existing type_node (mem w)) as [[l|e] s].
  - now rewrite (register_type_new _ _ _ _ Hinv E).
Qed.

Lemma register_type_inv (w : world) (otype : option literal)
    (snippet : bool) (type_node : loc) :
  registry_inv (type_registry w) ->
  registry_inv (type_registry (snd (register_type otype snippet type_node w))).
Proof.
  intros Hinv. rewrite (register_type_registry _ _ _ _ Hinv).
  destruct (dict_get key_eqb (otype, snippet) (types (type_registry w))) eqn:E;
    [exact Hinv|].
  now apply (registry_inv_insert _ (otype, snippet)).
Qed.








(** An entry has a name. *)
Lemma registry_entry_named (r : TypeRegistry) (k : regkey) :
  registry_inv r ->
  dict_mem key_eqb k (types r) = true ->
  dict_get key_eqb k (type_names r) <> None.
Proof.
  intros Hinv Hk. unfold dict_mem in Hk.
  rewrite (dict_get_find key_eqb) in Hk. rewrite (type_names_get _ _ Hinv).
  now destruct (dict_find key_eqb k (types r)).
Qed.

(** ** The serialised registry *)

Section SetFacts.
Context {K V : Type} (eqb : K -> K -> bool).
Hypothesis eqb_sym : forall a b, eqb a b = eqb b a.
Hypothesis eqb_trans :
  forall a b c, eqb a b = true -> eqb b c = true -> eqb a c = true.

Lemma dict_get_set (k k0 : K) (v : V) (d : list (K * V)) :
  dict_get eqb k0 (dict_set eqb k v d)
  = if eqb k k0 then Some v else dict_get eqb k0 d.
Proof.
  induction d as [|[k' v'] d IH]; cbn; [reflexivity|].
  destruct (eqb k' k) eqn:E; cbn.
  - destruct (eqb k' k0) eqn:E0, (eqb k k0) eqn:E1; try reflexivity.
    + rewrite eqb_sym in E. now rewrite (eqb_trans _ _ _ E E0) in E1.
    + now rewrite (eqb_trans _ _ _ E E1) in E0.
  - rewrite IH. destruct (eqb k' k0) eqn:E0, (eqb k k0) eqn:E1; try reflexivity.
    rewrite eqb_sym in E1. now rewrite (eqb_trans _ _ _ E0 E1) in E.
Qed.

End SetFacts.

Lemma sget_sset {V} (k k0 : string) (v : V) (d : list (string * V)) :
  sget k0 (sset k v d) = if String.eqb k k0 then Some v else sget k0 d.
Proof. apply (dict_get_set String.eqb String.eqb_sym string_eqb_trans). Qed.



Lemma dict_get_In {K V} (eqb : K -> K -> bool) (k : K) (v : V)
    (d : list (K * V)) :
  dict_get eqb k d = Some v -> exists k', In (k', v) d /\ eqb k' k = true.
Proof.
  induction d as [|[k0 v0] d IH]; cbn; [discriminate|].
  destruct (eqb k0 k) eqn:E.
  - intros [= ->]. eauto.
  - intros H. destruct (IH H) as (k' & Hin & Hk'). eauto.
Qed.




(** The name of a string identifier's full variant is the identifier, and
    differs from the name of its snippet variant. *)
Lemma type_name_full (id : string) : type_name (Some (LStr id)) false = id.
Proof.
  unfold type_name. cbn [py_str]. induction id as [|c id IH]; cbn; [reflexivity|].
  now f_equal.
Qed.

Lemma append_nonempty_neq (id suffix : string) :
  suffix <> "" -> id <> String.append id suffix.
Proof.
  intros Hs. induction id as [|c id IH]; cbn.
  - congruence.
  - intros [= H]. now apply IH.
Qed.

(** C6. On a registry whose dictionaries go together, [get_ref otype] is the
    name of the entry at [(otype, False)] when there is one, else the name
    of the entry at [(otype, True)] when there is one, else [None]; an entry
    has a name.  For an identifier that is a string: when the full variant
    is registered the result is the identifier itself, which is not the
    "_snippet" name, whether or not the snippet variant is registered too;
    when only the snippet variant is registered it is the "_snippet"
    name. *)
Theorem get_ref_prefers_full (r : TypeRegistry) (otype : option literal) :
  registry_inv r ->
  (dict_mem key_eqb (otype, false) (types r) = true ->
   get_ref r otype = dict_get key_eqb (otype, false) (type_names r) /\
   get_ref r otype <> None) /\
  (dict_mem key_eqb (otype, false) (types r) = false ->
   dict_mem key_eqb (otype, true) (types r) = true ->
   get_ref r otype = dict_get key_eqb (otype, true) (type_names r) /\
   get_ref r otype <> None) /\
  (dict_mem key_eqb (otype, false) (types r) = false ->
   dict_mem key_eqb (otype, true) (types r) = false ->
   get_ref r otype = None) /\
  (forall id, otype = Some (LStr id) ->
     dict_mem key_eqb (otype, false) (types r) = true ->
     get_ref r otype = Some id /\
     get_ref r otype <> Some (String.append id "_snippet")) /\
  (forall id, otype = Some (LStr id) ->
     dict_mem key_eqb (otype, false) (types r) = false ->
     dict_mem key_eqb (otype, true) (types r) = true ->
     get_ref r otype = Some (String.append id "_snippet")).
Proof.
  intros Hinv.
  assert (Hname : forall b,
            dict_mem key_eqb (otype, b) (types r) = true ->
            exists k, dict_find key_eqb (otype, b) (types r) = Some k /\
                      dict_get key_eqb (otype, b) (type_names r)
                      = Some (type_name (fst (fst k)) (snd (fst k)))).
  { intros b Hb. unfold dict_mem in Hb. rewrite (dict_get_find key_eqb) in Hb.
    rewrite (type_names_get _ _ Hinv).
    destruct (dict_find key_eqb (otype, b) (types r)) as [k|]; [|discriminate].
    now exists k. }
  assert (Hstr : forall id b,
            otype = Some (LStr id) ->
            dict_mem key_eqb (otype, b) (types r) = true ->
            dict_get key_eqb (otype, b) (type_names r)
            = Some (type_name (Some (LStr id)) b)).
  { intros id b -> Hb. destruct (Hname b Hb) as [[k l] [Hk ->]].
    apply dict_find_key in Hk. apply key_eqb_LStr in Hk. now subst k. }
  unfold get_ref, get_preferred_snippet.
  split; [|split; [|split; [|split]]].
  - intros Hf. rewrite Hf. split; [reflexivity|].
    destruct (Hname false Hf) as [k [_ ->]]. discriminate.
  - intros Hf Ht. rewrite Hf, Ht. split; [reflexivity|].
    destruct (Hname true Ht) as [k [_ ->]]. discriminate.
  - intros Hf Ht. now rewrite Hf, Ht.
  - intros id Hid Hf. rewrite Hf, (Hstr id false Hid Hf), type_name_full.
    split; [reflexivity|].
    intros [= Heq]. now apply (append_nonempty_neq id "_snippet").
  - intros id Hid Hf Ht. rewrite Hf, Ht, (Hstr id true Hid Ht). reflexivity.
Qed.

Lemma get_ref_prefers_full_witness :
  get_ref sample_registry (Some (LStr "language")) = Some "language" /\
  get_ref sample_registry (Some (LStr "language")) <> Some "language_snippet".
Proof.
  refine (proj1 (proj2 (proj2 (proj2
            (get_ref_prefers_full sample_registry (Some (LStr "language")) _))))
            "language" eq_refl eq_refl).
  split; [cbn; repeat split | reflexivity].
Defined.

(** ** Runs *)

(** C10. There is a corpus after which the registry holds two entries, under
    the distinct keys [("x_snippet", False)] and [("x", True)], both named
    "x_snippet"; the serialised schema then has a single entry of that name,
    and it describes the entry iterated last (the one tagged "x" with
    [snippet] set). *)
Theorem output_names_can_collide :
  exists (data_list : list json) (w : world) (schema : list (string * pyobj))
         (first second : loc),
    run data_list initial_world = (Return schema, w) /\
    types (type_registry w)
    = [((Some (LStr "x_snippet"), false), first);
       ((Some (LStr "x"), true), second)] /\
    key_eqb (Some (LStr "x_snippet"), false) (Some (LStr "x"), true) = false /\
    type_names (type_registry w)
    = [((Some (LStr "x_snippet"), false), "x_snippet");
       ((Some (LStr "x"), true), "x_snippet")] /\
    length schema = 1 /\
    length schema < length (types (type_registry w)) /\
    schema
    = [("x_snippet",
        PyDict
          [("type", PyValue (Some (LStr "object")));
           ("otype", PyValue (Some (LStr "x")));
           ("snippet", PyValue (Some (LBool true)));
           ("attributes",
            PyDict
              [("snippet", PyDict [("type", PyValue (Some (LStr "bool")))]);
               ("otype", PyDict [("type", PyValue (Some (LStr "string")))])])])].
Proof.
  exists [colliding_tags].
  destruct (run [colliding_tags] initial_world) as [r w] eqn:E.
  vm_compute in E. injection E as <- <-.
  do 4 eexists. repeat split. cbn. lia.
Qed.

Lemma parse_all_app (A B : list json) (w : world) :
  parse_all (A ++ B) w = bind (parse_all A) (fun _ => parse_all B) w.
Proof. apply for_each_app. Qed.

(** C5, as the program has it. The registry is the one module-level object:
    a run leaves its entries behind, and a later run in the same process
    starts from them.  When the documents of [A] parse without error, a run
    on [B] afterwards gives what one run on [A] followed by [B] gives. *)
Theorem run_after_run_accumulates (A B : list json) (w : world) :
  fst (parse_all A w) = Return tt ->
  run B (snd (run A w)) = run (A ++ B) w.
Proof.
  intros HA. unfold run, bind. rewrite parse_all_app. unfold bind.
  destruct (parse_all A w) as [[[]|e] w1]; [|discriminate].
  reflexivity.
Qed.

Lemma run_after_run_accumulates_witness :
  run corpus_b (snd (run corpus_a initial_world))
  = run (corpus_a ++ corpus_b) initial_world.
Proof.
  apply (run_after_run_accumulates corpus_a corpus_b initial_world).
  vm_compute. reflexivity.
Defined.

(** The schema of a run on [corpus_b] alone is not the schema of a run on
    [corpus_b] that follows a run on [corpus_a]: the later one also holds
    the entry "a". *)
Lemma run_depends_on_earlier_run :
  fst (run corpus_b initial_world)
  <> fst (run corpus_b (snd (run corpus_a initial_world))).
Proof. vm_compute. discriminate. Qed.

(** ** References *)

(** After the actions for the array [language_list], [p_member] attaches the
    list under the key "languages": the element, object [2], gets the
    reference "language" and keeps its two attributes. *)
Lemma list_element_reference_keeps_attributes :
  exists (w1 w2 : world) (before after : TypeNode),
    value language_list initial_world = (Return 3, w1) /\
    objs (mem w1) !! 3
    = Some (LNode {| ln_element_type := Some 2; ln_nullable := false |}) /\
    objs (mem w1) !! 2 = Some (TNode before) /\
    tn_ref before = None /\
    p_member "languages" 3 w1 = (Return [("languages", 3)], w2) /\
    objs (mem w2) !! 2 = Some (TNode after) /\
    tn_ref after = Some "language" /\
    tn_attributes after = [("name", 1); ("otype", 0)].
Proof.
  destruct (value language_list initial_world) as [r w1] eqn:E1.
  vm_compute in E1. injection E1 as <- <-.
  do 4 eexists. repeat split.
Qed.

(** What a computation that returns went through. *)
Lemma bind_inv {St A B} (m : M St A) (k : A -> M St B) (s s' : St) (b : B) :
  bind m k s = (Return b, s') ->
  exists a s1, m s = (Return a, s1) /\ k a s1 = (Return b, s').
Proof.
  unfold bind. destruct (m s) as [[a|e] s1]; [eauto | discriminate].
Qed.

Lemma lift_inv {A} (m : M store A) (w w' : world) (a : A) :
  lift m w = (Return a, w') ->
  exists s, m (mem w) = (Return a, s) /\
            w' = {| mem := s; type_registry := type_registry w |}.
Proof.
  unfold lift. destruct (m (mem w)) as [r s]. intros [= -> <-]. eauto.
Qed.

Lemma load_inv (l : loc) (s s' : store) (n : node) :
  load l s = (Return n, s') -> objs s !! l = Some n /\ s' = s.
Proof.
  unfold load. destruct (objs s !! l); [|discriminate]. now intros [= -> <-].
Qed.

Lemma get_TypeNode_inv {A} (field : string) (f : TypeNode -> A) (l : loc)
    (s s' : store) (a : A) :
  get_TypeNode field f l s = (Return a, s') ->
  exists t, objs s !! l = Some (TNode t) /\ a = f t /\ s' = s.
Proof.
  unfold get_TypeNode. intros H. apply bind_inv in H as (n & s1 & Hn & H).
  apply load_inv in Hn as [Hn ->].
  destruct n as [v|t|a0]; try discriminate.
  injection H as <- <-. eauto.
Qed.

Lemma get_element_type_inv (l : loc) (s s' : store) (e : option loc) :
  get_element_type l s = (Return e, s') ->
  exists a, objs s !! l = Some (LNode a) /\ e = ln_element_type a /\ s' = s.
Proof.
  unfold get_element_type. intros H. apply bind_inv in H as (n & s1 & Hn & H).
  apply load_inv in Hn as [Hn ->].
  destruct n as [v|t|a0]; try discriminate.
  injection H as <- <-. eauto.
Qed.

Lemma set_ref_inv (l : loc) (r : option string) (s s' : store) :
  set_ref l r s = (Return tt, s') ->
  exists t, objs s !! l = Some (TNode t) /\
            s' = {| objs := <[l := TNode (with_ref r t)]> (objs s);
                    stdout := stdout s |}.
Proof.
  unfold set_ref. intros H. apply bind_inv in H as (n & s1 & Hn & H).
  apply load_inv in Hn as [Hn ->].
  destruct n as [v|t|a0]; try discriminate.
  injection H as <-. eauto.
Qed.

Lemma set_ref_eq (l : loc) (r : option string) (s : store) (t : TypeNode) :
  objs s !! l = Some (TNode t) ->
  set_ref l r s
  = (Return tt, {| objs := <[l := TNode (with_ref r t)]> (objs s);
                   stdout := stdout s |}).
Proof. intros H. unfold set_ref. now rewrite (bind_load _ _ _ _ H). Qed.

Lemma set_attributes_eq (l : loc) (attrs : list (string * loc)) (s : store)
    (t : TypeNode) :
  objs s !! l = Some (TNode t) ->
  set_attributes l attrs s
  = (Return tt, {| objs := <[l := TNode (with_attributes attrs t)]> (objs s);
                   stdout := stdout s |}).
Proof. intros H. unfold set_attributes. now rewrite (bind_load _ _ _ _ H). Qed.

Lemma lift_return {A} (m : M store A) (w : world) (a : A) (s : store) :
  m (mem w) = (Return a, s) ->
  lift m w = (Return a, {| mem := s; type_registry := type_registry w |}).
Proof. intros H. unfold lift. now rewrite H. Qed.

Lemma world_eta (w : world) :
  {| mem := mem w; type_registry := type_registry w |} = w.
Proof. now destruct w. Qed.

(** Setting the reference and emptying the attributes of the object at [l]. *)
Lemma set_ref_then_clear (l : loc) (r : option string) (w : world)
    (t : TypeNode) :
  objs (mem w) !! l = Some (TNode t) ->
  (lift (set_ref l r) ;;; lift (set_attributes l [])) w
  = (Return tt,
     {| mem := {| objs := <[l := TNode (with_attributes [] (with_ref r t))]>
                            (objs (mem w));
                  stdout := stdout (mem w) |};
        type_registry := type_registry w |}).
Proof.
  intros H.
  assert (Hlt : l < length (objs (mem w))) by (eapply lookup_lt_Some; eauto).
  rewrite (bind_eq _ _ _ _ _ (lift_return _ _ _ _ (set_ref_eq l r _ t H))).
  erewrite lift_return.
  2:{ cbn [mem]. apply set_attributes_eq. cbn [objs].
      now apply list_lookup_insert_eq. }
  cbn [mem objs stdout type_registry]. now rewrite list_insert_insert_eq.
Qed.

Lemma set_ref_then_clear_inv (l : loc) (r : option string) (w w' : world) :
  (lift (set_ref l r) ;;; lift (set_attributes l [])) w = (Return tt, w') ->
  exists t, objs (mem w) !! l = Some (TNode t) /\
            objs (mem w') !! l = Some (TNode (with_attributes [] (with_ref r t))) /\
            type_registry w' = type_registry w.
Proof.
  intros H. pose proof H as H'.
  apply bind_inv in H' as ([] & w1 & H1 & _).
  apply lift_inv in H1 as (s1 & H1 & _).
  apply set_ref_inv in H1 as (t & Ht & _).
  rewrite (set_ref_then_clear l r w t Ht) in H. injection H as <-.
  exists t. cbn [mem objs type_registry]. repeat split; [exact Ht|].
  apply list_lookup_insert_eq. eapply lookup_lt_Some; eauto.
Qed.

(** When an identifier resolves to no name, neither of its keys has an
    entry. *)
Lemma get_ref_None (r : TypeRegistry) (otype : option literal) (snippet : bool) :
  registry_inv r ->
  get_ref r otype = None ->
  dict_get key_eqb (otype, snippet) (types r) = None.
Proof.
  intros Hinv. unfold get_ref, get_preferred_snippet.
  destruct (dict_mem key_eqb (otype, false) (types r)) eqn:Ef.
  { intros H. now apply (registry_entry_named _ _ Hinv) in Ef. }
  destruct (dict_mem key_eqb (otype, true) (types r)) eqn:Et.
  { intros H. now apply (registry_entry_named _ _ Hinv) in Et. }
  intros _. unfold dict_mem in Ef, Et.
  destruct snippet.
  - now destruct (dict_get key_eqb (otype, true) (types r)).
  - now destruct (dict_get key_eqb (otype, false) (types r)).
Qed.

(** A computation that only reads the objects. *)
Lemma lift_pure {A} (m : M store A) (w : world) (a : A) :
  m (mem w) = (Return a, mem w) -> lift m w = (Return a, w).
Proof. intros H. rewrite (lift_return _ _ _ _ H). now rewrite world_eta. Qed.

Lemma lift_pure_inv {A} (m : M store A) (w w' : world) (a : A) :
  (forall s s' x, m s = (Return x, s') -> s' = s) ->
  lift m w = (Return a, w') -> m (mem w) = (Return a, mem w) /\ w' = w.
Proof.
  intros Hpure H. apply lift_inv in H as (s & H & ->).
  pose proof (Hpure _ _ _ H) as ->. now rewrite world_eta.
Qed.

Lemma get_TypeNode_pure {A} (field : string) (f : TypeNode -> A) (l : loc)
    (s s' : store) (a : A) :
  get_TypeNode field f l s = (Return a, s') -> s' = s.
Proof. intros H. now apply get_TypeNode_inv in H as (t & _ & _ & ->). Qed.

Lemma the_element_type_eq (s : store) (value e : loc) (a : ListNode) :
  objs s !! value = Some (LNode a) ->
  ln_element_type a = Some e ->
  the_element_type value s = (Return e, s).
Proof.
  intros Hv He. unfold the_element_type.
  now rewrite (bind_eq _ _ _ _ _ (get_element_type_eq _ _ _ Hv)), He.
Qed.

Lemma the_element_type_inv (s s' : store) (value e : loc) :
  the_element_type value s = (Return e, s') ->
  exists a, objs s !! value = Some (LNode a) /\ ln_element_type a = Some e /\
            s' = s.
Proof.
  unfold the_element_type. intros H. apply bind_inv in H as (o & s1 & Ho & H).
  apply get_element_type_inv in Ho as (a & Ha & -> & ->).
  destruct (ln_element_type a) as [e'|] eqn:Ee; [|discriminate].
  injection H as <- <-. eauto.
Qed.

Lemma element_field_eq {A} (field : string) (f : TypeNode -> A) (s : store)
    (value e : loc) (a : ListNode) (t : TypeNode) :
  objs s !! value = Some (LNode a) ->
  ln_element_type a = Some e ->
  objs s !! e = Some (TNode t) ->
  (x <- the_element_type value ;; get_TypeNode field f x) s = (Return (f t), s).
Proof.
  intros Hv He Ht.
  rewrite (bind_eq _ _ _ _ _ (the_element_type_eq _ _ _ _ Hv He)).
  now apply get_TypeNode_eq.
Qed.

Lemma element_field_inv {A} (field : string) (f : TypeNode -> A)
    (s s' : store) (value : loc) (x : A) :
  (e <- the_element_type value ;; get_TypeNode field f e) s = (Return x, s') ->
  exists a e t, objs s !! value = Some (LNode a) /\ ln_element_type a = Some e /\
                objs s !! e = Some (TNode t) /\ x = f t /\ s' = s.
Proof.
  intros H. apply bind_inv in H as (e & s1 & He & H).
  apply the_element_type_inv in He as (a & Ha & He & ->).
  apply get_TypeNode_inv in H as (t & Ht & -> & ->).
  exists a, e, t. auto.
Qed.

(** [p_member] on an object: when it returns, the object's reference is
    the name its identifier resolves to and its attributes are empty. *)
Lemma p_member_TypeNode_cleared (value : loc) (w w' : world) :
  p_member_TypeNode value w = (Return tt, w') ->
  exists t', objs (mem w') !! value = Some (TNode t') /\
             tn_attributes t' = [] /\
             tn_ref t' = get_ref (type_registry w') (tn_otype t').
Proof.
  unfold p_member_TypeNode. intros H.
  apply bind_inv in H as (otype & w1 & Ho & H).
  apply lift_pure_inv in Ho as [Ho ->]; [|apply get_TypeNode_pure].
  apply get_TypeNode_inv in Ho as (t & Ht & -> & _).
  apply bind_inv in H as (r & w1 & Hr & H). injection Hr as <- <-.
  destruct (truthy (get_ref (type_registry w) (tn_otype t))).
  - apply set_ref_then_clear_inv in H as (t0 & Ht0 & Hfinal & Hreg).
    eexists. split; [exact Hfinal|]. rewrite Hreg.
    rewrite Ht in Ht0. injection Ht0 as <-. split; reflexivity.
  - apply bind_inv in H as (otype & w1 & Ho & H).
    apply lift_pure_inv in Ho as [_ ->]; [|apply get_TypeNode_pure].
    apply bind_inv in H as (snippet & w1 & Hs & H).
    apply lift_pure_inv in Hs as [_ ->]; [|apply get_TypeNode_pure].
    apply bind_inv in H as ([] & w1 & _ & H).
    apply bind_inv in H as (otype1 & w2 & Ho & H).
    apply lift_pure_inv in Ho as [Ho ->]; [|apply get_TypeNode_pure].
    apply get_TypeNode_inv in Ho as (t1 & Ht1 & -> & _).
    apply bind_inv in H as (r1 & w2 & Hr & H). injection Hr as <- <-.
    apply set_ref_then_clear_inv in H as (t0 & Ht0 & Hfinal & Hreg).
    eexists. split; [exact Hfinal|]. rewrite Hreg.
    rewrite Ht1 in Ht0. injection Ht0 as <-. split; reflexivity.
Qed.

(** [p_member] on an object returns unless its identifier resolves to the
    empty name. *)
Lemma p_member_TypeNode_returns (value : loc) (w : world) (t : TypeNode) :
  registry_inv (type_registry w) ->
  objs (mem w) !! value = Some (TNode t) ->
  get_ref (type_registry w) (tn_otype t) <> Some "" ->
  exists w', p_member_TypeNode value w = (Return tt, w').
Proof.
  intros Hinv Ht Hname. unfold p_member_TypeNode, get_otype, get_snippet.
  rewrite (bind_eq _ _ _ _ _ (lift_pure _ _ _ (get_TypeNode_eq _ _ _ _ _ Ht))).
  unfold get_registry at 1. unfold bind at 1.
  destruct (get_ref (type_registry w) (tn_otype t)) as [name|] eqn:Ename.
  - assert (Htruthy : truthy (Some name) = true).
    { cbn. destruct (String.eqb name "") eqn:E; [|reflexivity].
      apply String.eqb_eq in E. congruence. }
    rewrite Htruthy, (set_ref_then_clear _ _ _ _ Ht). eauto.
  - cbn [truthy].
    rewrite (bind_eq _ _ _ _ _ (lift_pure _ _ _ (get_TypeNode_eq _ _ _ _ _ Ht))).
    rewrite (bind_eq _ _ _ _ _ (lift_pure _ _ _ (get_TypeNode_eq _ _ _ _ _ Ht))).
    pose proof (get_ref_None _ _ (tn_snippet t) Hinv Ename) as Hkey.
    rewrite (bind_eq _ _ _ _ _ (register_type_new _ _ _ value Hinv Hkey)).
    erewrite bind_eq.
    2:{ apply lift_pure. apply (get_TypeNode_eq _ _ _ _ _ Ht). }
    unfold get_registry at 1. unfold bind at 1.
    erewrite set_ref_then_clear; [eauto | exact Ht].
Qed.

(** [p_member] on a list whose element is an object with a name already:
    the element gets the name as its reference, and nothing else changes;
    its attributes stay. *)
Lemma p_member_ListNode_resolved (value e : loc) (w : world) (a : ListNode)
    (t : TypeNode) :
  objs (mem w) !! value = Some (LNode a) ->
  ln_element_type a = Some e ->
  objs (mem w) !! e = Some (TNode t) ->
  truthy (get_ref (type_registry w) (tn_otype t)) = true ->
  p_member_ListNode value w
  = (Return tt,
     {| mem := {| objs := <[e := TNode (with_ref (get_ref (type_registry w)
                                                    (tn_otype t)) t)]>
                            (objs (mem w));
                  stdout := stdout (mem w) |};
        type_registry := type_registry w |}).
Proof.
  intros Hv He Ht Hname. unfold p_member_ListNode, get_otype.
  rewrite (bind_eq _ _ _ _ _ (lift_pure _ _ _ (get_element_type_eq _ _ _ Hv))).
  rewrite He.
  rewrite (bind_eq _ _ _ _ _ (lift_pure _ _ _ (get_class_eq _ _ _ Ht))).
  cbn [class_of].
  rewrite (bind_eq _ _ _ _ _
             (lift_pure _ _ _ (element_field_eq _ _ _ _ _ _ _ Hv He Ht))).
  unfold get_registry at 1. unfold bind at 1. rewrite Hname.
  rewrite (bind_eq _ _ _ _ _
             (lift_pure _ _ _ (the_element_type_eq _ _ _ _ Hv He))).
  apply lift_return. now apply set_ref_eq.
Qed.

(** The steps of [p_member] on a list's element after [register_type]. *)
Lemma element_ref_then_clear_inv (value : loc) (w w' : world) :
  (otype <- lift (e <- the_element_type value ;; get_otype e) ;;
   r <- get_registry ;;
   e <- lift (the_element_type value) ;;
   lift (set_ref e (get_ref r otype)) ;;;
   e <- lift (the_element_type value) ;;
   lift (set_attributes e [])) w = (Return tt, w') ->
  exists a e t,
    objs (mem w) !! value = Some (LNode a) /\ ln_element_type a = Some e /\
    objs (mem w) !! e = Some (TNode t) /\
    w' = {| mem := {| objs := <[e := TNode (with_attributes []
                                          (with_ref (get_ref (type_registry w)
                                                       (tn_otype t)) t))]>
                                (objs (mem w));
                      stdout := stdout (mem w) |};
            type_registry := type_registry w |}.
Proof.
  intros H. pose proof H as H0.
  apply bind_inv in H0 as (otype & w1 & Ho & _).
  apply lift_inv in Ho as (s1 & Ho & _).
  apply element_field_inv in Ho as (a & e & t & Hv & He & Ht & -> & _).
  exists a, e, t. repeat split; try assumption.
  assert (Hne : e <> value) by (intros ->; congruence).
  assert (Hlt : e < length (objs (mem w))) by (eapply lookup_lt_Some; eauto).
  unfold get_otype in H.
  rewrite (bind_eq _ _ _ _ _
             (lift_pure _ _ _ (element_field_eq _ _ _ _ _ _ _ Hv He Ht))) in H.
  unfold get_registry at 1 in H. unfold bind at 1 in H.
  rewrite (bind_eq _ _ _ _ _
             (lift_pure _ _ _ (the_element_type_eq _ _ _ _ Hv He))) in H.
  rewrite (bind_eq _ _ _ _ _ (lift_return _ _ _ _ (set_ref_eq e _ _ t Ht))) in H.
  erewrite bind_eq in H.
  2:{ apply lift_pure. cbn [mem]. eapply the_element_type_eq; [|exact He].
      cbn [objs]. rewrite list_lookup_insert_ne; [exact Hv | exact Hne]. }
  erewrite lift_return in H.
  2:{ cbn [mem]. apply set_attributes_eq. cbn [objs].
      now apply list_lookup_insert_eq. }
  cbn [mem objs stdout type_registry] in H.
  rewrite list_insert_insert_eq in H. now injection H as <-.
Qed.

Lemma element_ref_then_clear (value e : loc) (w : world) (a : ListNode)
    (t : TypeNode) :
  objs (mem w) !! value = Some (LNode a) ->
  ln_element_type a = Some e ->
  objs (mem w) !! e = Some (TNode t) ->
  exists w',
    (otype <- lift (e <- the_element_type value ;; get_otype e) ;;
     r <- get_registry ;;
     e <- lift (the_element_type value) ;;
     lift (set_ref e (get_ref r otype)) ;;;
     e <- lift (the_element_type value) ;;
     lift (set_attributes e [])) w = (Return tt, w').
Proof.
  intros Hv He Ht.
  assert (Hne : e <> value) by (intros ->; congruence).
  assert (Hlt : e < length (objs (mem w))) by (eapply lookup_lt_Some; eauto).
  unfold get_otype.
  rewrite (bind_eq _ _ _ _ _
             (lift_pure _ _ _ (element_field_eq _ _ _ _ _ _ _ Hv He Ht))).
  unfold get_registry at 1. unfold bind at 1.
  rewrite (bind_eq _ _ _ _ _
             (lift_pure _ _ _ (the_element_type_eq _ _ _ _ Hv He))).
  rewrite (bind_eq _ _ _ _ _ (lift_return _ _ _ _ (set_ref_eq e _ _ t Ht))).
  erewrite bind_eq.
  2:{ apply lift_pure. cbn [mem]. eapply the_element_type_eq; [|exact He].
      cbn [objs]. rewrite list_lookup_insert_ne; [exact Hv | exact Hne]. }
  erewrite lift_return; [eauto|].
  cbn [mem]. apply set_attributes_eq. cbn [objs].
  now apply list_lookup_insert_eq.
Qed.

(** [p_member] on a list whose element is an object without a name yet:
    when it returns, the list's element has the name its identifier
    resolves to as its reference, and no attributes. *)
Lemma p_member_ListNode_cleared (value e : loc) (w w' : world) (a : ListNode)
    (t : TypeNode) :
  objs (mem w) !! value = Some (LNode a) ->
  ln_element_type a = Some e ->
  objs (mem w) !! e = Some (TNode t) ->
  truthy (get_ref (type_registry w) (tn_otype t)) = false ->
  p_member_ListNode value w = (Return tt, w') ->
  exists a' e' t',
    objs (mem w') !! value = Some (LNode a') /\ ln_element_type a' = Some e' /\
    objs (mem w') !! e' = Some (TNode t') /\
    tn_attributes t' = [] /\
    tn_ref t' = get_ref (type_registry w') (tn_otype t').
Proof.
  intros Hv He Ht Hname H. unfold p_member_ListNode in H.
  rewrite (bind_eq _ _ _ _ _ (lift_pure _ _ _ (get_element_type_eq _ _ _ Hv)))
    in H.
  rewrite He in H.
  rewrite (bind_eq _ _ _ _ _ (lift_pure _ _ _ (get_class_eq _ _ _ Ht))) in H.
  cbn [class_of] in H. unfold get_otype at 1 in H.
  rewrite (bind_eq _ _ _ _ _
             (lift_pure _ _ _ (element_field_eq _ _ _ _ _ _ _ Hv He Ht))) in H.
  unfold get_registry at 1 in H. unfold bind at 1 in H. rewrite Hname in H.
  apply bind_inv in H as (otype & w1 & _ & H).
  apply bind_inv in H as (snippet & w2 & _ & H).
  apply bind_inv in H as (e0 & w3 & _ & H).
  apply bind_inv in H as ([] & w4 & _ & H).
  apply element_ref_then_clear_inv in H as (a1 & e1 & t1 & Hv1 & He1 & Ht1 & ->).
  assert (Hne : e1 <> value) by (intros ->; congruence).
  assert (Hlt : e1 < length (objs (mem w4))) by (eapply lookup_lt_Some; eauto).
  exists a1, e1. eexists. cbn [mem objs type_registry].
  split; [rewrite list_lookup_insert_ne; [exact Hv1 | exact Hne]|].
  split; [exact He1|].
  split; [now apply list_lookup_insert_eq|]. split; reflexivity.
Qed.

(** It returns when the identifier resolves to no name at all. *)
Lemma p_member_ListNode_returns (value e : loc) (w : world) (a : ListNode)
    (t : TypeNode) :
  registry_inv (type_registry w) ->
  objs (mem w) !! value = Some (LNode a) ->
  ln_element_type a = Some e ->
  objs (mem w) !! e = Some (TNode t) ->
  get_ref (type_registry w) (tn_otype t) = None ->
  exists w', p_member_ListNode value w = (Return tt, w').
Proof.
  intros Hinv Hv He Ht Hname. unfold p_member_ListNode.
  rewrite (bind_eq _ _ _ _ _ (lift_pure _ _ _ (get_element_type_eq _ _ _ Hv))).
  rewrite He.
  rewrite (bind_eq _ _ _ _ _ (lift_pure _ _ _ (get_class_eq _ _ _ Ht))).
  cbn [class_of]. unfold get_otype at 1 2, get_snippet.
  rewrite (bind_eq _ _ _ _ _
             (lift_pure _ _ _ (element_field_eq _ _ _ _ _ _ _ Hv He Ht))).
  unfold get_registry at 1. unfold bind at 1. rewrite Hname. cbn [truthy].
  rewrite (bind_eq _ _ _ _ _
             (lift_pure _ _ _ (element_field_eq _ _ _ _ _ _ _ Hv He Ht))).
  rewrite (bind_eq _ _ _ _ _
             (lift_pure _ _ _ (element_field_eq _ _ _ _ _ _ _ Hv He Ht))).
  rewrite (bind_eq _ _ _ _ _
             (lift_pure _ _ _ (the_element_type_eq _ _ _ _ Hv He))).
  pose proof (get_ref_None _ _ (tn_snippet t) Hinv Hname) as Hkey.
  rewrite (bind_eq _ _ _ _ _ (register_type_new _ _ _ e Hinv Hkey)).
  eapply element_ref_then_clear; cbn [mem]; eauto.
Qed.

Lemma p_member_eq (key : string) (value : loc) (w : world) (n : node) :
  objs (mem w) !! value = Some n ->
  p_member key value w
  = bind match class_of n with
         | TypeNode_class => p_member_TypeNode value
         | ListNode_class => p_member_ListNode value
         | ValueNode_class => ret tt
         end (fun _ => ret [(key, value)]) w.
Proof.
  intros H. unfold p_member.
  now rewrite (bind_eq _ _ _ _ _ (lift_pure _ _ _ (get_class_eq _ _ _ H))).
Qed.

(** C7, as the program has it. [p_member] on an object: when it returns,
    the object's reference is the name its identifier resolves to and its
    attributes are empty; it returns unless that name is the empty string.
    [p_member] on a list whose element is an object: when the element's
    identifier already resolves to a non-empty name, the element gets that
    name as its reference and keeps its attributes, and nothing else
    changes; otherwise the element is registered first and, when the call
    returns, the element's reference is the name resolved and its attributes
    are empty; it returns when the identifier resolved to no name. *)
Theorem p_member_reference (key : string) (value : loc) (w : world) :
  (forall t,
     objs (mem w) !! value = Some (TNode t) ->
     (forall d w',
        p_member key value w = (Return d, w') ->
        d = [(key, value)] /\
        exists t', objs (mem w') !! value = Some (TNode t') /\
                   tn_attributes t' = [] /\
                   tn_ref t' = get_ref (type_registry w') (tn_otype t')) /\
     (registry_inv (type_registry w) ->
      get_ref (type_registry w) (tn_otype t) <> Some "" ->
      exists w', p_member key value w = (Return [(key, value)], w'))) /\
  (forall a e t,
     objs (mem w) !! value = Some (LNode a) ->
     ln_element_type a = Some e ->
     objs (mem w) !! e = Some (TNode t) ->
     let name := get_ref (type_registry w) (tn_otype t) in
     (truthy name = true ->
      p_member key value w
      = (Return [(key, value)],
         {| mem := {| objs := <[e := TNode (with_ref name t)]> (objs (mem w));
                      stdout := stdout (mem w) |};
            type_registry := type_registry w |}) /\
      tn_attributes (with_ref name t) = tn_attributes t) /\
     (truthy name = false ->
      forall d w',
        p_member key value w = (Return d, w') ->
        d = [(key, value)] /\
        exists a' e' t',
          objs (mem w') !! value = Some (LNode a') /\
          ln_element_type a' = Some e' /\
          objs (mem w') !! e' = Some (TNode t') /\
          tn_attributes t' = [] /\
          tn_ref t' = get_ref (type_registry w') (tn_otype t')) /\
     (registry_inv (type_registry w) -> name = None ->
      exists w', p_member key value w = (Return [(key, value)], w'))).
Proof.
  split.
  - intros t Ht. rewrite (p_member_eq key value w _ Ht). cbn [class_of]. split.
    + intros d w' H. apply bind_inv in H as ([] & w1 & H & Hd).
      injection Hd as <- <-. split; [reflexivity|].
      now apply p_member_TypeNode_cleared in H.
    + intros Hinv Hname.
      destruct (p_member_TypeNode_returns value w t Hinv Ht Hname) as [w' H].
      exists w'. now rewrite (bind_eq _ _ _ _ _ H).
  - intros a e t Hv He Ht name. rewrite (p_member_eq key value w _ Hv).
    cbn [class_of]. split; [|split].
    + intros Hname.
      rewrite (bind_eq _ _ _ _ _
                 (p_member_ListNode_resolved value e w a t Hv He Ht Hname)).
      split; reflexivity.
    + intros Hname d w' H. apply bind_inv in H as ([] & w1 & H & Hd).
      injection Hd as <- <-. split; [reflexivity|].
      now apply (p_member_ListNode_cleared value e w w1 a t Hv He Ht Hname).
    + intros Hinv Hname.
      destruct (p_member_ListNode_returns value e w a t Hinv Hv He Ht Hname)
        as [w' H].
      exists w'. now rewrite (bind_eq _ _ _ _ _ H).
Qed.

Lemma p_member_reference_witness :
  exists t,
    objs (mem after_language_list) !! 2 = Some (TNode t) /\
    p_member "languages" 3 after_language_list
    = (Return [("languages", 3)],
       {| mem := {| objs := <[2 := TNode (with_ref (Some "language") t)]>
                              (objs (mem after_language_list));
                    stdout := stdout (mem after_language_list) |};
          type_registry := type_registry after_language_list |}) /\
    tn_attributes (with_ref (Some "language") t) = tn_attributes t.
Proof.
  eexists. split; [reflexivity|].
  refine (proj1 (proj2 (p_member_reference "languages" 3 after_language_list)
                   {| ln_element_type := Some 2; ln_nullable := false |} 2 _
                   _ _ _) _); reflexivity.
Defined.

(** ** The registry during a run *)

Lemma keeps_ret {A} (a : A) : keeps_registry (ret a).
Proof. intros w H. exact H. Qed.

Lemma keeps_raise {A} (e : exn) : keeps_registry (@raise world A e).
Proof. intros w H. exact H. Qed.

Lemma keeps_bind {A B} (m : M world A) (k : A -> M world B) :
  keeps_registry m -> (forall a, keeps_registry (k a)) ->
  keeps_registry (bind m k).
Proof.
  intros Hm Hk w H. unfold bind. specialize (Hm w H).
  destruct (m w) as [[a|e] w1]; [now apply Hk | exact Hm].
Qed.

Lemma keeps_lift {A} (m : M store A) : keeps_registry (lift m).
Proof. intros w H. now rewrite lift_eq. Qed.

Lemma keeps_get_registry : keeps_registry get_registry.
Proof. intros w H. exact H. Qed.

Lemma keeps_register_type (otype : option literal) (snippet : bool) (l : loc) :
  keeps_registry (register_type otype snippet l).
Proof. intros w H. now apply register_type_inv. Qed.

Lemma keeps_p_object (attributes : list (string * loc)) :
  keeps_registry (p_object attributes).
Proof.
  unfold p_object.
  apply keeps_bind.
  { destruct (sget "otype" attributes); [apply keeps_lift | apply keeps_ret]. }
  intros otype. apply keeps_bind.
  { destruct (sget "snippet" attributes); [|apply keeps_ret].
    apply keeps_bind; [apply keeps_lift|].
    intros [[?|?|?|[|]]|]; first [apply keeps_ret | apply keeps_raise]. }
  intros snippet. apply keeps_bind; [apply keeps_lift|].
  intros type_node. apply keeps_bind; [|intros; apply keeps_ret].
  destruct otype; [apply keeps_register_type | apply keeps_ret].
Qed.

Lemma keeps_p_member (key : string) (l : loc) : keeps_registry (p_member key l).
Proof.
  unfold p_member. apply keeps_bind; [apply keeps_lift|].
  intros c. apply keeps_bind; [|intros; apply keeps_ret].
  destruct c.
  - apply keeps_ret.
  - unfold p_member_TypeNode.
    repeat first
      [ apply keeps_lift | apply keeps_ret | apply keeps_get_registry
      | apply keeps_register_type
      | apply keeps_bind; [|intros ?]
      | match goal with |- keeps_registry (if ?b then _ else _) => destruct b end ].
  - unfold p_member_ListNode.
    apply keeps_bind; [apply keeps_lift|]. intros [e|]; [|apply keeps_ret].
    apply keeps_bind; [apply keeps_lift|]. intros c.
    destruct c; try apply keeps_ret.
    repeat first
      [ apply keeps_lift | apply keeps_ret | apply keeps_get_registry
      | apply keeps_register_type
      | apply keeps_bind; [|intros ?]
      | match goal with |- keeps_registry (if ?b then _ else _) => destruct b end ].
Qed.

(** Every parser action keeps the registry's dictionaries together. *)
Lemma keeps_value (j : json) : keeps_registry (value j).
Proof.
  revert j. fix IH 1. intros [members|elements|s|n|f| | |]; cbn [value];
    try apply keeps_lift.
  - apply keeps_bind; [|intros; apply keeps_p_object].
    induction members as [|[key j'] rest IHrest]; [apply keeps_raise|].
    apply keeps_bind; [apply IH|]. intros v.
    apply keeps_bind; [apply keeps_p_member|]. intros member.
    destruct rest as [|m rest]; [apply keeps_ret|].
    apply keeps_bind; [exact IHrest | intros; apply keeps_lift].
  - apply keeps_bind; [|intros; apply keeps_lift].
    induction elements as [|j' rest IHrest]; [apply keeps_raise|].
    apply keeps_bind; [apply IH|]. intros v.
    destruct rest as [|m rest]; [apply keeps_ret|].
    apply keeps_bind; [exact IHrest | intros; apply keeps_ret].
Qed.

Lemma keeps_parse_all (data_list : list json) :
  keeps_registry (parse_all data_list).
Proof.
  unfold parse_all. induction data_list as [|j rest IH]; cbn [for_each];
    [apply keeps_ret|].
  apply keeps_bind; [|intros; exact IH].
  apply keeps_bind; [apply keeps_value | intros; apply keeps_ret].
Qed.

(** X1.  In every state a run can reach from the start of the process,
    whether the run ends or raises, the registry's dictionaries go
    together. *)
Theorem run_registry_inv (data_list : list json) :
  registry_inv (type_registry (snd (run data_list initial_world))).
Proof.
  assert (H : keeps_registry (run data_list)).
  { unfold run. apply keeps_bind; [apply keeps_parse_all|].
    intros _ w Hw. exact Hw. }
  apply H. apply registry_inv_init.
Qed.

(** ** Further behaviour of the actions *)

(** X2.  A scalar of unknown type merged with any node: the result is the
    other node, made nullable, and nothing else changes. *)
Theorem unknown_scalar_is_absorbed (depth : nat) (s : store)
    (self other : loc) (a : ValueNode) (n : node) :
  objs s !! self = Some (VNode a) ->
  objs s !! other = Some n ->
  vn_type a = None ->
  merge (S depth) self other s
  = (Return other,
     {| objs := <[other := node_with_nullable true n]> (objs s);
        stdout := stdout s |}).
Proof. apply ValueNode_merge_unknown. Qed.

Lemma unknown_scalar_is_absorbed_witness :
  merge 1 0 1 {| objs := [VNode null_scalar; VNode (string_scalar false)];
                 stdout := [] |}
  = (Return 1,
     {| objs := [VNode null_scalar; VNode (string_scalar true)];
        stdout := [] |}).
Proof.
  exact (unknown_scalar_is_absorbed 0
           {| objs := [VNode null_scalar; VNode (string_scalar false)];
              stdout := [] |}
           0 1 null_scalar (VNode (string_scalar false))
           eq_refl eq_refl eq_refl).
Defined.

(** The parser builds scalars without a key, so the values of two
    "otype" members of one object are not compared: the later one is kept
    and the object is registered under it. *)
Theorem duplicate_otype_is_merged_silently :
  fst (run [doc_two_otypes] initial_world)
  = Return
      [("b",
        PyDict
          [("type", PyValue (Some (LStr "object")));
           ("otype", PyValue (Some (LStr "b")));
           ("snippet", PyValue (Some (LBool false)));
           ("attributes",
            PyDict
              [("otype", PyDict [("type", PyValue (Some (LStr "string")))])])])].
Proof. vm_compute. reflexivity. Qed.

(** A tagged object that is a member's value is the registry's own
    entry: emptying its attributes in [p_member] empties the entry, which is
    then serialised without attributes. *)
Theorem member_object_empties_its_entry :
  fst (run [doc_tagged_child] initial_world)
  = Return
      [("t",
        PyDict
          [("type", PyValue (Some (LStr "object")));
           ("otype", PyValue (Some (LStr "t")));
           ("snippet", PyValue (Some (LBool false)))])].
Proof. vm_compute. reflexivity. Qed.

(** An object without "otype" that is a member's value is registered
    too, under the key [(None, False)] and the name "None", and the member
    refers to that name. *)
Theorem untagged_member_object_is_registered :
  fst (run [doc_untagged_child] initial_world)
  = Return
      [("None",
        PyDict
          [("type", PyValue (Some (LStr "object")));
           ("otype", PyValue None);
           ("snippet", PyValue (Some (LBool false)))]);
       ("p",
        PyDict
          [("type", PyValue (Some (LStr "object")));
           ("otype", PyValue (Some (LStr "p")));
           ("snippet", PyValue (Some (LBool false)));
           ("attributes",
            PyDict
              [("child", PyDict [("ref", PyValue (Some (LStr "None")))]);
               ("otype", PyDict [("type", PyValue (Some (LStr "string")))])])])].
Proof. vm_compute. reflexivity. Qed.

(** The grammar has no empty array and no empty object. *)
Theorem empty_array_and_object_are_syntax_errors (w : world) :
  parse (JArray []) w = (Raise SyntaxError, w) /\
  parse (JObject []) w = (Raise SyntaxError, w).
Proof. split; reflexivity. Qed.

(** ** The specification's scenarios *)

(** An attribute seen in one occurrence only is nullable in the entry:
    after the two "person" snippets, ["name"] and ["age"] are not nullable
    and ["email"], a null in the second, is. *)
Theorem optionality_from_absence :
  fst (run [person_alice; person_charlie] initial_world)
  = Return
      [("person_snippet",
        PyDict
          [("type", PyValue (Some (LStr "object")));
           ("otype", PyValue (Some (LStr "person")));
           ("snippet", PyValue (Some (LBool true)));
           ("attributes",
            PyDict
              [("age", scalar_schema "int");
               ("name", scalar_schema "string");
               ("snippet", scalar_schema "bool");
               ("otype", scalar_schema "string");
               ("email",
                PyDict [("type", PyValue None);
                        ("nullable", PyValue (Some (LBool true)))])])])].
Proof. vm_compute. reflexivity. Qed.

(** Two documents tagged "language" give one entry, whose ["dialect"],
    seen in the second only, is nullable. *)
Theorem deduplication_across_documents :
  fst (run [language_hungarian; language_english] initial_world)
  = Return [("language", language_schema)].
Proof. vm_compute. reflexivity. Qed.

(** The end-to-end scenario: the entry "person" holds ["languages"] as
    an array whose element refers to "language", and the entry "language"
    has a nullable ["dialect"]. *)
Theorem end_to_end_scenario :
  fst (run [JArray [person_bob]; JArray [language_hungarian]] initial_world)
  = Return
      [("language", language_schema);
       ("person",
        PyDict
          [("type", PyValue (Some (LStr "object")));
           ("otype", PyValue (Some (LStr "person")));
           ("snippet", PyValue (Some (LBool false)));
           ("attributes",
            PyDict
              [("hobbies",
                PyDict [("type", PyValue (Some (LStr "array")));
                        ("element", scalar_schema "string")]);
               ("languages",
                PyDict [("type", PyValue (Some (LStr "array")));
                        ("element",
                         PyDict [("ref", PyValue (Some (LStr "language")))])]);
               ("email", scalar_schema "string");
               ("age", scalar_schema "int");
               ("name", scalar_schema "string");
               ("snippet", scalar_schema "bool");
               ("otype", scalar_schema "string")])])].
Proof. vm_compute. reflexivity. Qed.

(** ** Merging two nodes of one structure *)
























(** ** What a merge can change *)

Lemma always_ret {St A} (R : St -> St -> Prop) (a : A) :
  (forall s, R s s) -> always R (@ret St A a).
Proof. intros H s. apply H. Qed.

Lemma always_raise {St A} (R : St -> St -> Prop) (e : exn) :
  (forall s, R s s) -> always R (@raise St A e).
Proof. intros H s. apply H. Qed.

Lemma always_bind {St A B} (R : St -> St -> Prop) (m : M St A)
    (k : A -> M St B) :
  (forall a b c, R a b -> R b c -> R a c) ->
  always R m -> (forall a, always R (k a)) -> always R (bind m k).
Proof.
  intros Htrans Hm Hk s. unfold bind. specialize (Hm s).
  destruct (m s) as [[a|e] s1]; [|exact Hm].
  eapply Htrans; [exact Hm | apply Hk].
Qed.

Lemma always_for_each {St A} (R : St -> St -> Prop) (xs : list A)
    (body : A -> M St unit) :
  (forall s, R s s) -> (forall a b c, R a b -> R b c -> R a c) ->
  (forall x, always R (body x)) -> always R (for_each xs body).
Proof.
  intros Hrefl Htrans Hbody. induction xs as [|x xs IH]; cbn [for_each].
  - now apply always_ret.
  - apply always_bind; auto.
Qed.

Lemma always_items_from {St V} (R : St -> St -> Prop)
    (d : M St (list (string * V))) (used : nat)
    (pending : list (string * V)) (i : nat)
    (body : string -> V -> M St unit) :
  (forall s, R s s) -> (forall a b c, R a b -> R b c -> R a c) ->
  always R d -> (forall k v, always R (body k v)) ->
  always R (items_from d used pending i body).
Proof.
  intros Hrefl Htrans Hd Hbody. revert i.
  induction pending as [|p pending IH]; intros i; cbn [items_from];
    (apply always_bind; [exact Htrans | exact Hd |]); intros cur;
    destruct (negb (length cur =? used));
    try (now apply always_raise); try (now apply always_ret).
  destruct (cur !! i) as [[k v]|]; [|now apply always_ret].
  apply always_bind; auto.
Qed.

Lemma always_for_items {St V} (R : St -> St -> Prop)
    (d : M St (list (string * V))) (body : string -> V -> M St unit) :
  (forall s, R s s) -> (forall a b c, R a b -> R b c -> R a c) ->
  always R d -> (forall k v, always R (body k v)) ->
  always R (for_items d body).
Proof.
  intros Hrefl Htrans Hd Hbody. unfold for_items.
  apply always_bind; [exact Htrans | exact Hd |]. intros first.
  now apply always_items_from.
Qed.

Lemma node_grows_refl (n : node) : node_grows n n.
Proof.
  destruct n; cbn; repeat split; auto. exists []. now rewrite app_nil_r.
Qed.

Lemma node_grows_trans (a b c : node) :
  node_grows a b -> node_grows b c -> node_grows a c.
Proof.
  destruct a, b, c; cbn; try tauto.
  - intros (? & ? & ? & ?) (? & ? & ? & ?). repeat split; try congruence; auto.
  - intros (? & ? & ? & ? & ? & m1 & E1) (? & ? & ? & ? & ? & m2 & E2).
    repeat split; try congruence; auto.
    exists (m1 ++ m2). now rewrite E2, E1, app_assoc.
  - intros (? & ?) (? & ?). split; [congruence | auto].
Qed.

Lemma grows_refl (s : store) : grows s s.
Proof.
  split; [reflexivity|]. split.
  - intros l n H. exists n. auto using node_grows_refl.
  - exists []. now rewrite app_nil_r.
Qed.

Lemma grows_trans (a b c : store) : grows a b -> grows b c -> grows a c.
Proof.
  intros (L1 & H1 & m1 & O1) (L2 & H2 & m2 & O2). split; [congruence|]. split.
  - intros l n Hl. destruct (H1 _ _ Hl) as (n1 & Hl1 & G1).
    destruct (H2 _ _ Hl1) as (n2 & Hl2 & G2).
    exists n2. eauto using node_grows_trans.
  - exists (m1 ++ m2). now rewrite O2, O1, app_assoc.
Qed.

(** Replacing one object by one it may grow into. *)
Lemma grows_write (s : store) (l : loc) (n n' : node) :
  objs s !! l = Some n -> node_grows n n' ->
  grows s {| objs := <[l := n']> (objs s); stdout := stdout s |}.
Proof.
  intros Hl Hg. split; [cbn; apply length_insert|]. split.
  - intros l0 n0 H0. cbn [objs]. destruct (Nat.eq_dec l0 l) as [->|Hne].
    + rewrite list_lookup_insert_eq by (eapply lookup_lt_Some; eauto).
      exists n'. split; [reflexivity|]. congruence.
    + rewrite list_lookup_insert_ne by congruence.
      exists n0. auto using node_grows_refl.
  - exists []. cbn. now rewrite app_nil_r.
Qed.

Lemma always_reads {St A} (R : St -> St -> Prop) (m : M St A) :
  (forall s, R s s) -> reads m -> always R m.
Proof. intros Hrefl Hm s. rewrite Hm. apply Hrefl. Qed.

Lemma reads_load (l : loc) : reads (load l).
Proof. intros s. unfold load. now destruct (objs s !! l). Qed.

Lemma reads_ret {St A} (a : A) : reads (@ret St A a).
Proof. intros s. reflexivity. Qed.

Lemma reads_raise {St A} (e : exn) : reads (@raise St A e).
Proof. intros s. reflexivity. Qed.

Lemma reads_bind {St A B} (m : M St A) (k : A -> M St B) :
  reads m -> (forall a, reads (k a)) -> reads (bind m k).
Proof.
  intros Hm Hk s. unfold bind. specialize (Hm s).
  destruct (m s) as [[a|e] s1]; cbn in Hm; subst; [apply Hk | reflexivity].
Qed.

Lemma reads_get_class (l : loc) : reads (get_class l).
Proof. apply reads_bind; [apply reads_load | intros; apply reads_ret]. Qed.

Lemma reads_get_nullable (l : loc) : reads (get_nullable l).
Proof. apply reads_bind; [apply reads_load | intros; apply reads_ret]. Qed.

Lemma reads_get_type (l : loc) : reads (get_type l).
Proof.
  apply reads_bind; [apply reads_load|].
  intros [v|t|a]; first [apply reads_ret | apply reads_raise].
Qed.

Lemma reads_get_value (l : loc) : reads (get_value l).
Proof.
  apply reads_bind; [apply reads_load|].
  intros [v|t|a]; first [apply reads_ret | apply reads_raise].
Qed.

Lemma reads_get_key (l : loc) : reads (get_key l).
Proof.
  apply reads_bind; [apply reads_load|].
  intros [v|t|a]; first [apply reads_ret | apply reads_raise].
Qed.

Lemma reads_get_TypeNode {A} (field : string) (f : TypeNode -> A) (l : loc) :
  reads (get_TypeNode field f l).
Proof.
  apply reads_bind; [apply reads_load|].
  intros [v|t|a]; first [apply reads_ret | apply reads_raise].
Qed.

Lemma reads_get_element_type (l : loc) : reads (get_element_type l).
Proof.
  apply reads_bind; [apply reads_load|].
  intros [v|t|a]; first [apply reads_ret | apply reads_raise].
Qed.

Lemma reads_py_or {St} (a b : M St bool) :
  reads a -> reads b -> reads (py_or a b).
Proof.
  intros Ha Hb. apply reads_bind; [exact Ha|].
  intros [|]; [apply reads_ret | exact Hb].
Qed.

Lemma always_bind_then {St A B} (R : St -> St -> Prop) (m : M St A)
    (f : A -> M St unit) (rest : M St B) :
  (forall a b c, R a b -> R b c -> R a c) ->
  always R (bind m f) -> always R rest ->
  always R (bind m (fun a => bind (f a) (fun _ => rest))).
Proof.
  intros Htrans Hmf Hrest s. specialize (Hmf s). unfold bind in *.
  destruct (m s) as [[a|e] s1]; [|exact Hmf].
  destruct (f a s1) as [[[]|e] s2]; [|exact Hmf].
  eapply Htrans; [exact Hmf | apply Hrest].
Qed.

Lemma node_grows_nullable (b : bool) (n : node) :
  (node_nullable n = true -> b = true) ->
  node_grows n (node_with_nullable b n).
Proof.
  destruct n; cbn; intros H; repeat split; auto.
  exists []. now rewrite app_nil_r.
Qed.

Lemma grows_set_nullable_true (l : loc) : always grows (set_nullable l true).
Proof.
  intros s. unfold set_nullable, bind, load, write.
  destruct (objs s !! l) as [n|] eqn:Hl; cbn [snd]; [|apply grows_refl].
  eapply grows_write; [exact Hl|]. now apply node_grows_nullable.
Qed.

(** [self.nullable = self.nullable or other.nullable] *)
Lemma grows_or_nullable (self other : loc) :
  always grows (nullable <- py_or (get_nullable self) (get_nullable other) ;;
                set_nullable self nullable).
Proof.
  intros s.
  unfold py_or, get_nullable, set_nullable, bind, load, write, ret.
  destruct (objs s !! self) as [n|] eqn:Hl; cbn [snd]; [|apply grows_refl].
  destruct (node_nullable n) eqn:Hn.
  - rewrite Hl. cbn [snd]. eapply grows_write; [exact Hl|].
    now apply node_grows_nullable.
  - destruct (objs s !! other) as [n'|]; cbn [snd]; [|apply grows_refl].
    rewrite Hl. cbn [snd]. eapply grows_write; [exact Hl|].
    apply node_grows_nullable. congruence.
Qed.

Lemma grows_print (w : warning) : always grows (print w).
Proof.
  intros s. unfold print. cbn [snd]. split; [reflexivity|]. split.
  - intros l n H. exists n. auto using node_grows_refl.
  - now exists [w].
Qed.

Lemma dict_set_keys {K V} (eqb : K -> K -> bool) (k : K) (v : V)
    (d : list (K * V)) :
  exists more, map fst (dict_set eqb k v d) = map fst d ++ more.
Proof.
  induction d as [|[k' v'] d IH]; cbn.
  - now exists [k].
  - destruct (eqb k' k); cbn.
    + exists []. now rewrite app_nil_r.
    + destruct IH as [more ->]. now exists more.
Qed.

Lemma grows_set_item (l : loc) (key : string) (v : loc) :
  always grows (set_item l key v).
Proof.
  intros s.
  unfold set_item, get_attributes, get_TypeNode, set_attributes, bind, load,
    write, ret, raise.
  destruct (objs s !! l) as [[x|t|a]|] eqn:Hl; cbn [snd];
    try apply grows_refl.
  rewrite Hl. cbn [snd]. eapply grows_write; [exact Hl|].
  cbn. repeat split; auto. apply dict_set_keys.
Qed.

Lemma grows_ValueNode_merge (self other : loc) :
  always grows (ValueNode_merge self other).
Proof.
  pose proof grows_refl as Hrefl. pose proof grows_trans as Htrans.
  unfold ValueNode_merge.
  apply always_bind; [exact Htrans | apply always_reads, reads_get_type; auto|].
  intros [ty|].
  2:{ apply always_bind; [exact Htrans | apply grows_set_nullable_true|].
      intros _. now apply always_ret. }
  apply always_bind; [exact Htrans | apply always_reads, reads_get_key; auto|].
  intros key.
  apply always_bind; [exact Htrans | |].
  { apply always_reads; [exact Hrefl|].
    destruct (is_otype_or_snippet key); [|apply reads_ret].
    apply reads_bind; [apply reads_get_value|]. intros [a|]; [|apply reads_ret].
    apply reads_bind; [apply reads_get_value|]. intros [b|]; [|apply reads_ret].
    destruct (negb (py_eq a b)); [apply reads_raise | apply reads_ret]. }
  intros _.
  apply always_bind; [exact Htrans | apply always_reads, reads_get_type; auto|].
  intros self_type.
  apply always_bind; [exact Htrans | | intros _; now apply always_ret].
  destruct self_type as [ty'|]; [|apply grows_set_nullable_true].
  apply always_bind; [exact Htrans | apply always_reads, reads_get_type; auto|].
  intros [oty|]; [|apply grows_set_nullable_true].
  destruct (negb _); [now apply always_raise | now apply always_ret].
Qed.

Lemma grows_TypeNode_merge (merge : loc -> loc -> M store loc)
    (self other : loc) :
  (forall a b, always grows (merge a b)) ->
  always grows (TypeNode_merge merge self other).
Proof.
  intros Hmerge.
  pose proof grows_refl as Hrefl. pose proof grows_trans as Htrans.
  assert (Hget : forall A (field : string) (f : TypeNode -> A) l,
            always grows (get_TypeNode field f l))
    by (intros; apply always_reads, reads_get_TypeNode; auto).
  unfold TypeNode_merge.
  apply always_bind_then; [exact Htrans | apply grows_or_nullable|].
  apply always_bind; [exact Htrans | apply always_reads, reads_get_type; auto|].
  intros [oty|]; [|now apply always_ret].
  apply always_bind; [exact Htrans | apply always_reads, reads_get_type; auto|].
  intros sty. destruct (negb _).
  { apply always_bind; [exact Htrans | apply Hget|].
    intros; now apply always_raise. }
  apply always_bind; [exact Htrans | |].
  { apply always_reads; [exact Hrefl|]. apply reads_py_or.
    - apply reads_bind; [apply reads_get_TypeNode|]. intros a.
      apply reads_bind; [apply reads_get_TypeNode|]. intros b. apply reads_ret.
    - apply reads_bind; [apply reads_get_TypeNode|]. intros a.
      apply reads_bind; [apply reads_get_TypeNode|]. intros b.
      apply reads_ret. }
  intros differ.
  apply always_bind; [exact Htrans | |].
  { destruct differ; [|now apply always_ret].
    apply always_bind; [exact Htrans | apply Hget|]. intros a.
    apply always_bind; [exact Htrans | apply Hget|]. intros b.
    apply always_bind; [exact Htrans | apply Hget|]. intros c.
    apply always_bind; [exact Htrans | apply Hget|]. intros d.
    apply grows_print. }
  intros _.
  apply always_bind; [exact Htrans | |].
  { apply always_for_items; [exact Hrefl | exact Htrans | apply Hget|].
    intros key attr.
    apply always_bind; [exact Htrans | apply Hget|]. intros attrs.
    destruct (negb _); [apply grows_set_nullable_true | now apply always_ret]. }
  intros _.
  apply always_bind; [exact Htrans | | intros _; now apply always_ret].
  apply always_for_items; [exact Hrefl | exact Htrans | apply Hget|].
  intros key attr.
  apply always_bind; [exact Htrans | apply Hget|]. intros attrs.
  destruct (sget key attrs) as [mine|].
  - apply always_bind; [exact Htrans | apply Hmerge|].
    intros merged. apply grows_set_item.
  - apply always_bind; [exact Htrans | apply grows_set_nullable_true|].
    intros _. apply grows_set_item.
Qed.

Lemma grows_ListNode_merge (merge : loc -> loc -> M store loc)
    (self other : loc) :
  always grows (ListNode_merge merge self other).
Proof.
  pose proof grows_refl as Hrefl. pose proof grows_trans as Htrans.
  unfold ListNode_merge.
  apply always_bind_then; [exact Htrans | apply grows_or_nullable|].
  apply always_bind;
    [exact Htrans | apply always_reads, reads_get_element_type; auto|].
  intros e. rewrite is_not_ListNode_class. cbn [negb]. now apply always_ret.
Qed.

Lemma grows_merge (depth : nat) (self other : loc) :
  always grows (merge depth self other).
Proof.
  revert self other. induction depth as [|depth IH]; intros self other.
  - apply always_raise, grows_refl.
  - cbn [merge].
    apply always_bind;
      [exact grows_trans | apply always_reads, reads_load; exact grows_refl|].
    intros [v|t|a].
    + apply grows_ValueNode_merge.
    + now apply grows_TypeNode_merge.
    + apply grows_ListNode_merge.
Qed.

(** X3.  A merge only adds: whatever the two nodes are, and whether the
    call returns or raises, it allocates and removes no object; every
    object keeps its class, a scalar its type, value and key, a list its
    element type, an object its type, otype, snippet and ref; a [nullable]
    that was true stays true; an object keeps its attribute names in their
    order, new ones coming after them; and the output is only appended
    to. *)
Theorem merge_only_grows (depth : nat) (self other : loc) (s : store) :
  grows s (snd (merge depth self other s)).
Proof. apply grows_merge. Qed.

(** ** Reasoning about computations *)

Lemma wp_ret {St A} (a : A) (Q : A -> St -> Prop) (E : exn -> St -> Prop)
    (s : St) :
  Q a s -> wp (ret a) Q E s.
Proof. intros H. exact H. Qed.

Lemma wp_raise {St A} (e : exn) (Q : A -> St -> Prop) (E : exn -> St -> Prop)
    (s : St) :
  E e s -> wp (@raise St A e) Q E s.
Proof. intros H. exact H. Qed.

Lemma wp_bind {St A B} (m : M St A) (k : A -> M St B) (Q : B -> St -> Prop)
    (E : exn -> St -> Prop) (s : St) :
  wp m (fun a s' => wp (k a) Q E s') E s -> wp (bind m k) Q E s.
Proof. unfold wp, bind. now destruct (m s) as [[a|e] s']. Qed.

Lemma wp_step {St A B} (m : M St A) (k : A -> M St B) (Q : B -> St -> Prop)
    (E : exn -> St -> Prop) (s s' : St) (a : A) :
  m s = (Return a, s') -> wp (k a) Q E s' -> wp (bind m k) Q E s.
Proof. intros H. unfold wp, bind. now rewrite H. Qed.

Lemma wp_step_raise {St A B} (m : M St A) (k : A -> M St B)
    (Q : B -> St -> Prop) (E : exn -> St -> Prop) (s s' : St) (e : exn) :
  m s = (Raise e, s') -> E e s' -> wp (bind m k) Q E s.
Proof. intros H. unfold wp, bind. now rewrite H. Qed.

Lemma wp_eq {St A} (m : M St A) (Q : A -> St -> Prop) (E : exn -> St -> Prop)
    (s s' : St) (a : A) :
  m s = (Return a, s') -> Q a s' -> wp m Q E s.
Proof. intros H. unfold wp. now rewrite H. Qed.

Lemma wp_mono {St A} (m : M St A) (Q Q' : A -> St -> Prop)
    (E E' : exn -> St -> Prop) (s : St) :
  wp m Q E s ->
  (forall a s', Q a s' -> Q' a s') -> (forall e s', E e s' -> E' e s') ->
  wp m Q' E' s.
Proof. unfold wp. destruct (m s) as [[a|e] s']; auto. Qed.

Lemma wp_lift {A} (m : M store A) (Q : A -> world -> Prop)
    (E : exn -> world -> Prop) (w : world) :
  wp m (fun a s => Q a {| mem := s; type_registry := type_registry w |})
       (fun e s => E e {| mem := s; type_registry := type_registry w |})
       (mem w) ->
  wp (lift m) Q E w.
Proof. unfold wp, lift. now destruct (m (mem w)) as [[a|e] s]. Qed.

Lemma wp_for_each {St A} (I : St -> Prop) (E : exn -> St -> Prop)
    (xs : list A) (body : A -> M St unit) (s : St) :
  (forall x s, In x xs -> I s -> wp (body x) (fun _ s' => I s') E s) ->
  I s -> wp (for_each xs body) (fun _ s' => I s') E s.
Proof.
  revert s. induction xs as [|x xs IH]; intros s Hbody Hs; cbn [for_each].
  - exact Hs.
  - apply wp_bind. eapply wp_mono; [apply Hbody; [now left | exact Hs] | |auto].
    intros ? s' Hs'; cbn beta in *. apply IH; [|exact Hs'].
    intros y s0 Hy. apply Hbody. now right.
Qed.

(** The loop over [x.attributes.items()] of an object [x]: the body is run
    on the item at each position in turn, as long as the dictionary keeps
    its size. *)
Lemma wp_items_from (I : nat -> store -> Prop) (E : exn -> store -> Prop)
    (l : loc) (used : nat) (body : string -> loc -> M store unit)
    (pending : list (string * loc)) (i : nat) (s : store) :
  (forall j s, I j s -> E RuntimeError s) ->
  (forall j s, I j s -> exists t, objs s !! l = Some (TNode t)) ->
  (forall j s t k v,
     I j s -> objs s !! l = Some (TNode t) ->
     length (tn_attributes t) = used -> tn_attributes t !! j = Some (k, v) ->
     wp (body k v) (fun _ s' => I (S j) s') E s) ->
  i + length pending = used -> I i s ->
  wp (items_from (get_attributes l) used pending i body)
     (fun _ s' => I used s') E s.
Proof.
  intros Hrt Hl Hbody. revert i s.
  induction pending as [|p pending IH]; intros i s Hi Hs; cbn [items_from];
    destruct (Hl _ _ Hs) as [t Ht];
    (eapply wp_step; [apply (get_TypeNode_eq _ _ _ _ _ Ht)|]);
    destruct (length (tn_attributes t) =? used) eqn:Hlen; cbn [negb];
    try (apply wp_raise; eauto; fail); apply Nat.eqb_eq in Hlen.
  - apply wp_ret. cbn in Hi. rewrite Nat.add_0_r in Hi. now subst i.
  - cbn [length] in Hi.
    destruct (tn_attributes t !! i) as [[k v]|] eqn:Hk.
    + apply wp_bind.
      eapply wp_mono; [apply (Hbody _ _ _ _ _ Hs Ht Hlen Hk) | | auto].
      intros ? s' Hs'; cbn beta in *. apply IH; [lia | exact Hs'].
    + apply lookup_ge_None in Hk. lia.
Qed.

Lemma wp_for_items (I : nat -> store -> Prop) (E : exn -> store -> Prop)
    (l : loc) (body : string -> loc -> M store unit) (s : store)
    (t : TypeNode) :
  objs s !! l = Some (TNode t) ->
  (forall j s, I j s -> E RuntimeError s) ->
  (forall j s, I j s -> exists t, objs s !! l = Some (TNode t)) ->
  (forall j s t' k v,
     I j s -> objs s !! l = Some (TNode t') ->
     length (tn_attributes t') = length (tn_attributes t) ->
     tn_attributes t' !! j = Some (k, v) ->
     wp (body k v) (fun _ s' => I (S j) s') E s) ->
  I 0 s ->
  wp (for_items (get_attributes l) body)
     (fun _ s' => I (length (tn_attributes t)) s') E s.
Proof.
  intros Ht Hrt Hl Hbody Hs. unfold for_items.
  eapply wp_step; [apply (get_TypeNode_eq _ _ _ _ _ Ht)|].
  now apply wp_items_from.
Qed.

(** ** The nodes the parser builds *)

Lemma node_ok_mono (n m : nat) (x : node) :
  n <= m -> node_ok n x -> node_ok m x.
Proof.
  intros Hle. destruct x as [v|t|a]; cbn; [tauto| |].
  - intros [Hty Hall]. split; [exact Hty|].
    eapply Forall_impl; [exact Hall|]. cbn. intros; lia.
  - intros (e & He & Hlt). exists e. split; [exact He | lia].
Qed.

Lemma store_ok_length (cls : list class) (s : store) :
  store_ok cls s -> length (objs s) = length cls.
Proof. intros [<- _]. now rewrite length_map. Qed.

Lemma store_ok_class (cls : list class) (s : store) (l : loc) (n : node) :
  store_ok cls s -> objs s !! l = Some n -> cls !! l = Some (class_of n).
Proof. intros [<- _] H. now rewrite list_lookup_fmap, H. Qed.

Lemma store_ok_node (cls : list class) (s : store) (l : loc) (n : node) :
  store_ok cls s -> objs s !! l = Some n -> node_ok (length cls) n.
Proof.
  intros [_ Hall] H. rewrite Forall_lookup in Hall. exact (Hall _ _ H).
Qed.

Lemma store_ok_lookup (cls : list class) (s : store) (l : loc) :
  store_ok cls s -> l < length cls -> exists n, objs s !! l = Some n.
Proof.
  intros Hok Hl. rewrite <- (store_ok_length _ _ Hok) in Hl.
  destruct (lookup_lt_is_Some_2 _ _ Hl) as [n Hn]. now exists n.
Qed.

Lemma store_ok_TNode (cls : list class) (s : store) (l : loc) :
  store_ok cls s -> cls !! l = Some TypeNode_class ->
  exists t, objs s !! l = Some (TNode t).
Proof.
  intros Hok Hc. pose proof Hok as [Hcls _]. rewrite <- Hcls in Hc.
  rewrite list_lookup_fmap in Hc.
  destruct (objs s !! l) as [[v|t|a]|]; try discriminate. now exists t.
Qed.

Lemma store_ok_write (cls : list class) (s : store) (l : loc) (n n' : node) :
  store_ok cls s -> objs s !! l = Some n -> class_of n' = class_of n ->
  node_ok (length cls) n' ->
  store_ok cls {| objs := <[l := n']> (objs s); stdout := stdout s |}.
Proof.
  intros Hok Hl Hc Hn. pose proof Hok as [Hcls Hall]. split; cbn [objs].
  - rewrite list_fmap_insert, Hc. rewrite list_insert_id; [exact Hcls|].
    now rewrite list_lookup_fmap, Hl.
  - now apply Forall_insert.
Qed.

Lemma store_ok_alloc (cls : list class) (s : store) (n : node) :
  store_ok cls s -> node_ok (S (length cls)) n ->
  store_ok (cls ++ [class_of n])
    {| objs := objs s ++ [n]; stdout := stdout s |}.
Proof.
  intros [Hcls Hall] Hn. split; cbn [objs].
  - now rewrite map_app, Hcls.
  - rewrite length_app. cbn [length]. rewrite Nat.add_1_r.
    apply Forall_app. split; [|now constructor].
    eapply Forall_impl; [exact Hall|]. intros x. apply node_ok_mono. lia.
Qed.

Lemma node_ok_nullable (len : nat) (b : bool) (n : node) :
  node_ok len n -> node_ok len (node_with_nullable b n).
Proof. now destruct n. Qed.

Lemma class_of_nullable (b : bool) (n : node) :
  class_of (node_with_nullable b n) = class_of n.
Proof. now destruct n. Qed.

Lemma wp_set_nullable (cls : list class) (Q : unit -> store -> Prop)
    (E : exn -> store -> Prop) (l : loc) (b : bool) (s : store) :
  store_ok cls s -> l < length cls ->
  (forall s', store_ok cls s' -> Q tt s') ->
  wp (set_nullable l b) Q E s.
Proof.
  intros Hok Hl HQ. destruct (store_ok_lookup _ _ _ Hok Hl) as [n Hn].
  unfold wp. rewrite (set_nullable_eq _ _ _ _ Hn). cbn. apply HQ.
  eapply store_ok_write; eauto using class_of_nullable, node_ok_nullable,
    store_ok_node.
Qed.

Lemma wp_or_nullable {B} (cls : list class) (k : M store B)
    (Q : B -> store -> Prop) (E : exn -> store -> Prop) (self other : loc)
    (s : store) :
  store_ok cls s -> self < length cls -> other < length cls ->
  (forall s', store_ok cls s' -> wp k Q E s') ->
  wp (nullable <- py_or (get_nullable self) (get_nullable other) ;;
      set_nullable self nullable ;;; k) Q E s.
Proof.
  intros Hok Hself Hother Hk.
  destruct (store_ok_lookup _ _ _ Hok Hself) as [n Hn].
  destruct (store_ok_lookup _ _ _ Hok Hother) as [n' Hn'].
  assert (Hor : exists b, py_or (get_nullable self) (get_nullable other) s
                          = (Return b, s)).
  { unfold py_or. rewrite (bind_eq _ _ _ _ _ (get_nullable_eq _ _ _ Hn)).
    destruct (node_nullable n); [now exists true|].
    rewrite (get_nullable_eq _ _ _ Hn'). eauto. }
  destruct Hor as [b Hor]. eapply wp_step; [exact Hor|].
  apply wp_bind. apply (wp_set_nullable cls); auto.
Qed.

Lemma sset_in_range (len : nat) (key : string) (v : loc)
    (attrs : list (string * loc)) :
  v < len -> Forall (fun kv : string * loc => snd kv < len) attrs ->
  Forall (fun kv : string * loc => snd kv < len) (sset key v attrs).
Proof.
  intros Hv. unfold sset. induction 1 as [|[k x] d Hx Hd IH]; cbn.
  - now repeat constructor.
  - destruct (String.eqb k key); constructor; cbn in *; auto.
Qed.

Lemma sget_in_range (len : nat) (key : string) (v : loc)
    (attrs : list (string * loc)) :
  Forall (fun kv : string * loc => snd kv < len) attrs ->
  sget key attrs = Some v -> v < len.
Proof.
  intros Hall Hget. destruct (dict_get_In _ _ _ _ Hget) as (k' & Hin & _).
  rewrite Forall_forall in Hall. apply list_elem_of_In in Hin.
  exact (Hall _ Hin).
Qed.

Lemma wp_set_item (cls : list class) (Q : unit -> store -> Prop)
    (E : exn -> store -> Prop) (l : loc) (key : string) (v : loc)
    (s : store) :
  store_ok cls s -> cls !! l = Some TypeNode_class -> v < length cls ->
  (forall s', store_ok cls s' -> Q tt s') ->
  wp (set_item l key v) Q E s.
Proof.
  intros Hok Hl Hv HQ. destruct (store_ok_TNode _ _ _ Hok Hl) as [t Ht].
  unfold set_item, get_attributes.
  eapply wp_step; [apply (get_TypeNode_eq _ _ _ _ _ Ht)|].
  unfold wp. rewrite (set_attributes_eq _ _ _ _ Ht). cbn. apply HQ.
  eapply store_ok_write; [exact Hok | exact Ht | reflexivity|].
  destruct (store_ok_node _ _ _ _ Hok Ht) as [Hty Hall]. split; [exact Hty|].
  now apply sset_in_range.
Qed.

(** ** Merging the nodes the parser builds *)

Section MergeOk.
Variable cls : list class.


Lemma ValueNode_merge_ok (self other : loc) (s : store) (v : ValueNode) :
  store_ok cls s -> objs s !! self = Some (VNode v) -> other < length cls ->
  wp (ValueNode_merge self other) (merge_returns cls) (merge_fails cls) s.
Proof.
  intros Hok Hself Hother.
  assert (Hlt : self < length cls).
  { rewrite <- (store_ok_length _ _ Hok). eapply lookup_lt_Some; eauto. }
  destruct (store_ok_node _ _ _ _ Hok Hself) as [Hkey Hty].
  unfold ValueNode_merge.
  eapply wp_step; [apply (get_type_VNode _ _ _ Hself)|].
  destruct (vn_type v) as [ty|] eqn:Ety.
  2:{ apply wp_bind. apply (wp_set_nullable cls); auto.
      intros s' Hs'. now apply wp_ret. }
  eapply wp_step; [apply (get_key_VNode _ _ _ Hself)|]. rewrite Hkey.
  cbn [is_otype_or_snippet]. eapply wp_step; [reflexivity|].
  eapply wp_step; [apply (get_type_VNode _ _ _ Hself)|]. rewrite Ety.
  apply wp_bind.
  destruct (store_ok_lookup _ _ _ Hok Hother) as [[x|t|a] Hn].
  - eapply wp_step; [apply (get_type_VNode _ _ _ Hn)|].
    destruct (vn_type x) as [oty|].
    + destruct (negb _); [now apply wp_raise | now apply wp_ret].
    + apply (wp_set_nullable cls); auto. intros s' Hs'. now apply wp_ret.
  - eapply wp_step; [apply (get_type_TNode _ _ _ Hn)|].
    destruct (negb _); [now apply wp_raise | now apply wp_ret].
  - eapply wp_step_raise;
      [unfold get_type; now rewrite (bind_load _ _ _ _ Hn) | now split].
Qed.

Lemma ListNode_merge_ok (merge : loc -> loc -> M store loc)
    (self other : loc) (s : store) :
  store_ok cls s -> cls !! self = Some ListNode_class ->
  other < length cls ->
  wp (ListNode_merge merge self other) (merge_returns cls) (merge_fails cls) s.
Proof.
  intros Hok Hc Hother. unfold ListNode_merge.
  assert (Hself : self < length cls) by (eapply lookup_lt_Some; eauto).
  apply (wp_or_nullable cls); auto. intros s' Hs'.
  destruct (store_ok_lookup _ _ _ Hs' Hself) as [n Hn].
  pose proof (store_ok_class _ _ _ _ Hs' Hn) as Hc'.
  destruct n as [x|t|a]; cbn in Hc'; try congruence.
  eapply wp_step; [apply (get_element_type_eq _ _ _ Hn)|].
  rewrite is_not_ListNode_class. now apply wp_ret.
Qed.

Lemma TypeNode_merge_ok (merge : loc -> loc -> M store loc)
    (self other : loc) (s : store) :
  (forall a b s, store_ok cls s -> a < length cls -> b < length cls ->
                 wp (merge a b) (merge_returns cls) (merge_fails cls) s) ->
  store_ok cls s -> cls !! self = Some TypeNode_class ->
  other < length cls ->
  wp (TypeNode_merge merge self other) (merge_returns cls) (merge_fails cls) s.
Proof.
  intros Hmerge Hok Hc Hother. unfold TypeNode_merge.
  assert (Hself : self < length cls) by (eapply lookup_lt_Some; eauto).
  apply (wp_or_nullable cls); auto. clear s Hok. intros s Hok.
  destruct (store_ok_TNode _ _ _ Hok Hc) as [t Ht].
  destruct (store_ok_node _ _ _ _ Hok Ht) as [Hty Hattrs].
  destruct (store_ok_lookup _ _ _ Hok Hother) as [[x|u|a] Hn].
  - eapply wp_step; [apply (get_type_VNode _ _ _ Hn)|].
    destruct (vn_type x) as [oty|] eqn:Ety; [|now apply wp_ret].
    eapply wp_step; [apply (get_type_TNode _ _ _ Ht)|].
    destruct (negb _) eqn:Eneg.
    + eapply wp_step; [apply (get_TypeNode_eq _ _ _ _ _ Ht)|].
      now apply wp_raise.
    + apply negb_false_iff, opt_string_eqb_eq in Eneg.
      destruct (store_ok_node _ _ _ _ Hok Hn) as [_ Hx]. congruence.
  - eapply wp_step; [apply (get_type_TNode _ _ _ Hn)|].
    eapply wp_step; [apply (get_type_TNode _ _ _ Ht)|].
    destruct (negb _).
    { eapply wp_step; [apply (get_TypeNode_eq _ _ _ _ _ Ht)|].
      now apply wp_raise. }
    pose proof (store_ok_class _ _ _ _ Hok Hn) as Hco. cbn in Hco.
    assert (Hdiffer : exists b,
              py_or (a <- get_otype self ;; b <- get_otype other ;;
                     ret (negb (py_eq_opt a b)))
                    (a <- get_snippet self ;; b <- get_snippet other ;;
                     ret (negb (Bool.eqb a b))) s = (Return b, s)).
    { unfold py_or, get_otype, get_snippet, bind, ret.
      rewrite (get_TypeNode_eq "otype" tn_otype _ _ _ Ht).
      rewrite (get_TypeNode_eq "otype" tn_otype _ _ _ Hn).
      destruct (negb (py_eq_opt _ _)); [eauto|].
      rewrite (get_TypeNode_eq "snippet" tn_snippet _ _ _ Ht).
      rewrite (get_TypeNode_eq "snippet" tn_snippet _ _ _ Hn). eauto. }
    destruct Hdiffer as [differ Hdiffer]. eapply wp_step; [exact Hdiffer|].
    apply wp_bind.
    apply wp_mono with (Q := fun _ s' => store_ok cls s')
                       (E := merge_fails cls);
      [| |auto].
    { destruct differ; [|now apply wp_ret]. unfold get_otype, get_snippet.
      eapply wp_step; [apply (get_TypeNode_eq _ _ _ _ _ Ht)|].
      eapply wp_step; [apply (get_TypeNode_eq _ _ _ _ _ Ht)|].
      eapply wp_step; [apply (get_TypeNode_eq _ _ _ _ _ Hn)|].
      eapply wp_step; [apply (get_TypeNode_eq _ _ _ _ _ Hn)|].
      unfold wp, print. cbn. destruct Hok as [Hcls Hall]. now split. }
    clear s Hok t Ht Hty Hattrs u Hn Hdiffer. intros _ s Hok.
    destruct (store_ok_TNode _ _ _ Hok Hc) as [t Ht].
    apply wp_bind.
    eapply wp_mono;
      [apply (wp_for_items (fun _ s => store_ok cls s) (merge_fails cls)
                self _ s t Ht)
      | |auto].
    + intros j s0 Hs0. now split.
    + intros j s0 Hs0. eapply store_ok_TNode; eauto.
    + intros j s0 t' k v Hs0 Ht' _ Hk.
      destruct (store_ok_TNode _ _ _ Hs0 Hco) as [u' Hu'].
      eapply wp_step; [apply (get_TypeNode_eq _ _ _ _ _ Hu')|].
      destruct (negb _); [|now apply wp_ret].
      apply (wp_set_nullable cls); auto.
      destruct (store_ok_node _ _ _ _ Hs0 Ht') as [_ Hall].
      rewrite Forall_lookup in Hall. exact (Hall _ _ Hk).
    + exact Hok.
    + clear s Hok t Ht. cbn beta. intros _ s Hok.
      destruct (store_ok_TNode _ _ _ Hok Hco) as [u Hu].
      apply wp_bind.
      eapply wp_mono;
        [apply (wp_for_items (fun _ s => store_ok cls s) (merge_fails cls)
                  other _ s u Hu)
        | |auto].
      * intros j s0 Hs0. now split.
      * intros j s0 Hs0. eapply store_ok_TNode; eauto.
      * intros j s0 u' k v Hs0 Hu' _ Hk.
        assert (Hv : v < length cls).
        { destruct (store_ok_node _ _ _ _ Hs0 Hu') as [_ Hall].
          rewrite Forall_lookup in Hall. exact (Hall _ _ Hk). }
        destruct (store_ok_TNode _ _ _ Hs0 Hc) as [t' Ht'].
        eapply wp_step; [apply (get_TypeNode_eq _ _ _ _ _ Ht')|].
        destruct (sget k (tn_attributes t')) as [mine|] eqn:Emine.
        -- apply wp_bind. eapply wp_mono; [apply Hmerge| |auto]; auto.
           ++ destruct (store_ok_node _ _ _ _ Hs0 Ht') as [_ Hall].
              eapply sget_in_range; eauto.
           ++ cbn beta. intros merged s1 [Hs1 Hmerged].
              apply (wp_set_item cls); auto.
        -- apply wp_bind. apply (wp_set_nullable cls); auto.
           intros s1 Hs1. apply (wp_set_item cls); auto.
      * exact Hok.
      * cbn beta. intros _ s1 Hs1. apply wp_ret. now split.
  - eapply wp_step_raise;
      [unfold get_type; now rewrite (bind_load _ _ _ _ Hn) | now split].
Qed.

Lemma merge_ok (depth : nat) (self other : loc) (s : store) :
  store_ok cls s -> self < length cls -> other < length cls ->
  wp (merge depth self other) (merge_returns cls) (merge_fails cls) s.
Proof.
  revert self other s.
  induction depth as [|depth IH]; intros self other s Hok Hself Hother.
  - apply wp_raise. now split.
  - cbn [merge]. destruct (store_ok_lookup _ _ _ Hok Hself) as [n Hn].
    eapply wp_step; [apply (load_eq _ _ _ Hn)|].
    pose proof (store_ok_class _ _ _ _ Hok Hn) as Hc.
    destruct n as [v|t|a]; cbn in Hc.
    + eapply ValueNode_merge_ok; eauto.
    + apply TypeNode_merge_ok; auto.
    + apply ListNode_merge_ok; auto.
Qed.
End MergeOk.

(** ** The actions on the nodes the parser builds *)

Lemma merge_raises_action (e : exn) : merge_raises e -> action_raises e.
Proof.
  intros H. split; [|intros ->; exact H].
  destruct e as [[]| | | | | |]; cbn in *; tauto.
Qed.

Lemma wp_and {St A} (m : M St A) (Q : A -> St -> Prop)
    (E : exn -> St -> Prop) (F : St -> Prop) (s : St) :
  wp m Q E s -> F (snd (m s)) ->
  wp m (fun a s' => Q a s' /\ F s') (fun e s' => E e s' /\ F s') s.
Proof. unfold wp. destruct (m s) as [[a|e] s']; cbn; auto. Qed.

Lemma world_ok_with_store (cls more : list class) (w : world) (s : store) :
  world_ok_with cls w -> store_ok (cls ++ more) s ->
  world_ok_with (cls ++ more) {| mem := s; type_registry := type_registry w |}.
Proof.
  intros (_ & Hinv & Hentries) Hs. split; [exact Hs|]. split; [exact Hinv|].
  cbn [type_registry]. eapply Forall_impl; [exact Hentries|].
  intros kl Hkl. cbn beta in *. now apply lookup_app_l_Some.
Qed.

Lemma world_ok_with_store_same (cls : list class) (w : world) (s : store) :
  world_ok_with cls w -> store_ok cls s ->
  world_ok_with cls {| mem := s; type_registry := type_registry w |}.
Proof.
  intros Hw Hs. rewrite <- (app_nil_r cls). apply world_ok_with_store; auto.
  now rewrite app_nil_r.
Qed.

Lemma wp_lift_ok {A} (cls : list class) (m : M store A) (F : A -> Prop)
    (P : exn -> Prop) (w : world) :
  world_ok_with cls w ->
  wp m (fun a s' => store_ok cls s' /\ F a)
       (fun e s' => store_ok cls s' /\ P e) (mem w) ->
  wp (lift m) (fun a w' => world_ok_with cls w' /\ F a)
              (fun e w' => world_ok_with cls w' /\ P e) w.
Proof.
  intros Hw H. apply wp_lift. eapply wp_mono; [exact H| |]; cbn beta;
    intros x s' [Hs' Hx]; split; auto using world_ok_with_store_same.
Qed.

Lemma register_type_grows (otype : option literal) (snippet : bool)
    (type_node : loc) (w : world) :
  grows (mem w) (mem (snd (register_type otype snippet type_node w))).
Proof.
  destruct (dict_get key_eqb (otype, snippet) (types (type_registry w)))
    as [existing|] eqn:Ek.
  - rewrite (register_type_existing _ _ _ _ _ Ek).
    generalize recursion_limit. intros depth.
    pose proof (grows_merge depth existing type_node (mem w)) as H.
    destruct (merge depth existing type_node (mem w)) as [[r|e] s]; exact H.
  - unfold register_type, get_registry, put_registry, bind. rewrite Ek.
    cbn [snd mem]. apply grows_refl.
Qed.

Lemma register_type_ok (cls : list class) (otype : option literal)
    (snippet : bool) (type_node : loc) (w : world) :
  world_ok_with cls w -> cls !! type_node = Some TypeNode_class ->
  wp (register_type otype snippet type_node)
     (fun _ w' => world_ok_with cls w')
     (fun e w' => world_ok_with cls w' /\ merge_raises e) w.
Proof.
  intros Hw Hc. pose proof Hw as (Hs & Hinv & Hentries). unfold wp.
  destruct (dict_get key_eqb (otype, snippet) (types (type_registry w)))
    as [existing|] eqn:Ek.
  - rewrite (register_type_existing _ _ _ _ _ Ek).
    assert (Hex : existing < length cls).
    { destruct (dict_get_In _ _ _ _ Ek) as (k' & Hin & _).
      rewrite Forall_forall in Hentries. apply list_elem_of_In in Hin.
      specialize (Hentries _ Hin). cbn in Hentries.
      eapply lookup_lt_Some; eauto. }
    assert (Hty : type_node < length cls) by (eapply lookup_lt_Some; eauto).
    generalize recursion_limit. intros depth.
    pose proof (merge_ok cls depth existing type_node (mem w) Hs Hex Hty) as H.
    unfold wp in H.
    destruct (merge depth existing type_node (mem w)) as [[r|e] s].
    + destruct H as [H _]. now apply world_ok_with_store_same.
    + destruct H as [H He]. split; [|exact He].
      now apply world_ok_with_store_same.
  - rewrite (register_type_new _ _ _ _ Hinv Ek). split; [|split]; cbn.
    + exact Hs.
    + now apply (registry_inv_insert _ (otype, snippet)).
    + apply Forall_app. split; [exact Hentries|]. now repeat constructor.
Qed.

Lemma set_ref_then_clear_ok (cls : list class) (l : loc) (r : option string)
    (E : exn -> world -> Prop) (w : world) :
  world_ok_with cls w -> cls !! l = Some TypeNode_class ->
  wp (lift (set_ref l r) ;;; lift (set_attributes l []))
     (fun _ w' => world_ok_with cls w') E w.
Proof.
  intros Hw Hc. pose proof Hw as (Hs & _).
  destruct (store_ok_TNode _ _ _ Hs Hc) as [t Ht].
  unfold wp. rewrite (set_ref_then_clear _ _ _ _ Ht).
  apply world_ok_with_store_same; [exact Hw|].
  eapply store_ok_write; [exact Hs | exact Ht | reflexivity|].
  destruct (store_ok_node _ _ _ _ Hs Ht) as [Hty _]. split; [exact Hty|].
  constructor.
Qed.

Lemma p_member_TypeNode_ok (cls : list class) (value : loc) (w : world) :
  world_ok_with cls w -> cls !! value = Some TypeNode_class ->
  wp (p_member_TypeNode value) (fun _ w' => world_ok_with cls w')
     (fun e w' => world_ok_with cls w' /\ merge_raises e) w.
Proof.
  intros Hw Hc. pose proof Hw as (Hs & _).
  destruct (store_ok_TNode _ _ _ Hs Hc) as [t Ht].
  unfold p_member_TypeNode, get_otype, get_snippet.
  eapply wp_step; [apply lift_pure, (get_TypeNode_eq _ _ _ _ _ Ht)|].
  eapply wp_step; [reflexivity|].
  destruct (truthy _); [now apply (set_ref_then_clear_ok cls)|].
  eapply wp_step; [apply lift_pure, (get_TypeNode_eq _ _ _ _ _ Ht)|].
  eapply wp_step; [apply lift_pure, (get_TypeNode_eq _ _ _ _ _ Ht)|].
  apply wp_bind. eapply wp_mono; [apply (register_type_ok cls); auto| |auto].
  cbn beta. clear w Hw Hs t Ht. intros _ w Hw. pose proof Hw as (Hs & _).
  destruct (store_ok_TNode _ _ _ Hs Hc) as [t Ht].
  eapply wp_step; [apply lift_pure, (get_TypeNode_eq _ _ _ _ _ Ht)|].
  eapply wp_step; [reflexivity|].
  now apply (set_ref_then_clear_ok cls).
Qed.

Lemma lift_set_ref_ok (cls : list class) (l : loc) (r : option string)
    (w : world) :
  world_ok_with cls w -> cls !! l = Some TypeNode_class ->
  exists w', lift (set_ref l r) w = (Return tt, w') /\ world_ok_with cls w' /\
             forall l', l' <> l -> objs (mem w') !! l' = objs (mem w) !! l'.
Proof.
  intros Hw Hc. pose proof Hw as (Hs & _).
  destruct (store_ok_TNode _ _ _ Hs Hc) as [t Ht].
  eexists. split; [apply lift_return, (set_ref_eq _ _ _ _ Ht)|]. split.
  - apply world_ok_with_store_same; [exact Hw|].
    eapply store_ok_write; [exact Hs | exact Ht | reflexivity|].
    exact (store_ok_node _ _ _ _ Hs Ht).
  - intros l' Hne. cbn. now apply list_lookup_insert_ne.
Qed.

Lemma lift_set_attributes_ok (cls : list class) (l : loc) (w : world) :
  world_ok_with cls w -> cls !! l = Some TypeNode_class ->
  exists w', lift (set_attributes l []) w = (Return tt, w') /\
             world_ok_with cls w'.
Proof.
  intros Hw Hc. pose proof Hw as (Hs & _).
  destruct (store_ok_TNode _ _ _ Hs Hc) as [t Ht].
  eexists. split; [apply lift_return, (set_attributes_eq _ _ _ _ Ht)|].
  apply world_ok_with_store_same; [exact Hw|].
  eapply store_ok_write; [exact Hs | exact Ht | reflexivity|].
  destruct (store_ok_node _ _ _ _ Hs Ht) as [Hty _]. split; [exact Hty|].
  constructor.
Qed.

Lemma p_member_ListNode_ok (cls : list class) (value : loc) (w : world) :
  world_ok_with cls w -> cls !! value = Some ListNode_class ->
  wp (p_member_ListNode value) (fun _ w' => world_ok_with cls w')
     (fun e w' => world_ok_with cls w' /\ merge_raises e) w.
Proof.
  intros Hw Hc. pose proof Hw as (Hs & _).
  assert (Hvalue : value < length cls) by (eapply lookup_lt_Some; eauto).
  destruct (store_ok_lookup _ _ _ Hs Hvalue) as [n Hn].
  pose proof (store_ok_class _ _ _ _ Hs Hn) as Hcn.
  destruct n as [x|x|a]; cbn in Hcn; try congruence.
  destruct (store_ok_node _ _ _ _ Hs Hn) as (e & He & Hlt).
  destruct (store_ok_lookup _ _ _ Hs Hlt) as [en Hen].
  unfold p_member_ListNode.
  eapply wp_step; [apply lift_pure, (get_element_type_eq _ _ _ Hn)|].
  rewrite He.
  eapply wp_step; [apply lift_pure, (get_class_eq _ _ _ Hen)|].
  pose proof (store_ok_class _ _ _ _ Hs Hen) as Hce.
  destruct en as [x|t|x]; cbn [class_of] in *; try now apply wp_ret.
  unfold get_otype, get_snippet.
  eapply wp_step;
    [apply lift_pure, (element_field_eq _ _ _ _ _ _ _ Hn He Hen)|].
  eapply wp_step; [reflexivity|].
  destruct (truthy _).
  { eapply wp_step; [apply lift_pure, (the_element_type_eq _ _ _ _ Hn He)|].
    destruct (lift_set_ref_ok cls e (get_ref (type_registry w) (tn_otype t))
                w Hw Hce) as (w' & Hw' & Hok' & _).
    eapply wp_eq; [exact Hw' | exact Hok']. }
  eapply wp_step;
    [apply lift_pure, (element_field_eq _ _ _ _ _ _ _ Hn He Hen)|].
  eapply wp_step;
    [apply lift_pure, (element_field_eq _ _ _ _ _ _ _ Hn He Hen)|].
  eapply wp_step; [apply lift_pure, (the_element_type_eq _ _ _ _ Hn He)|].
  apply wp_bind.
  eapply wp_mono;
    [apply wp_and with (F := fun w' => grows (mem w) (mem w'));
     [apply (register_type_ok cls); auto | apply register_type_grows]
    | | cbn beta; tauto].
  cbn beta. intros _ w1 [Hw1 Hgrows]. pose proof Hw1 as (Hs1 & _).
  destruct Hgrows as (_ & Hnodes & _).
  destruct (Hnodes _ _ Hn) as (n1 & Hn1 & Hg).
  destruct n1 as [x|x|a1]; cbn in Hg; try contradiction.
  destruct Hg as [Hel _]. rewrite He in Hel.
  destruct (store_ok_TNode _ _ _ Hs1 Hce) as [t1 Ht1].
  eapply wp_step;
    [apply lift_pure, (element_field_eq _ _ _ _ _ _ _ Hn1 Hel Ht1)|].
  eapply wp_step; [reflexivity|].
  eapply wp_step; [apply lift_pure, (the_element_type_eq _ _ _ _ Hn1 Hel)|].
  destruct (lift_set_ref_ok cls e (get_ref (type_registry w1) (tn_otype t1))
              w1 Hw1 Hce) as (w2 & Hw2 & Hok2 & Hsame).
  eapply wp_step; [exact Hw2|].
  assert (Hne : value <> e) by congruence.
  rewrite <- (Hsame _ Hne) in Hn1.
  eapply wp_step; [apply lift_pure, (the_element_type_eq _ _ _ _ Hn1 Hel)|].
  destruct (lift_set_attributes_ok cls e w2 Hok2 Hce) as (w3 & Hw3 & Hok3).
  eapply wp_eq; [exact Hw3 | exact Hok3].
Qed.

Lemma wp_ext {St A} (m m' : M St A) (Q : A -> St -> Prop)
    (E : exn -> St -> Prop) (s : St) :
  m s = m' s -> wp m' Q E s -> wp m Q E s.
Proof. unfold wp. now intros ->. Qed.

Lemma p_member_ok (cls : list class) (key : string) (value : loc)
    (w : world) :
  world_ok_with cls w -> value < length cls ->
  wp (p_member key value)
     (fun member w' => world_ok_with cls w' /\ member = [(key, value)])
     (fun e w' => world_ok_with cls w' /\ merge_raises e) w.
Proof.
  intros Hw Hvalue. pose proof Hw as (Hs & _).
  destruct (store_ok_lookup _ _ _ Hs Hvalue) as [n Hn].
  pose proof (store_ok_class _ _ _ _ Hs Hn) as Hc.
  eapply wp_ext; [apply (p_member_eq _ _ _ _ Hn)|].
  apply wp_bind.
  apply wp_mono with (Q := fun _ w' => world_ok_with cls w')
                     (E := fun e w' => world_ok_with cls w' /\ merge_raises e);
    [| |auto].
  - destruct n as [x|x|x]; cbn [class_of] in *.
    + now apply wp_ret.
    + now apply p_member_TypeNode_ok.
    + now apply p_member_ListNode_ok.
  - cbn beta. intros _ w' Hw'. apply wp_ret. now split.
Qed.

Lemma in_range_mono (n m : nat) (attrs : list (string * loc)) :
  n <= m -> Forall (fun kv : string * loc => snd kv < n) attrs ->
  Forall (fun kv : string * loc => snd kv < m) attrs.
Proof.
  intros Hle H. eapply Forall_impl; [exact H|]. cbn. intros; lia.
Qed.

Lemma wp_at_attribute {St A} (key : string) (m : M St A)
    (Q : A -> St -> Prop) (E E' : exn -> St -> Prop) (s : St) :
  wp m Q E s ->
  (forall e s', E (TypeError e) s' -> E' (TypeError (AtAttribute key e)) s') ->
  (forall e s', E e s' -> (forall t, e <> TypeError t) -> E' e s') ->
  wp (at_attribute key m) Q E' s.
Proof.
  unfold wp, at_attribute. intros H Hty Hother.
  destruct (m s) as [[a|e] s']; [exact H|].
  destruct e as [t| | | | | |]; try (apply Hother; [exact H | congruence]).
  now apply Hty.
Qed.

Lemma p_members_multiple_ok (cls : list class) (p1 p3 : list (string * loc))
    (s : store) :
  store_ok cls s ->
  Forall (fun kv : string * loc => snd kv < length cls) p1 ->
  Forall (fun kv : string * loc => snd kv < length cls) p3 ->
  wp (p_members_multiple p1 p3)
     (fun p0 s' => store_ok cls s' /\
                   Forall (fun kv : string * loc => snd kv < length cls) p0)
     (fun e s' => store_ok cls s' /\ action_raises e) s.
Proof.
  intros Hs Hp1. revert p3 s Hs.
  induction Hp1 as [|[key value] p1 Hv _ IH]; intros p3 s Hs Hp3;
    cbn [p_members_multiple].
  - apply wp_ret. now split.
  - cbn [snd] in Hv. apply wp_bind.
    destruct (sget key p3) as [mine|] eqn:Emine.
    + apply wp_bind.
      generalize recursion_limit. intros depth.
      eapply wp_at_attribute with (E := merge_fails cls).
      * eapply wp_mono; [apply (merge_ok cls depth mine value s Hs)| |auto].
        -- eapply sget_in_range; eauto.
        -- exact Hv.
        -- cbn beta. intros merged s' [Hs' Hm]. apply wp_ret. apply IH; auto.
           now apply sset_in_range.
      * intros e s' [Hs' He]. split; [exact Hs'|]. split; [exact He|].
        discriminate.
      * intros e s' [Hs' He] _. split; [exact Hs'|].
        now apply merge_raises_action.
    + apply wp_ret. apply IH; auto. now apply sset_in_range.
Qed.

Lemma p_array_ok (cls : list class) (first : loc) (rest : list loc)
    (s : store) :
  store_ok cls s -> first < length cls ->
  Forall (fun l => l < length cls) rest ->
  wp (p_array (first :: rest))
     (fun l s' => store_ok (cls ++ [ListNode_class]) s' /\ l = length cls)
     (fun e s' => store_ok cls s' /\ action_raises e) s.
Proof.
  intros Hs Hfirst Hrest.
  destruct (store_ok_lookup _ _ _ Hs Hfirst) as [fn Hfn].
  assert (Hnodes : exists nodes,
            Forall2 (fun l n => objs s !! l = Some n) rest nodes).
  { induction Hrest as [|l rest Hl _ IH]; [now exists []|].
    destruct IH as [nodes IH].
    destruct (store_ok_lookup _ _ _ Hs Hl) as [n Hn].
    exists (n :: nodes). now constructor. }
  destruct Hnodes as [nodes Hnodes]. cbn [p_array].
  pose proof (p_array_loop s first rest fn nodes Hfn Hnodes) as Hloop.
  destruct (array_error fn nodes) as [e|] eqn:Ee.
  - eapply wp_step_raise; [exact Hloop|]. split; [exact Hs|].
    destruct (array_error_cases _ _ _ Ee) as [-> | ->]; now split.
  - eapply wp_step; [exact Hloop|]. unfold wp, alloc.
    rewrite (store_ok_length _ _ Hs). split; [|reflexivity].
    apply (store_ok_alloc cls s (LNode {| ln_element_type := Some first;
                                          ln_nullable := false |}) Hs).
    exists first. split; [reflexivity | lia].
Qed.

Lemma new_ValueNode_ok (cls : list class) (t : option string)
    (v : option literal) (nullable : bool) (E : exn -> store -> Prop)
    (s : store) :
  store_ok cls s -> t <> Some "object" ->
  wp (new_ValueNode t v nullable)
     (fun l s' => store_ok (cls ++ [ValueNode_class]) s' /\ l = length cls)
     E s.
Proof.
  intros Hs Ht. unfold wp, new_ValueNode, alloc.
  rewrite (store_ok_length _ _ Hs). split; [|reflexivity].
  apply (store_ok_alloc cls s (VNode {| vn_type := t; vn_value := v;
                                        vn_nullable := nullable;
                                        vn_key := None |}) Hs).
  now split.
Qed.

(** ** Parsing keeps the nodes as the parser builds them *)

Lemma action_raises_fails (cls more : list class) (complete : bool) (e : exn)
    (w : world) :
  world_ok_with (cls ++ more) w -> action_raises e ->
  parse_fails cls complete e w.
Proof. intros Hw [He Hne]. split; [now exists more|]. now split. Qed.

Lemma world_ok_with_nil (cls : list class) (w : world) :
  world_ok_with cls w -> world_ok_with (cls ++ []) w.
Proof. now rewrite app_nil_r. Qed.

Lemma get_value_ok (cls : list class) (l : loc) (w : world)
    (Q : option literal -> world -> Prop) :
  world_ok_with cls w -> l < length cls ->
  (forall v, Q v w) ->
  wp (lift (get_value l)) Q
     (fun e w' => world_ok_with cls w' /\ action_raises e) w.
Proof.
  intros Hw Hl HQ. pose proof Hw as (Hs & _).
  destruct (store_ok_lookup _ _ _ Hs Hl) as [n Hn].
  destruct n as [x|x|x].
  - eapply wp_eq; [apply lift_pure, (get_value_VNode _ _ _ Hn) | apply HQ].
  - unfold wp. rewrite lift_eq. unfold get_value.
    rewrite (bind_load _ _ _ _ Hn). cbn. rewrite ?store_eta, ?world_eta.
    split; [exact Hw|]. split; [cbn; tauto | discriminate].
  - unfold wp. rewrite lift_eq. unfold get_value.
    rewrite (bind_load _ _ _ _ Hn). cbn. rewrite ?store_eta, ?world_eta.
    split; [exact Hw|]. split; [cbn; tauto | discriminate].
Qed.

Lemma p_object_ok (cls : list class) (attributes : list (string * loc))
    (w : world) (complete : bool) :
  world_ok_with cls w ->
  Forall (fun kv : string * loc => snd kv < length cls) attributes ->
  wp (p_object attributes) (parse_returns cls) (parse_fails cls complete) w.
Proof.
  intros Hw Hattrs. unfold p_object.
  assert (Hfail : forall e w', world_ok_with cls w' /\ action_raises e ->
                               parse_fails cls complete e w').
  { intros e w' [Hw' He]. apply (action_raises_fails cls []); auto.
    now apply world_ok_with_nil. }
  apply wp_bind.
  apply wp_mono with (Q := fun _ w' => w' = w)
                     (E := fun e w' => world_ok_with cls w' /\ action_raises e);
    [| |exact Hfail].
  { destruct (sget "otype" attributes) as [otype_node|] eqn:Eo;
      [|now apply wp_ret].
    apply (get_value_ok cls); auto. eapply sget_in_range; eauto. }
  cbn beta. intros otype ? ->.
  apply wp_bind.
  apply wp_mono with (Q := fun _ w' => w' = w)
                     (E := fun e w' => world_ok_with cls w' /\ action_raises e);
    [| |exact Hfail].
  { destruct (sget "snippet" attributes) as [snippet_node|] eqn:Es;
      [|now apply wp_ret].
    apply wp_bind.
    eapply wp_mono;
      [apply (get_value_ok cls) with (Q := fun _ w' => w' = w); auto
      | |auto].
    - eapply sget_in_range; eauto.
    - cbn beta. intros v ? ->.
      assert (Hbad : wp (@raise world bool (TypeError (InvalidSnippet v)))
                       (fun _ w' => w' = w)
                       (fun e w' => world_ok_with cls w' /\ action_raises e) w).
      { apply wp_raise. split; [exact Hw|]. split; [exact I | discriminate]. }
      destruct v as [[x|x|x|[|]]|]; try exact Hbad; now apply wp_ret. }
  cbn beta. intros snippet ? ->.
  pose proof Hw as (Hs & _).
  set (t := {| tn_type := "object"; tn_attributes := attributes;
               tn_nullable := false; tn_otype := otype;
               tn_snippet := snippet; tn_ref := None |}).
  assert (Hs' : store_ok (cls ++ [TypeNode_class])
                  {| objs := objs (mem w) ++ [TNode t];
                     stdout := stdout (mem w) |}).
  { apply (store_ok_alloc cls (mem w) (TNode t) Hs). split; [reflexivity|].
    eapply in_range_mono; [|exact Hattrs]. lia. }
  pose proof (world_ok_with_store cls [TypeNode_class] w _ Hw Hs') as Hw'.
  eapply wp_step; [apply lift_return; reflexivity|].
  rewrite (store_ok_length _ _ Hs).
  assert (Hnew : (cls ++ [TypeNode_class]) !! length cls = Some TypeNode_class).
  { rewrite lookup_app_r by lia. now rewrite Nat.sub_diag. }
  assert (Hret : forall w1, world_ok_with (cls ++ [TypeNode_class]) w1 ->
                            parse_returns cls (length cls) w1).
  { intros w1 Hw1. exists [TypeNode_class]. split; [exact Hw1|].
    rewrite length_app. cbn. lia. }
  apply wp_bind. destruct otype as [o|].
  - eapply wp_mono;
      [apply (register_type_ok (cls ++ [TypeNode_class])); eauto| |].
    + cbn beta. intros _ w1 Hw1. apply wp_ret. auto.
    + intros e w1 [Hw1 He]. apply (action_raises_fails cls [TypeNode_class]);
        auto using merge_raises_action.
  - apply wp_ret. apply wp_ret. auto.
Qed.

Lemma parse_returns_scalar (cls : list class) (c : class) (m : M store loc)
    (complete : bool) (w : world) :
  world_ok_with cls w ->
  (forall E s, store_ok cls s ->
     wp m (fun l s' => store_ok (cls ++ [c]) s' /\ l = length cls) E s) ->
  wp (lift m) (parse_returns cls) (parse_fails cls complete) w.
Proof.
  intros Hw Hm. pose proof Hw as (Hs & _). apply wp_lift.
  eapply wp_mono; [apply (Hm (fun _ _ => False) _ Hs)| |contradiction].
  cbn beta. intros l s' [Hs' ->]. exists [c].
  split; [now apply world_ok_with_store|]. rewrite !length_app. cbn. lia.
Qed.

Lemma world_ok_with_app (cls more more' : list class) (w : world) :
  world_ok_with ((cls ++ more) ++ more') w ->
  world_ok_with (cls ++ more ++ more') w.
Proof. now rewrite app_assoc. Qed.

Lemma parse_fails_app (cls more : list class) (complete complete' : bool)
    (e : exn) (w : world) :
  parse_fails (cls ++ more) complete e w ->
  (complete' = true -> complete = true) ->
  parse_fails cls complete' e w.
Proof.
  intros ([more' Hw] & He & Hc) Himp. split; [|split; auto].
  exists (more ++ more'). now apply world_ok_with_app.
Qed.

Lemma value_ok (j : json) (cls : list class) (w : world) :
  world_ok_with cls w ->
  wp (value j) (parse_returns cls) (parse_fails cls (no_empty j)) w.
Proof.
  revert j cls w. fix IH 1.
  intros [members|elements|s|n|f| | |] cls w Hw; cbn [value].
  - apply wp_bind.
    apply wp_mono with
      (Q := fun attrs w' =>
              exists more, world_ok_with (cls ++ more) w' /\
                Forall (fun kv : string * loc => snd kv < length (cls ++ more))
                  attrs)
      (E := parse_fails cls (no_empty (JObject members))); [| |auto].
    + revert cls w Hw.
      induction members as [|[key j'] rest IHrest]; intros cls w Hw.
      { apply wp_raise. split; [exists []; now apply world_ok_with_nil|].
        split; [exact I | discriminate]. }
      apply wp_bind. eapply wp_mono; [apply (IH j' cls w Hw)| |].
      2:{ intros e w' He. eapply parse_fails_app with (more := []).
          - rewrite app_nil_r. exact He.
          - cbn. intros H. now apply andb_prop in H as [H _]. }
      cbn beta. intros v w1 (more1 & Hw1 & Hv).
      apply wp_bind.
      eapply wp_mono; [apply (p_member_ok _ key v w1 Hw1 Hv)| |].
      2:{ intros e w' [Hw' He]. apply (action_raises_fails cls more1); auto.
          now apply merge_raises_action. }
      cbn beta. intros member w2 [Hw2 ->].
      destruct rest as [|m rest].
      { apply wp_ret. exists more1. split; [exact Hw2|].
        now repeat constructor. }
      apply wp_bind. eapply wp_mono; [apply (IHrest _ w2 Hw2)| |].
      2:{ intros e w' He. eapply parse_fails_app; [exact He|].
          cbn. intros H. now apply andb_prop in H as [_ H]. }
      cbn beta. intros tail w3 (more2 & Hw3 & Htail).
      pose proof Hw3 as (Hs3 & _). apply wp_lift.
      eapply wp_mono;
        [apply (p_members_multiple_ok _ [(key, v)] tail _ Hs3)| |].
      * repeat constructor. cbn. rewrite length_app. lia.
      * exact Htail.
      * cbn beta. intros p0 s' [Hs' Hp0]. exists (more1 ++ more2).
        rewrite app_assoc. split; [|exact Hp0].
        now apply world_ok_with_store_same.
      * cbn beta. intros e s' [Hs' He].
        apply (action_raises_fails cls (more1 ++ more2)); [|exact He].
        rewrite app_assoc. now apply world_ok_with_store_same.
    + cbn beta. intros attrs w' (more & Hw' & Hattrs).
      eapply wp_mono; [apply (p_object_ok _ attrs w' true Hw' Hattrs)| |].
      * intros l w2 (more2 & Hw2 & Hl). exists (more ++ more2).
        rewrite app_assoc. now split.
      * intros e w2 He. eapply parse_fails_app; [exact He | auto].
  - apply wp_bind.
    apply wp_mono with
      (Q := fun nodes w' =>
              exists more, world_ok_with (cls ++ more) w' /\
                Forall (fun l => l < length (cls ++ more)) nodes /\
                nodes <> [])
      (E := parse_fails cls (no_empty (JArray elements))); [| |auto].
    + revert cls w Hw.
      induction elements as [|j' rest IHrest]; intros cls w Hw.
      { apply wp_raise. split; [exists []; now apply world_ok_with_nil|].
        split; [exact I | discriminate]. }
      apply wp_bind. eapply wp_mono; [apply (IH j' cls w Hw)| |].
      2:{ intros e w' He. eapply parse_fails_app with (more := []).
          - rewrite app_nil_r. exact He.
          - cbn. intros H. now apply andb_prop in H as [H _]. }
      cbn beta. intros v w1 (more1 & Hw1 & Hv).
      destruct rest as [|m rest].
      { apply wp_ret. exists more1. split; [exact Hw1|].
        split; [now repeat constructor | discriminate]. }
      apply wp_bind. eapply wp_mono; [apply (IHrest _ w1 Hw1)| |].
      2:{ intros e w' He. eapply parse_fails_app; [exact He|].
          cbn. intros H. now apply andb_prop in H as [_ H]. }
      cbn beta. intros tail w2 (more2 & Hw2 & Htail & _).
      apply wp_ret. exists (more1 ++ more2). rewrite app_assoc.
      split; [exact Hw2|]. split; [|discriminate].
      constructor; [rewrite length_app; lia | exact Htail].
    + cbn beta. intros nodes w' (more & Hw' & Hnodes & Hne).
      destruct nodes as [|first rest]; [congruence|].
      pose proof Hw' as (Hs' & _). apply Forall_cons in Hnodes as [Hf Hr].
      apply wp_lift.
      eapply wp_mono; [apply (p_array_ok _ first rest _ Hs' Hf Hr)| |].
      * cbn beta. intros l s2 [Hs2 ->]. exists (more ++ [ListNode_class]).
        rewrite app_assoc. split; [now apply world_ok_with_store|].
        rewrite !length_app. cbn. lia.
      * cbn beta. intros e s2 [Hs2 He].
        apply (action_raises_fails cls more); [|exact He].
        now apply world_ok_with_store_same.
  - apply (parse_returns_scalar cls ValueNode_class); [exact Hw|].
    intros E s0 Hs0. unfold p_value_string.
    destruct (fullmatch date_pattern s);
      now apply new_ValueNode_ok.
  - apply (parse_returns_scalar cls ValueNode_class); [exact Hw|].
    intros E s0 Hs0. now apply new_ValueNode_ok.
  - apply (parse_returns_scalar cls ValueNode_class); [exact Hw|].
    intros E s0 Hs0. now apply new_ValueNode_ok.
  - apply (parse_returns_scalar cls ValueNode_class); [exact Hw|].
    intros E s0 Hs0. now apply new_ValueNode_ok.
  - apply (parse_returns_scalar cls ValueNode_class); [exact Hw|].
    intros E s0 Hs0. now apply new_ValueNode_ok.
  - apply (parse_returns_scalar cls ValueNode_class); [exact Hw|].
    intros E s0 Hs0. now apply new_ValueNode_ok.
Qed.

(** ** Serialising the nodes the parser builds *)

Lemma world_ok_initial : world_ok initial_world.
Proof.
  exists []. split; [|split].
  - split; [reflexivity | constructor].
  - apply registry_inv_init.
  - constructor.
Qed.

Lemma ListNode_to_dict_ok (cls : list class) (s : store) (r : TypeRegistry)
    (depth : nat) (a : ListNode) :
  store_ok cls s -> node_ok (length cls) (LNode a) ->
  returns_or_too_deep (ListNode_to_dict depth s r a).
Proof.
  intros Hs. revert a. induction depth as [|depth IH]; intros a Ha;
    cbn [ListNode_to_dict]; [reflexivity|].
  destruct Ha as (e & -> & He).
  destruct (store_ok_lookup _ _ _ Hs He) as [n Hn]. rewrite Hn.
  destruct n as [x|x|a']; try exact I.
  pose proof (IH a' (store_ok_node _ _ _ _ Hs Hn)) as H.
  destruct (ListNode_to_dict depth s r a'); [exact I | exact H].
Qed.

Lemma attributes_to_dict_ok (cls : list class) (s : store) (r : TypeRegistry)
    (items : list (string * loc)) (result : list (string * pyobj)) :
  store_ok cls s ->
  Forall (fun kv : string * loc => snd kv < length cls) items ->
  returns_or_too_deep (attributes_to_dict s r items result).
Proof.
  intros Hs Hitems. revert result.
  induction Hitems as [|[key attr] items Hattr _ IH]; intros result;
    cbn [attributes_to_dict]; [exact I|].
  cbn [snd] in Hattr. destruct (store_ok_lookup _ _ _ Hs Hattr) as [n Hn].
  unfold attribute_to_dict. rewrite Hn. destruct n as [x|x|a]; cbn [obind].
  - apply IH.
  - apply IH.
  - generalize recursion_limit. intros depth.
    pose proof (ListNode_to_dict_ok cls s r depth a Hs
                  (store_ok_node _ _ _ _ Hs Hn)) as H.
    destruct (ListNode_to_dict depth s r a); [apply IH | exact H].
Qed.

Lemma TypeNode_to_dict_ok (cls : list class) (s : store) (r : TypeRegistry)
    (t : TypeNode) :
  store_ok cls s -> node_ok (length cls) (TNode t) ->
  returns_or_too_deep (TypeNode_to_dict s r t).
Proof.
  intros Hs [_ Hattrs]. unfold TypeNode_to_dict.
  destruct (tn_attributes t) as [|kv attrs] eqn:Et; [exact I|].
  pose proof (attributes_to_dict_ok cls s r (kv :: attrs) [] Hs Hattrs) as H.
  destruct (attributes_to_dict s r (kv :: attrs) []); [exact I | exact H].
Qed.

Lemma dict_mem_In {K V} (eqb : K -> K -> bool) (k : K) (v : V)
    (d : list (K * V)) :
  (forall x, eqb x x = true) -> In (k, v) d -> dict_mem eqb k d = true.
Proof.
  intros Hrefl. unfold dict_mem. induction d as [|[k' v'] d IH]; cbn;
    [contradiction|].
  intros [[= -> ->]|Hin]; [now rewrite Hrefl|].
  destruct (eqb k' k); [reflexivity | auto].
Qed.

Lemma registry_to_dict_ok (cls : list class) (s : store) (r : TypeRegistry)
    (items : list (regkey * loc)) (output : list (string * pyobj)) :
  store_ok cls s -> registry_inv r ->
  (forall kl, In kl items -> In kl (types r)) ->
  Forall (fun kl : regkey * loc => cls !! snd kl = Some TypeNode_class) items ->
  returns_or_too_deep (registry_to_dict s r items output).
Proof.
  intros Hs Hinv Hsub Hitems. revert output.
  induction Hitems as [|[key l] items Hl _ IH]; intros output;
    cbn [registry_to_dict]; [exact I|].
  destruct (dict_get key_eqb key (type_names r)) as [name|] eqn:Ename.
  2:{ exfalso. apply (registry_entry_named r key Hinv); [|exact Ename].
      apply (dict_mem_In key_eqb key l), Hsub; [apply key_eqb_refl|].
      now left. }
  cbn [snd] in Hl. destruct (store_ok_TNode _ _ _ Hs Hl) as [t Ht].
  rewrite Ht.
  pose proof (TypeNode_to_dict_ok cls s r t Hs (store_ok_node _ _ _ _ Hs Ht))
    as H.
  destruct (TypeNode_to_dict s r t); [|exact H]. cbn [obind].
  apply IH. intros kl Hkl. apply Hsub. now right.
Qed.

Lemma TypeRegistry_to_dict_ok (w : world) :
  world_ok w -> returns_or_too_deep (TypeRegistry_to_dict w).
Proof.
  intros (cls & Hs & Hinv & Hentries). unfold TypeRegistry_to_dict.
  now apply (registry_to_dict_ok cls).
Qed.

Lemma parse_all_ok (data_list : list json) (w : world) :
  world_ok w ->
  wp (parse_all data_list) (fun _ w' => world_ok w')
     (fun e w' => world_ok w' /\ parse_raises e /\
                  (forallb no_empty data_list = true -> e <> SyntaxError)) w.
Proof.
  intros Hw. unfold parse_all.
  apply (wp_for_each world_ok); [|exact Hw].
  intros data w0 Hin [cls Hw0]. apply wp_bind. unfold parse.
  eapply wp_mono; [apply (value_ok data cls w0 Hw0)| |].
  - cbn beta. intros l w1 (more & Hw1 & _). apply wp_ret.
    now exists (cls ++ more).
  - intros e w1 ([more Hw1] & He & Hc).
    split; [now exists (cls ++ more)|].
    split; [exact He|]. intros Hall. apply Hc.
    rewrite forallb_forall in Hall. now apply Hall.
Qed.

(** The state a run ends in, whether it returns or raises, is one the
    program can reach. *)
Lemma run_world_ok (data_list : list json) (w : world) :
  world_ok w -> world_ok (snd (run data_list w)).
Proof.
  intros Hw. pose proof (parse_all_ok data_list w Hw) as H.
  unfold run, wp, bind in *.
  destruct (parse_all data_list w) as [[[]|e] w1]; cbn [snd].
  - now destruct (TypeRegistry_to_dict w1).
  - apply H.
Qed.

(** X4.  A run started in a state the program can reach (such as that of
    the freshly loaded module) ends in such a state, whether it returns the
    schema or raises.  What it raises is one of: a [SyntaxError], and that
    only when some document has an empty array or object; the [TypeError]s
    of [p_array] (mixed element types, mixed object types) and of
    [p_object] (invalid snippet); the two [TypeError]s of [merge], alone or
    after [At attribute], which are the type mismatch naming the attribute
    [None] and the type mismatch for an otype; the [AttributeError]s for
    [type] on a list and for [value] on an object or a list; a
    [RuntimeError]; a [RecursionError].  It raises no [KeyError] and no
    value mismatch, and reads no field that an object lacks otherwise. *)
Theorem run_outcome (data_list : list json) (w : world) :
  world_ok w ->
  match run data_list w with
  | (Return _, w') => world_ok w'
  | (Raise e, w') =>
      world_ok w' /\ parse_raises e /\
      (forallb no_empty data_list = true -> e <> SyntaxError)
  end.
Proof.
  intros Hw. pose proof (parse_all_ok data_list w Hw) as H.
  unfold run, wp, bind in *.
  destruct (parse_all data_list w) as [[[]|e] w1]; [|exact H].
  pose proof (TypeRegistry_to_dict_ok w1 H) as Hd.
  destruct (TypeRegistry_to_dict w1) as [d|e]; [exact H|].
  cbn in Hd. subst e. split; [exact H|]. split; [exact I | discriminate].
Qed.

Lemma run_outcome_witness :
  match run [doc_scalar_then_object] (snd (run corpus_a initial_world)) with
  | (Return _, w') => world_ok w'
  | (Raise e, w') =>
      world_ok w' /\ parse_raises e /\
      (forallb no_empty [doc_scalar_then_object] = true -> e <> SyntaxError)
  end.
Proof.
  apply (run_outcome [doc_scalar_then_object]
           (snd (run corpus_a initial_world))).
  apply run_world_ok, world_ok_initial.
Defined.

(** X5.  In every state the program can reach, [TypeRegistry.to_dict]
    returns the schema, unless lists are nested deeper than the calls
    allowed: every key has a name, every entry is an object, and every list
    has an element to describe. *)
Theorem schema_is_defined (w : world) :
  world_ok w -> returns_or_too_deep (TypeRegistry_to_dict w).
Proof. apply TypeRegistry_to_dict_ok. Qed.

Lemma schema_is_defined_witness :
  returns_or_too_deep
    (TypeRegistry_to_dict
       (snd (run [person_bob; JArray [person_alice; person_charlie]]
               initial_world))).
Proof.
  apply (schema_is_defined
           (snd (run [person_bob; JArray [person_alice; person_charlie]]
                   initial_world))).
  apply run_world_ok, world_ok_initial.
Defined.

(** ** The attributes of a merged object *)

Lemma wp_bind_returns {St A B} (m : M St A) (k : A -> M St B)
    (Q : B -> St -> Prop) (s : St) :
  (forall a s1, m s = (Return a, s1) -> wp (k a) Q any_exn s1) ->
  wp (bind m k) Q any_exn s.
Proof.
  intros H. unfold wp, bind. destruct (m s) as [[a|e] s1] eqn:Em; [|exact I].
  exact (H a s1 eq_refl).
Qed.

Lemma wp_bind_reads {St A B} (m : M St A) (k : A -> M St B)
    (Q : B -> St -> Prop) (s : St) :
  reads m -> (forall a, wp (k a) Q any_exn s) -> wp (bind m k) Q any_exn s.
Proof.
  intros Hm H. apply wp_bind_returns. intros a s1 Heq.
  unfold reads in Hm. specialize (Hm s). rewrite Heq in Hm. cbn in Hm.
  subst s1. apply H.
Qed.

Lemma wp_returns {St A} (m : M St A) (Q : A -> St -> Prop) (s s' : St)
    (a : A) :
  wp m Q any_exn s -> m s = (Return a, s') -> Q a s'.
Proof. unfold wp. intros H Heq. now rewrite Heq in H. Qed.

Lemma wp_items_from_returns (I : nat -> store -> Prop) (l : loc) (used : nat)
    (body : string -> loc -> M store unit) (pending : list (string * loc))
    (i : nat) (s : store) :
  (forall j s attrs k v,
     I j s -> attrs_of s l = Some attrs -> length attrs = used ->
     attrs !! j = Some (k, v) ->
     wp (body k v) (fun _ s' => I (S j) s') any_exn s) ->
  i + length pending = used -> I i s ->
  wp (items_from (get_attributes l) used pending i body)
     (fun _ s' => I used s') any_exn s.
Proof.
  intros Hbody. revert i s.
  induction pending as [|p pending IH]; intros i s Hi Hs; cbn [items_from];
    apply wp_bind_returns; intros cur s1 Hcur;
    apply get_TypeNode_inv in Hcur as (t & Ht & -> & ->);
    destruct (length (tn_attributes t) =? used) eqn:Hlen; cbn [negb];
    try (apply wp_raise; exact Logic.I); apply Nat.eqb_eq in Hlen.
  - apply wp_ret. cbn in Hi. rewrite Nat.add_0_r in Hi. now subst i.
  - cbn [length] in Hi.
    destruct (tn_attributes t !! i) as [[k v]|] eqn:Hk.
    + apply wp_bind.
      eapply wp_mono; [apply (Hbody i s (tn_attributes t) k v Hs)| |auto];
        auto.
      * unfold attrs_of. now rewrite Ht.
      * cbn beta. intros ? s' Hs'. apply IH; [lia | exact Hs'].
    + apply lookup_ge_None in Hk. lia.
Qed.

Lemma wp_for_items_returns (I : nat -> store -> Prop) (l : loc)
    (body : string -> loc -> M store unit) (s : store)
    (attrs0 : list (string * loc)) :
  attrs_of s l = Some attrs0 ->
  (forall j s attrs k v,
     I j s -> attrs_of s l = Some attrs -> length attrs = length attrs0 ->
     attrs !! j = Some (k, v) ->
     wp (body k v) (fun _ s' => I (S j) s') any_exn s) ->
  I 0 s ->
  wp (for_items (get_attributes l) body)
     (fun _ s' => I (length attrs0) s') any_exn s.
Proof.
  intros Hattrs Hbody Hs. unfold for_items.
  apply wp_bind_returns. intros first s1 Hfirst.
  apply get_TypeNode_inv in Hfirst as (t & Ht & -> & ->).
  unfold attrs_of in Hattrs. rewrite Ht in Hattrs. injection Hattrs as <-.
  now apply wp_items_from_returns.
Qed.

Lemma smem_In {V} (k : string) (d : list (string * V)) :
  smem k d = true <-> In k (map fst d).
Proof.
  unfold smem, dict_mem. induction d as [|[k' v] d IH]; cbn.
  - split; [discriminate | contradiction].
  - destruct (String.eqb k' k) eqn:E.
    + apply String.eqb_eq in E. tauto.
    + apply String.eqb_neq in E. rewrite IH. split; [tauto|].
      now intros [|].
Qed.

Lemma sget_lookup_ex {V} (k : string) (a : V) (d : list (string * V)) :
  sget k d = Some a -> exists i, d !! i = Some (k, a).
Proof.
  unfold sget. induction d as [|[k' v] d IH]; cbn; [discriminate|].
  destruct (String.eqb k' k) eqn:E.
  - apply String.eqb_eq in E. intros [= ->]. subst. now exists 0.
  - intros H. destruct (IH H) as [i Hi]. now exists (S i).
Qed.

Lemma sget_smem {V} (k : string) (a : V) (d : list (string * V)) :
  sget k d = Some a -> smem k d = true.
Proof. unfold sget, smem, dict_mem. now intros ->. Qed.

Lemma smem_lookup {V} (k : string) (d : list (string * V)) :
  smem k d = true -> exists i a, d !! i = Some (k, a).
Proof.
  unfold smem, dict_mem. destruct (dict_get String.eqb k d) as [a|] eqn:E;
    [|discriminate].
  intros _. destruct (sget_lookup_ex k a d E) as [i Hi]. eauto.
Qed.

Lemma smem_keys {V W} (k : string) (d : list (string * V))
    (d' : list (string * W)) (more : list string) :
  map fst d' = map fst d ++ more -> smem k d = true -> smem k d' = true.
Proof.
  intros Hkeys. rewrite !smem_In, Hkeys, in_app_iff. tauto.
Qed.

Lemma nullable_at_grows (s s' : store) (l : loc) :
  grows s s' -> nullable_at s l -> nullable_at s' l.
Proof.
  intros (_ & Hnodes & _) (n & Hn & Hflag).
  destruct (Hnodes _ _ Hn) as (n' & Hn' & Hg). exists n'. split; [exact Hn'|].
  destruct n as [x|x|x], n' as [y|y|y]; cbn in *; try contradiction;
    intuition.
Qed.

Lemma attrs_of_grows (s s' : store) (l : loc) (attrs : list (string * loc)) :
  grows s s' -> attrs_of s l = Some attrs ->
  exists attrs' more,
    attrs_of s' l = Some attrs' /\ map fst attrs' = map fst attrs ++ more.
Proof.
  intros (_ & Hnodes & _). unfold attrs_of.
  destruct (objs s !! l) as [[x|t|x]|] eqn:Hl; try discriminate.
  intros [= <-]. destruct (Hnodes _ _ Hl) as (n' & Hn' & Hg). rewrite Hn'.
  destruct n' as [y|t'|y]; cbn in Hg; try contradiction.
  destruct Hg as (_ & _ & _ & _ & _ & more & Hmore). eauto.
Qed.

Lemma attrs_of_TNode (s : store) (l : loc) (attrs : list (string * loc)) :
  attrs_of s l = Some attrs ->
  exists t, objs s !! l = Some (TNode t) /\ tn_attributes t = attrs.
Proof.
  unfold attrs_of. destruct (objs s !! l) as [[x|t|x]|]; try discriminate.
  intros [= <-]. eauto.
Qed.

Lemma set_nullable_inv (l : loc) (b : bool) (s s' : store) :
  set_nullable l b s = (Return tt, s') ->
  exists n, objs s !! l = Some n /\
            s' = {| objs := <[l := node_with_nullable b n]> (objs s);
                    stdout := stdout s |}.
Proof.
  unfold set_nullable. intros H. apply bind_inv in H as (n & s1 & Hn & H).
  apply load_inv in Hn as [Hn ->]. injection H as <-. eauto.
Qed.

Lemma set_item_inv (l : loc) (key : string) (v : loc) (s s' : store) :
  set_item l key v s = (Return tt, s') ->
  exists t, objs s !! l = Some (TNode t) /\
            s' = {| objs := <[l := TNode (with_attributes
                                            (sset key v (tn_attributes t)) t)]>
                              (objs s);
                    stdout := stdout s |}.
Proof.
  unfold set_item, get_attributes. intros H.
  apply bind_inv in H as (attrs & s1 & Hattrs & H).
  apply get_TypeNode_inv in Hattrs as (t & Ht & -> & ->).
  rewrite (set_attributes_eq _ _ _ _ Ht) in H. injection H as <-. eauto.
Qed.

(** Setting a flag changes no attribute map. *)
Lemma attrs_of_flag (s : store) (l x : loc) (n : node) (b : bool) :
  objs s !! l = Some n ->
  attrs_of {| objs := <[l := node_with_nullable b n]> (objs s);
              stdout := stdout s |} x
  = attrs_of s x.
Proof.
  intros Hl. unfold attrs_of. cbn [objs].
  destruct (Nat.eq_dec x l) as [->|Hne].
  - rewrite list_lookup_insert_eq by (eapply lookup_lt_Some; eauto).
    rewrite Hl. now destruct n.
  - now rewrite list_lookup_insert_ne by congruence.
Qed.

Lemma nullable_at_flag (s : store) (l a : loc) (n : node) (b : bool) :
  objs s !! l = Some n -> (node_nullable n = true -> b = true) ->
  nullable_at s a ->
  nullable_at {| objs := <[l := node_with_nullable b n]> (objs s);
                 stdout := stdout s |} a.
Proof.
  intros Hl Hb (n' & Hn' & Hflag). unfold nullable_at. cbn [objs].
  destruct (Nat.eq_dec a l) as [->|Hne].
  - rewrite list_lookup_insert_eq by (eapply lookup_lt_Some; eauto).
    eexists. split; [reflexivity|]. rewrite Hl in Hn'. injection Hn' as <-.
    rewrite (Hb Hflag). now destruct n.
  - rewrite list_lookup_insert_ne by congruence. eauto.
Qed.

Lemma nullable_at_set (s : store) (l : loc) (n : node) :
  objs s !! l = Some n ->
  nullable_at {| objs := <[l := node_with_nullable true n]> (objs s);
                 stdout := stdout s |} l.
Proof.
  intros Hl. unfold nullable_at. cbn [objs].
  rewrite list_lookup_insert_eq by (eapply lookup_lt_Some; eauto).
  eexists. split; [reflexivity|]. now destruct n.
Qed.

Section KeepsNullable.
Variable names : string -> Prop.
Variable x : loc.

Lemma attrs_nullable_flag (s : store) (l : loc) (n : node) (b : bool) :
  objs s !! l = Some n -> (node_nullable n = true -> b = true) ->
  attrs_nullable names x s ->
  attrs_nullable names x {| objs := <[l := node_with_nullable b n]> (objs s);
                        stdout := stdout s |}.
Proof.
  intros Hl Hb HJ attrs k a Hattrs Hk Hget.
  rewrite (attrs_of_flag _ _ _ _ _ Hl) in Hattrs.
  apply nullable_at_flag; eauto.
Qed.

Lemma attrs_nullable_set_nullable (l : loc) (s s' : store) :
  set_nullable l true s = (Return tt, s') ->
  attrs_nullable names x s -> attrs_nullable names x s' /\ nullable_at s' l.
Proof.
  intros H HJ. apply set_nullable_inv in H as (n & Hn & ->).
  split; [now apply attrs_nullable_flag | now apply nullable_at_set].
Qed.

Lemma attrs_nullable_set_item (l : loc) (key : string) (v : loc)
    (s s' : store) :
  set_item l key v s = (Return tt, s') ->
  (l = x -> names key -> nullable_at s v) ->
  attrs_nullable names x s -> attrs_nullable names x s'.
Proof.
  intros H Hv HJ. apply set_item_inv in H as (t & Ht & ->).
  assert (Hlt : l < length (objs s)) by (eapply lookup_lt_Some; eauto).
  assert (Hflags : forall a, nullable_at s a ->
            nullable_at {| objs := <[l := TNode (with_attributes
                                      (sset key v (tn_attributes t)) t)]>
                                     (objs s);
                           stdout := stdout s |} a).
  { intros a (n & Hn & Hflag). unfold nullable_at. cbn [objs].
    destruct (Nat.eq_dec a l) as [->|Hne].
    - rewrite list_lookup_insert_eq by exact Hlt. eexists.
      split; [reflexivity|]. rewrite Ht in Hn. now injection Hn as <-.
    - rewrite list_lookup_insert_ne by congruence. eauto. }
  intros attrs k a Hattrs Hk Hget. apply Hflags.
  unfold attrs_of in Hattrs. cbn [objs] in Hattrs.
  destruct (Nat.eq_dec x l) as [->|Hne].
  - rewrite list_lookup_insert_eq in Hattrs by exact Hlt.
    injection Hattrs as <-. cbn [with_attributes tn_attributes] in Hget.
    rewrite sget_sset in Hget. destruct (String.eqb key k) eqn:E.
    + apply String.eqb_eq in E. subst k. injection Hget as <-. now apply Hv.
    + apply (HJ (tn_attributes t) k a); auto. unfold attrs_of. now rewrite Ht.
  - rewrite list_lookup_insert_ne in Hattrs by congruence.
    apply (HJ attrs k a); auto.
Qed.

Lemma attrs_nullable_or_nullable {B} (k : M store B) (Q : B -> store -> Prop)
    (self other : loc) (s : store) :
  attrs_nullable names x s ->
  (forall s', attrs_nullable names x s' -> grows s s' -> wp k Q any_exn s') ->
  wp (nullable <- py_or (get_nullable self) (get_nullable other) ;;
      set_nullable self nullable ;;; k) Q any_exn s.
Proof.
  intros HJ Hk. apply wp_bind_returns. intros b s1 Hor.
  assert (Hb : s1 = s /\ forall n, objs s !! self = Some n ->
                                   node_nullable n = true -> b = true).
  { unfold py_or in Hor. apply bind_inv in Hor as (b1 & s2 & H1 & H2).
    unfold get_nullable in H1. apply bind_inv in H1 as (n & s3 & Hn & H1).
    apply load_inv in Hn as [Hn ->]. injection H1 as <- <-.
    destruct (node_nullable n) eqn:Hflag.
    - injection H2 as <- <-. split; [reflexivity|]. congruence.
    - unfold get_nullable in H2. apply bind_inv in H2 as (n' & s3 & Hn' & H2).
      apply load_inv in Hn' as [Hn' ->]. injection H2 as <- <-.
      split; [reflexivity|]. intros n0 Hn0. congruence. }
  destruct Hb as [-> Hb]. apply wp_bind_returns. intros [] s1 Hset.
  pose proof (grows_or_nullable self other s) as Hg.
  unfold bind in Hg. rewrite Hor, Hset in Hg. cbn [snd] in Hg.
  apply set_nullable_inv in Hset as (n & Hn & ->).
  apply Hk; [|exact Hg]. apply attrs_nullable_flag; eauto.
Qed.

Lemma ValueNode_merge_keeps (self other : loc) (s : store) :
  attrs_nullable names x s ->
  wp (ValueNode_merge self other)
     (fun r s' => attrs_nullable names x s' /\ (r = self \/ nullable_at s' r))
     any_exn s.
Proof.
  intros HJ. unfold ValueNode_merge.
  assert (Hset : forall l r,
            (r = self \/ r = l) ->
            wp (set_nullable l true ;;; ret r)
               (fun r s' => attrs_nullable names x s' /\
                            (r = self \/ nullable_at s' r)) any_exn s).
  { intros l r Hr. apply wp_bind_returns. intros [] s1 H1.
    destruct (attrs_nullable_set_nullable _ _ _ H1 HJ) as [HJ1 Hl].
    apply wp_ret. split; [exact HJ1|]. destruct Hr as [->| ->]; auto. }
  apply wp_bind_reads; [apply reads_get_type|]. intros [ty|];
    [|apply Hset; auto].
  apply wp_bind_reads; [apply reads_get_key|]. intros key.
  apply wp_bind_reads.
  { destruct (is_otype_or_snippet key); [|apply reads_ret].
    apply reads_bind; [apply reads_get_value|]. intros [a|]; [|apply reads_ret].
    apply reads_bind; [apply reads_get_value|]. intros [b|]; [|apply reads_ret].
    destruct (negb (py_eq a b)); [apply reads_raise | apply reads_ret]. }
  intros _.
  apply wp_bind_reads; [apply reads_get_type|]. intros [ty'|];
    [|apply Hset; auto].
  apply wp_bind_returns. intros [] s1 H1.
  apply bind_inv in H1 as (oty & s2 & Hoty & H1).
  pose proof (reads_get_type other s) as Hr. rewrite Hoty in Hr. cbn in Hr.
  subst s2. destruct oty as [oty|].
  - destruct (negb _); [discriminate|]. injection H1 as <-.
    apply wp_ret. auto.
  - destruct (attrs_nullable_set_nullable _ _ _ H1 HJ) as [HJ1 _].
    apply wp_ret. auto.
Qed.
End KeepsNullable.

Lemma wp_of_returns {St A} (m : M St A) (Q : A -> St -> Prop) (s : St) :
  (forall a s', m s = (Return a, s') -> Q a s') -> wp m Q any_exn s.
Proof.
  intros H. unfold wp. destruct (m s) as [[a|e] s'] eqn:Em; [|exact I].
  now apply H.
Qed.

Lemma wp_for_items_inv (Inv : store -> Prop) (l : loc)
    (body : string -> loc -> M store unit) (s : store) :
  (forall k v s, Inv s -> wp (body k v) (fun _ s' => Inv s') any_exn s) ->
  Inv s ->
  wp (for_items (get_attributes l) body) (fun _ s' => Inv s') any_exn s.
Proof.
  intros Hbody Hs. unfold for_items.
  apply wp_bind_returns. intros first s1 Hfirst.
  apply get_TypeNode_inv in Hfirst as (t & Ht & -> & ->).
  apply (wp_items_from_returns (fun _ s => Inv s)); auto.
Qed.

Lemma attrs_of_objs (s s' : store) (l : loc) :
  objs s' = objs s -> attrs_of s' l = attrs_of s l.
Proof. unfold attrs_of. now intros ->. Qed.

Lemma nullable_at_objs (s s' : store) (l : loc) :
  objs s' = objs s -> nullable_at s l -> nullable_at s' l.
Proof. unfold nullable_at. now intros ->. Qed.

Lemma attrs_nullable_objs (names : string -> Prop) (x : loc) (s s' : store) :
  objs s' = objs s -> attrs_nullable names x s -> attrs_nullable names x s'.
Proof.
  intros Ho HJ attrs k a Hattrs Hk Hget.
  rewrite (attrs_of_objs _ _ _ Ho) in Hattrs.
  eapply nullable_at_objs; eauto.
Qed.

(** The warning of [TypeNode.merge] changes no object. *)
Lemma warning_objs (differ : bool) (self other : loc) (s s' : store) :
  (if differ then
     a <- get_otype self ;; b <- get_snippet self ;;
     c <- get_otype other ;; d <- get_snippet other ;;
     print {| w_self_otype := a; w_self_snippet := b;
              w_other_otype := c; w_other_snippet := d |}
   else ret tt) s = (Return tt, s') ->
  objs s' = objs s.
Proof.
  destruct differ; [|now intros [= <-]]. unfold get_otype, get_snippet.
  intros H.
  apply bind_inv in H as (a & s1 & Ha & H).
  apply get_TypeNode_inv in Ha as (? & _ & _ & ->).
  apply bind_inv in H as (b & s1 & Hb & H).
  apply get_TypeNode_inv in Hb as (? & _ & _ & ->).
  apply bind_inv in H as (c & s1 & Hc & H).
  apply get_TypeNode_inv in Hc as (? & _ & _ & ->).
  apply bind_inv in H as (d & s1 & Hd & H).
  apply get_TypeNode_inv in Hd as (? & _ & _ & ->).
  unfold print in H. now injection H as <-.
Qed.

Lemma reads_differ (self other : loc) :
  reads (py_or (a <- get_otype self ;; b <- get_otype other ;;
                ret (negb (py_eq_opt a b)))
               (a <- get_snippet self ;; b <- get_snippet other ;;
                ret (negb (Bool.eqb a b)))).
Proof.
  apply reads_py_or.
  - apply reads_bind; [apply reads_get_TypeNode|]. intros a.
    apply reads_bind; [apply reads_get_TypeNode|]. intros b. apply reads_ret.
  - apply reads_bind; [apply reads_get_TypeNode|]. intros a.
    apply reads_bind; [apply reads_get_TypeNode|]. intros b. apply reads_ret.
Qed.

Lemma TypeNode_merge_keeps (names : string -> Prop) (x : loc)
    (merge : loc -> loc -> M store loc) (self other : loc) (s : store) :
  (forall a b, always grows (merge a b)) ->
  (forall a b s, attrs_nullable names x s ->
     wp (merge a b)
        (fun r s' => attrs_nullable names x s' /\ (r = a \/ nullable_at s' r))
        any_exn s) ->
  attrs_nullable names x s ->
  wp (TypeNode_merge merge self other)
     (fun r s' => attrs_nullable names x s' /\ (r = self \/ nullable_at s' r))
     any_exn s.
Proof.
  intros Hgrows Hmerge HJ. unfold TypeNode_merge.
  apply (attrs_nullable_or_nullable names x); [exact HJ|].
  intros s0 HJ0 _. clear s HJ.
  apply wp_bind_reads; [apply reads_get_type|]. intros [oty|];
    [|apply wp_ret; auto].
  apply wp_bind_reads; [apply reads_get_type|]. intros sty.
  destruct (negb _).
  { apply wp_bind_reads; [apply reads_get_TypeNode|]. intros. exact I. }
  apply wp_bind_reads; [apply reads_differ|]. intros differ.
  apply wp_bind_returns. intros [] s1 Hw.
  apply warning_objs in Hw.
  pose proof (attrs_nullable_objs _ _ _ _ Hw HJ0) as HJ. clear s0 HJ0 Hw.
  apply wp_bind.
  eapply wp_mono;
    [apply (wp_for_items_inv (attrs_nullable names x))| |auto].
  { intros key attr s HJs.
    apply wp_bind_reads; [apply reads_get_TypeNode|]. intros attrs.
    destruct (negb _); [|now apply wp_ret].
    apply wp_of_returns. intros [] s' Hset.
    now destruct (attrs_nullable_set_nullable _ _ _ _ _ Hset HJs). }
  { exact HJ. }
  cbn beta. clear s1 HJ. intros _ s HJ.
  apply wp_bind.
  eapply wp_mono;
    [apply (wp_for_items_inv (attrs_nullable names x))| |auto].
  { clear s HJ. intros key attr s HJ.
    apply wp_bind_returns. intros attrs s1 Hattrs.
    apply get_TypeNode_inv in Hattrs as (t & Ht & -> & ->).
    destruct (sget key (tn_attributes t)) as [mine|] eqn:Emine.
    - apply wp_bind.
      eapply wp_mono;
        [apply wp_and with (F := fun s' => grows s s');
         [apply (Hmerge mine attr s HJ) | apply Hgrows]
        | |intros; exact I].
      cbn beta. intros merged s1 [[HJ1 Hmerged] Hg].
      apply wp_of_returns. intros [] s2 Hset.
      apply (attrs_nullable_set_item _ _ _ _ _ _ _ Hset); [|exact HJ1].
      intros -> Hkey.
      assert (Hmine : nullable_at s mine).
      { apply (HJ (tn_attributes t) key mine); auto.
        unfold attrs_of. now rewrite Ht. }
      destruct Hmerged as [->|Hm]; [|exact Hm].
      eapply nullable_at_grows; eauto.
    - apply wp_bind_returns. intros [] s1 Hset.
      destruct (attrs_nullable_set_nullable _ _ _ _ _ Hset HJ) as [HJ1 Hattr].
      apply wp_of_returns. intros [] s2 Hitem.
      apply (attrs_nullable_set_item _ _ _ _ _ _ _ Hitem); auto. }
  { exact HJ. }
  cbn beta. intros _ s1 HJ1. apply wp_ret. auto.
Qed.

Lemma ListNode_merge_keeps (names : string -> Prop) (x : loc)
    (merge : loc -> loc -> M store loc) (self other : loc) (s : store) :
  attrs_nullable names x s ->
  wp (ListNode_merge merge self other)
     (fun r s' => attrs_nullable names x s' /\ (r = self \/ nullable_at s' r))
     any_exn s.
Proof.
  intros HJ. unfold ListNode_merge.
  apply (attrs_nullable_or_nullable names x); [exact HJ|].
  intros s0 HJ0 _. clear s HJ.
  apply wp_bind_reads; [apply reads_get_element_type|]. intros e.
  rewrite is_not_ListNode_class. apply wp_ret. auto.
Qed.

Lemma merge_keeps (names : string -> Prop) (x : loc) (depth : nat)
    (self other : loc) (s : store) :
  attrs_nullable names x s ->
  wp (merge depth self other)
     (fun r s' => attrs_nullable names x s' /\ (r = self \/ nullable_at s' r))
     any_exn s.
Proof.
  revert self other s. induction depth as [|depth IH]; intros self other s HJ.
  - exact I.
  - cbn [merge]. apply wp_bind_reads; [apply reads_load|]. intros [v|t|a].
    + now apply ValueNode_merge_keeps.
    + apply TypeNode_merge_keeps; auto. intros a b. apply grows_merge.
    + now apply ListNode_merge_keeps.
Qed.

Lemma or_nullable_inv (self other : loc) (b : bool) (s s1 s2 : store) :
  py_or (get_nullable self) (get_nullable other) s = (Return b, s1) ->
  set_nullable self b s1 = (Return tt, s2) ->
  exists n,
    objs s !! self = Some n /\ (node_nullable n = true -> b = true) /\
    s2 = {| objs := <[self := node_with_nullable b n]> (objs s);
            stdout := stdout s |}.
Proof.
  intros Hor Hset.
  assert (Hb : s1 = s /\ forall n, objs s !! self = Some n ->
                                   node_nullable n = true -> b = true).
  { unfold py_or in Hor. apply bind_inv in Hor as (b1 & s3 & H1 & H2).
    unfold get_nullable in H1. apply bind_inv in H1 as (n & s4 & Hn & H1).
    apply load_inv in Hn as [Hn ->]. injection H1 as <- <-.
    destruct (node_nullable n) eqn:Hflag.
    - injection H2 as <- <-. split; [reflexivity|]. congruence.
    - unfold get_nullable in H2. apply bind_inv in H2 as (n' & s4 & Hn' & H2).
      apply load_inv in Hn' as [Hn' ->]. injection H2 as <- <-.
      split; [reflexivity|]. intros n0 Hn0. congruence. }
  destruct Hb as [-> Hb]. apply set_nullable_inv in Hset as (n & Hn & ->).
  exists n. split; [exact Hn|]. split; [now apply Hb | reflexivity].
Qed.

Lemma same_keys_lookup {V W} (d : list (string * V)) (d' : list (string * W))
    (more : list string) (j : nat) (k k' : string) (v : V) (v' : W) :
  map fst d' = map fst d ++ more -> length d' = length d ->
  d' !! j = Some (k', v') -> d !! j = Some (k, v) -> k' = k.
Proof.
  intros Hkeys Hlen Hj' Hj.
  assert (Hmore : more = []).
  { apply (f_equal length) in Hkeys.
    rewrite length_app, !length_map in Hkeys.
    destruct more; [reflexivity | cbn in Hkeys; lia]. }
  subst more. rewrite app_nil_r in Hkeys.
  assert (H1 : map fst d' !! j = Some k') by now rewrite list_lookup_fmap, Hj'.
  assert (H2 : map fst d !! j = Some k) by now rewrite list_lookup_fmap, Hj.
  congruence.
Qed.

Lemma attrs_of_set_item (l : loc) (key : string) (v : loc) (s s' : store) :
  set_item l key v s = (Return tt, s') ->
  exists attrs, attrs_of s' l = Some attrs /\ smem key attrs = true.
Proof.
  intros H. apply set_item_inv in H as (t & Ht & ->).
  exists (sset key v (tn_attributes t)). split.
  - unfold attrs_of. cbn [objs].
    now rewrite list_lookup_insert_eq by (eapply lookup_lt_Some; eauto).
  - apply (sget_smem key v). now rewrite sget_sset, String.eqb_refl.
Qed.

Lemma TypeNode_merge_unites (depth : nat) (self other : loc) (s : store)
    (A B : list (string * loc)) :
  attrs_of s self = Some A -> attrs_of s other = Some B ->
  wp (TypeNode_merge (merge depth) self other)
     (fun r s' =>
        r = self /\
        attrs_nullable (fun k => smem k A && smem k B = false) self s' /\
        forall i k a, B !! i = Some (k, a) ->
          exists A', attrs_of s' self = Some A' /\ smem k A' = true)
     any_exn s.
Proof.
  intros HA HB. unfold TypeNode_merge.
  apply wp_bind_returns. intros b s1 Hor.
  apply wp_bind_returns. intros [] s2 Hset.
  destruct (or_nullable_inv _ _ _ _ _ _ Hor Hset) as (n & Hn & _ & ->).
  rewrite <- (attrs_of_flag s self self n b Hn) in HA.
  rewrite <- (attrs_of_flag s self other n b Hn) in HB.
  clear Hor Hset s1.
  set (s2 := {| objs := <[self := node_with_nullable b n]> (objs s);
                stdout := stdout s |}) in *.
  clearbody s2. clear s n Hn b.
  destruct (attrs_of_TNode _ _ _ HA) as (t & Ht & HtA).
  destruct (attrs_of_TNode _ _ _ HB) as (u & Hu & HuB).
  eapply wp_step; [apply (get_type_TNode _ _ _ Hu)|].
  eapply wp_step; [apply (get_type_TNode _ _ _ Ht)|].
  destruct (negb _).
  { apply wp_bind_reads; [apply reads_get_TypeNode|]. intros. exact I. }
  apply wp_bind_reads; [apply reads_differ|]. intros differ.
  apply wp_bind_returns. intros [] s3 Hw. apply warning_objs in Hw.
  rewrite <- (attrs_of_objs _ _ self Hw) in HA.
  rewrite <- (attrs_of_objs _ _ other Hw) in HB.
  clear s2 t Ht HtA u Hu HuB Hw differ.
  set (names := fun k => smem k A && smem k B = false).
  apply wp_bind.
  eapply wp_mono;
    [apply (wp_for_items_returns
              (fun j s' =>
                 attrs_of s' self = Some A /\ attrs_of s' other = Some B /\
                 forall i k a, i < j -> A !! i = Some (k, a) ->
                               smem k B = false -> nullable_at s' a)
              self _ s3 A HA)
    | |intros; exact I].
  { intros j s' attrs k v (HA' & HB' & Hdone) Hattrs _ Hk.
    assert (attrs = A) as -> by congruence.
    apply wp_bind_returns. intros oattrs s'' Ho.
    apply get_TypeNode_inv in Ho as (u & Hu & -> & ->).
    assert (HuB : tn_attributes u = B).
    { unfold attrs_of in HB'. rewrite Hu in HB'. congruence. }
    rewrite HuB. destruct (smem k B) eqn:Emem; cbn [negb].
    - apply wp_ret. split; [exact HA'|]. split; [exact HB'|].
      intros i k' a Hi Hk' Hmem.
      destruct (Nat.eq_dec i j) as [->|Hne]; [congruence|].
      apply (Hdone i k' a); auto. lia.
    - apply wp_of_returns. intros [] s4 Hset.
      apply set_nullable_inv in Hset as (n & Hn & ->).
      rewrite !(attrs_of_flag _ _ _ _ _ Hn).
      split; [exact HA'|]. split; [exact HB'|].
      intros i k' a Hi Hk' Hmem.
      destruct (Nat.eq_dec i j) as [->|Hne].
      + assert (a = v) as -> by congruence. now apply nullable_at_set.
      + apply nullable_at_flag; auto. apply (Hdone i k' a); auto. lia. }
  { split; [exact HA|]. split; [exact HB|]. intros; lia. }
  cbn beta. intros _ s4 (HA4 & HB4 & Hdone).
  assert (HJ4 : attrs_nullable names self s4).
  { intros attrs k a Hattrs Hnames Hget.
    assert (attrs = A) as -> by congruence. unfold names in Hnames.
    rewrite (sget_smem _ _ _ Hget) in Hnames. cbn in Hnames.
    destruct (sget_lookup_ex _ _ _ Hget) as [i Hi].
    apply (Hdone i k a); auto. eapply lookup_lt_Some; eauto. }
  clear s3 HA HB Hdone.
  apply wp_bind.
  eapply wp_mono;
    [apply (wp_for_items_returns
              (fun j s' =>
                 grows s4 s' /\ attrs_nullable names self s' /\
                 forall i k a, i < j -> B !! i = Some (k, a) ->
                   exists A', attrs_of s' self = Some A' /\ smem k A' = true)
              other _ s4 B HB4)
    | |intros; exact I].
  { intros j s' attrs k v (Hg & HJ & Hdone) Hattrs Hlen Hk.
    assert (Hkey : forall k' a, B !! j = Some (k', a) -> k' = k).
    { intros k' a Hj.
      destruct (attrs_of_grows _ _ _ _ Hg HB4) as (attrs' & more & Ha' & Hm).
      assert (attrs' = attrs) as -> by congruence. symmetry.
      eapply same_keys_lookup; eauto. }
    assert (Hfinish : forall s1 w,
              grows s' s1 -> attrs_nullable names self s1 ->
              (names k -> nullable_at s1 w) ->
              wp (set_item self k w)
                 (fun _ s2 =>
                    grows s4 s2 /\ attrs_nullable names self s2 /\
                    forall i k0 a, i < S j -> B !! i = Some (k0, a) ->
                      exists A', attrs_of s2 self = Some A' /\
                                 smem k0 A' = true)
                 any_exn s1).
    { intros s1 w Hg1 HJ1 Hw. apply wp_of_returns. intros [] s2 Hitem.
      pose proof (grows_set_item self k w s1) as Hg2. rewrite Hitem in Hg2.
      cbn [snd] in Hg2.
      split; [eauto using grows_trans|]. split.
      - apply (attrs_nullable_set_item _ _ _ _ _ _ _ Hitem); auto.
      - intros i k0 a Hi Hk0. destruct (Nat.eq_dec i j) as [->|Hne].
        + rewrite (Hkey _ _ Hk0). eapply attrs_of_set_item; eauto.
        + destruct (Hdone i k0 a) as (A1 & HA1 & Hmem); [lia | exact Hk0|].
          destruct (attrs_of_grows _ _ _ _ (grows_trans _ _ _ Hg1 Hg2) HA1)
            as (A2 & more & HA2 & Hkeys).
          exists A2. split; [exact HA2|]. eapply smem_keys; eauto. }
    apply wp_bind_returns. intros sattrs s'' Hs.
    apply get_TypeNode_inv in Hs as (t & Ht & -> & ->).
    destruct (sget k (tn_attributes t)) as [mine|] eqn:Emine.
    - apply wp_bind.
      eapply wp_mono;
        [apply wp_and with (F := fun s1 => grows s' s1);
         [apply (merge_keeps names self depth mine v s' HJ)
         | apply grows_merge]
        | |intros; exact I].
      cbn beta. intros merged s1 [[HJ1 Hmerged] Hg1].
      apply Hfinish; auto. intros Hnames.
      assert (Hmine : nullable_at s' mine).
      { apply (HJ (tn_attributes t) k mine); auto.
        unfold attrs_of. now rewrite Ht. }
      destruct Hmerged as [->|Hm]; [|exact Hm].
      eapply nullable_at_grows; eauto.
    - apply wp_bind_returns. intros [] s1 Hset.
      pose proof (grows_set_nullable_true v s') as Hg1. rewrite Hset in Hg1.
      cbn [snd] in Hg1.
      destruct (attrs_nullable_set_nullable _ _ _ _ _ Hset HJ) as [HJ1 Hv].
      apply Hfinish; auto. }
  { split; [apply grows_refl|]. split; [exact HJ4|]. intros; lia. }
  cbn beta. intros _ s5 (Hg & HJ & Hdone). apply wp_ret.
  split; [reflexivity|]. split; [exact HJ|].
  intros i k a Hi. apply (Hdone i k a); [|exact Hi].
  eapply lookup_lt_Some; eauto.
Qed.

Lemma merge_unites_attributes (depth : nat) (self other : loc) (s s' : store)
    (r : loc) (A B : list (string * loc)) :
  attrs_of s self = Some A -> attrs_of s other = Some B ->
  merge depth self other s = (Return r, s') ->
  r = self /\
  exists A' more,
    attrs_of s' self = Some A' /\
    map fst A' = map fst A ++ more /\
    (forall k, smem k B = true -> smem k A' = true) /\
    (forall k a, smem k A && smem k B = false -> sget k A' = Some a ->
                 nullable_at s' a).
Proof.
  intros HA HB Hm.
  pose proof (grows_merge depth self other s) as Hg. rewrite Hm in Hg.
  cbn [snd] in Hg.
  destruct depth as [|depth]; [discriminate|]. cbn [merge] in Hm.
  destruct (attrs_of_TNode _ _ _ HA) as (t & Ht & HtA).
  rewrite (bind_load _ _ _ _ Ht) in Hm.
  destruct (wp_returns _ _ _ _ _ (TypeNode_merge_unites depth _ _ _ _ _ HA HB)
              Hm) as (-> & HJ & Hkeys).
  split; [reflexivity|].
  destruct (attrs_of_grows _ _ _ _ Hg HA) as (A' & more & HA' & Hmore).
  exists A', more. split; [exact HA'|]. split; [exact Hmore|]. split.
  - intros k Hk. destruct (smem_lookup _ _ Hk) as (i & a & Hi).
    destruct (Hkeys i k a Hi) as (A1 & HA1 & Hmem). congruence.
  - intros k a Hnames Hget. apply (HJ A' k a); auto.
Qed.

(** X6.  Merging one object into another unites their attributes.  When
    [self.merge(other)] returns for two objects, it returns [self]; its
    attribute names are those it had, in their order, followed by new ones;
    every attribute name of [other] is among them; and every attribute
    whose name the two objects did not both have is bound to a nullable
    node. *)
Theorem object_merge_unites (depth : nat) (self other : loc) (s s' : store)
    (r : loc) (A B : list (string * loc)) :
  attrs_of s self = Some A -> attrs_of s other = Some B ->
  merge depth self other s = (Return r, s') ->
  r = self /\
  exists A' more,
    attrs_of s' self = Some A' /\
    map fst A' = map fst A ++ more /\
    (forall k, smem k B = true -> smem k A' = true) /\
    (forall k a, smem k A && smem k B = false -> sget k A' = Some a ->
                 nullable_at s' a).
Proof. apply merge_unites_attributes. Qed.

Lemma object_merge_unites_witness :
  1 = 1 /\
  exists A' more,
    attrs_of (snd (merge 2 1 4 two_languages)) 1 = Some A' /\
    map fst A' = map fst [("name", 0)] ++ more /\
    (forall k, smem k [("dialect", 3); ("name", 2)] = true ->
               smem k A' = true) /\
    (forall k a,
       smem k [("name", 0)] && smem k [("dialect", 3); ("name", 2)] = false ->
       sget k A' = Some a ->
       nullable_at (snd (merge 2 1 4 two_languages)) a).
Proof.
  apply (object_merge_unites 2 1 4 two_languages
           (snd (merge 2 1 4 two_languages)) 1
           [("name", 0)] [("dialect", 3); ("name", 2)]);
    vm_compute; reflexivity.
Defined.

(** ** Merging nodes of different kinds *)

Lemma wp_result {St A} (m : M St A) (expected : outcome A * St) (s : St) :
  wp m (fun a s' => (Return a, s') = expected)
       (fun e s' => (Raise e, s') = expected) s ->
  m s = expected.
Proof. unfold wp. now destruct (m s) as [[a|e] s']. Qed.

Lemma get_type_LNode {A} (k : option string -> M store A) (s : store)
    (l : loc) (a : ListNode) :
  objs s !! l = Some (LNode a) ->
  bind (get_type l) k s = (Raise (AttributeError "ListNode" "type"), s).
Proof.
  intros H. apply bind_raise. unfold get_type.
  now rewrite (bind_load _ _ _ _ H).
Qed.

Lemma scalar_merge_eq (depth : nat) (s : store) (self other : loc)
    (v : ValueNode) (n : node) (ty : string) :
  objs s !! self = Some (VNode v) ->
  objs s !! other = Some n ->
  vn_type v = Some ty ->
  is_otype_or_snippet (vn_key v) = false ->
  let against (other_type : option string) :=
    match other_type with
    | None =>
        (Return self,
         {| objs := <[self := node_with_nullable true (VNode v)]> (objs s);
            stdout := stdout s |})
    | Some ty' =>
        if String.eqb ty ty' then (Return self, s)
        else (Raise (TypeError (TypeMismatch (vn_key v) (Some ty) (Some ty'))),
              s)
    end in
  merge (S depth) self other s
  = match n with
    | VNode o => against (vn_type o)
    | TNode o => against (Some (tn_type o))
    | LNode _ => (Raise (AttributeError "ListNode" "type"), s)
    end.
Proof.
  intros Hs Ho Hty Hkey against.
  cbn [merge]. rewrite (bind_load _ _ _ _ Hs). unfold ValueNode_merge.
  rewrite (bind_eq _ _ _ _ _ (get_type_VNode _ _ _ Hs)), Hty.
  rewrite (bind_eq _ _ _ _ _ (get_key_VNode _ _ _ Hs)), Hkey.
  unfold bind at 1. cbn [ret].
  rewrite (bind_eq _ _ _ _ _ (get_type_VNode _ _ _ Hs)), Hty.
  assert (Hagainst : forall oty,
            get_type other s = (Return oty, s) ->
            ((other_type <- get_type other ;;
              match other_type with
              | None => set_nullable self true
              | Some _ =>
                  if negb (opt_string_eqb (Some ty) other_type)
                  then raise (TypeError (TypeMismatch (vn_key v) (Some ty)
                                           other_type))
                  else ret tt
              end) ;;; ret self) s = against oty).
  { intros oty Hoty. unfold bind at 1.
    rewrite (bind_eq _ _ _ _ _ Hoty). destruct oty as [ty'|]; cbn.
    - now destruct (String.eqb ty ty').
    - now rewrite (set_nullable_eq _ _ _ _ Hs). }
  destruct n as [o|o|o].
  - apply Hagainst, (get_type_VNode _ _ _ Ho).
  - apply Hagainst, (get_type_TNode _ _ _ Ho).
  - unfold bind at 1. now rewrite (get_type_LNode _ _ _ _ Ho).
Qed.

(** X7.  [ValueNode.merge] for a scalar of known type whose key is not
    [otype] or [snippet] (the parser sets no key).  Against a scalar of
    unknown type the receiver becomes nullable; against a scalar or an
    object of the same type nothing changes; against one of another type a
    [TypeError] names the receiver's key and both types; against a list the
    read of [other.type] fails with an [AttributeError].  The receiver is
    returned, and an exception leaves the objects as they were. *)
Theorem scalar_merge_cases (depth : nat) (s : store) (self other : loc)
    (v : ValueNode) (n : node) (ty : string) :
  objs s !! self = Some (VNode v) ->
  objs s !! other = Some n ->
  vn_type v = Some ty ->
  is_otype_or_snippet (vn_key v) = false ->
  let against (other_type : option string) :=
    match other_type with
    | None =>
        (Return self,
         {| objs := <[self := node_with_nullable true (VNode v)]> (objs s);
            stdout := stdout s |})
    | Some ty' =>
        if String.eqb ty ty' then (Return self, s)
        else (Raise (TypeError (TypeMismatch (vn_key v) (Some ty) (Some ty'))),
              s)
    end in
  merge (S depth) self other s
  = match n with
    | VNode o => against (vn_type o)
    | TNode o => against (Some (tn_type o))
    | LNode _ => (Raise (AttributeError "ListNode" "type"), s)
    end.
Proof. apply scalar_merge_eq. Qed.

Lemma scalar_merge_cases_witness :
  merge 1 1 3 sample_store
  = (Raise (AttributeError "ListNode" "type"), sample_store).
Proof.
  exact (scalar_merge_cases 0 sample_store 1 3 (string_scalar false)
           (LNode list_of_strings) "string" eq_refl eq_refl eq_refl eq_refl).
Defined.

Lemma object_merge_flag (s : store) (self other : loc) (t : TypeNode)
    (n : node) :
  objs s !! self = Some (TNode t) ->
  objs s !! other = Some n ->
  let s1 := {| objs := <[self := node_with_nullable
                                   (tn_nullable t || node_nullable n)
                                   (TNode t)]> (objs s);
               stdout := stdout s |} in
  (nullable <- py_or (get_nullable self) (get_nullable other) ;;
   set_nullable self nullable) s = (Return tt, s1) /\
  objs s1 !! self
  = Some (node_with_nullable (tn_nullable t || node_nullable n) (TNode t)) /\
  (other <> self -> objs s1 !! other = Some n).
Proof.
  intros Hs Ho s1.
  assert (Hlt : self < length (objs s)) by (eapply lookup_lt_Some; eauto).
  split; [|split].
  - assert (Hor : py_or (get_nullable self) (get_nullable other) s
                  = (Return (tn_nullable t || node_nullable n), s)).
    { unfold py_or. rewrite (bind_eq _ _ _ _ _ (get_nullable_eq _ _ _ Hs)).
      cbn [node_nullable]. destruct (tn_nullable t); [reflexivity|].
      now rewrite (get_nullable_eq _ _ _ Ho). }
    rewrite (bind_eq _ _ _ _ _ Hor). now rewrite (set_nullable_eq _ _ _ _ Hs).
  - cbn [objs s1]. now apply list_lookup_insert_eq.
  - intros Hne. cbn [objs s1]. rewrite list_lookup_insert_ne by congruence.
    exact Ho.
Qed.

Lemma object_merge_other_kind (depth : nat) (s : store) (self other : loc)
    (t : TypeNode) (n : node) :
  objs s !! self = Some (TNode t) ->
  objs s !! other = Some n ->
  let s1 := {| objs := <[self := node_with_nullable
                                   (tn_nullable t || node_nullable n)
                                   (TNode t)]> (objs s);
               stdout := stdout s |} in
  match n with
  | VNode o =>
      match vn_type o with
      | None => merge (S depth) self other s = (Return self, s1)
      | Some ty =>
          ty <> tn_type t ->
          merge (S depth) self other s
          = (Raise (TypeError (OtypeTypeMismatch (tn_otype t)
                                 (Some (tn_type t)) (Some ty))), s1)
      end
  | LNode _ =>
      merge (S depth) self other s
      = (Raise (AttributeError "ListNode" "type"), s1)
  | TNode _ => True
  end.
Proof.
  intros Hs Ho s1.
  destruct (object_merge_flag s self other t n Hs Ho) as (Hflag & Hs1 & Ho1).
  fold s1 in Hflag, Hs1, Ho1.
  assert (Hstart : forall rest : M store loc,
            (forall t', n <> TNode t') ->
            (nullable <- py_or (get_nullable self) (get_nullable other) ;;
             set_nullable self nullable ;;; rest) s = rest s1).
  { intros rest _. unfold bind in *.
    destruct (py_or (get_nullable self) (get_nullable other) s)
      as [[b|e] s0]; [|discriminate].
    destruct (set_nullable self b s0) as [[[]|e] s0']; [|discriminate].
    now injection Hflag as ->. }
  assert (Hne : (forall t', n <> TNode t') -> other <> self).
  { intros Hn ->. rewrite Hs in Ho. injection Ho as <-. now apply (Hn t). }
  cbn [merge]. rewrite (bind_load _ _ _ _ Hs). unfold TypeNode_merge.
  destruct n as [o|o|o]; [| exact I |].
  - assert (Hn : forall t', VNode o <> TNode t') by discriminate.
    specialize (Ho1 (Hne Hn)).
    destruct (vn_type o) as [ty|] eqn:Ety.
    + intros Hty. rewrite (Hstart _ Hn).
      rewrite (bind_eq _ _ _ _ _ (get_type_VNode _ _ _ Ho1)), Ety.
      rewrite (bind_eq _ _ _ _ _ (get_type_TNode _ _ _ Hs1)).
      cbn [opt_string_eqb tn_type].
      assert (Hneq : String.eqb (tn_type t) ty = false).
      { apply String.eqb_neq. congruence. }
      rewrite Hneq. cbn [negb]. unfold get_otype.
      now rewrite (bind_eq _ _ _ _ _ (get_TypeNode_eq _ _ _ _ _ Hs1)).
    + rewrite (Hstart _ Hn).
      now rewrite (bind_eq _ _ _ _ _ (get_type_VNode _ _ _ Ho1)), Ety.
  - assert (Hn : forall t', LNode o <> TNode t') by discriminate.
    specialize (Ho1 (Hne Hn)). rewrite (Hstart _ Hn).
    now rewrite (get_type_LNode _ _ _ _ Ho1).
Qed.

(** X8.  [TypeNode.merge] when the other node is no object.  The
    receiver's [nullable] is set first, to the disjunction of both flags,
    and stays set when the call then raises.  Against a scalar of unknown
    type the receiver is returned; against a scalar of a known type a
    [TypeError] names the receiver's otype and both types; against a list
    the read of [other.type] fails with an [AttributeError]. *)
Theorem object_merge_other_kinds (depth : nat) (s : store)
    (self other : loc) (t : TypeNode) (n : node) :
  objs s !! self = Some (TNode t) ->
  objs s !! other = Some n ->
  let s1 := {| objs := <[self := node_with_nullable
                                   (tn_nullable t || node_nullable n)
                                   (TNode t)]> (objs s);
               stdout := stdout s |} in
  match n with
  | VNode o =>
      match vn_type o with
      | None => merge (S depth) self other s = (Return self, s1)
      | Some ty =>
          ty <> tn_type t ->
          merge (S depth) self other s
          = (Raise (TypeError (OtypeTypeMismatch (tn_otype t)
                                 (Some (tn_type t)) (Some ty))), s1)
      end
  | LNode _ =>
      merge (S depth) self other s
      = (Raise (AttributeError "ListNode" "type"), s1)
  | TNode _ => True
  end.
Proof. apply object_merge_other_kind. Qed.

Lemma object_merge_other_kinds_witness :
  merge 1 4 3 sample_store
  = (Raise (AttributeError "ListNode" "type"),
     {| objs := <[4 := node_with_nullable false (TNode sample_object)]>
                  (objs sample_store);
        stdout := [] |}).
Proof.
  exact (object_merge_other_kinds 0 sample_store 4 3 sample_object
           (LNode list_of_strings) eq_refl eq_refl).
Defined.

(** X9.  [ListNode.merge] accepts any node: whatever the other node is (a
    list, a scalar or an object), the receiver is returned, its [nullable]
    becomes the disjunction of both flags, its element type stays what it
    was, and nothing else changes.  No type is compared. *)
Theorem list_merge_accepts_any_node (depth : nat) (s : store)
    (self other : loc) (a : ListNode) (n : node) :
  objs s !! self = Some (LNode a) ->
  objs s !! other = Some n ->
  merge (S depth) self other s
  = (Return self,
     {| objs := <[self := LNode {| ln_element_type := ln_element_type a;
                                   ln_nullable :=
                                     ln_nullable a || node_nullable n |}]>
                  (objs s);
        stdout := stdout s |}).
Proof. apply ListNode_merge_eq. Qed.

Lemma list_merge_accepts_any_node_witness :
  merge 1 3 1 sample_store
  = (Return 3,
     {| objs := <[3 := LNode {| ln_element_type := Some 1;
                                ln_nullable := false |}]>
                  (objs sample_store);
        stdout := [] |}).
Proof.
  exact (list_merge_accepts_any_node 0 sample_store 3 1 list_of_strings
           (VNode (string_scalar false)) eq_refl eq_refl).
Defined.

(** ** Members and objects *)

Lemma p_members_multiple_one (k : string) (v : loc)
    (tail : list (string * loc)) (s : store) :
  p_members_multiple [(k, v)] tail s
  = match sget k tail with
    | Some mine =>
        match merge recursion_limit mine v s with
        | (Return merged, s') => (Return (sset k merged tail), s')
        | (Raise (TypeError e), s') =>
            (Raise (TypeError (AtAttribute k e)), s')
        | (Raise e, s') => (Raise e, s')
        end
    | None => (Return (tail ++ [(k, v)]), s)
    end.
Proof.
  cbn [p_members_multiple]. unfold bind at 1.
  destruct (sget k tail) as [mine|] eqn:Emine.
  - unfold bind, at_attribute. generalize recursion_limit. intros depth.
    destruct (merge depth mine v s) as [[merged|e] s']; [reflexivity|].
    now destruct e.
  - cbn. unfold sset. now rewrite (dict_set_absent _ _ _ _ Emine).
Qed.

(** X10.  A key that occurs twice in one object.  [p_members_multiple]
    merges the earlier occurrence into the later one, which is the
    receiver: for two scalars of the same known type the later node stays
    bound, in its place, and nothing changes; for two scalars of different
    types the [TypeError] reads [At attribute 'k': Type mismatch for
    attribute 'None'], with the later type first.  A key that the later
    members do not have is added after them. *)
Theorem duplicate_scalar_member (k : string) (v mine : loc)
    (tail : list (string * loc)) (s : store) (later earlier : ValueNode)
    (t_later t_earlier : string) :
  objs s !! mine = Some (VNode later) ->
  objs s !! v = Some (VNode earlier) ->
  vn_type later = Some t_later ->
  vn_type earlier = Some t_earlier ->
  vn_key later = None ->
  (sget k tail = Some mine ->
   p_members_multiple [(k, v)] tail s
   = if String.eqb t_later t_earlier then (Return tail, s)
     else (Raise (TypeError (AtAttribute k
                    (TypeMismatch None (Some t_later) (Some t_earlier)))),
           s)) /\
  (sget k tail = None ->
   p_members_multiple [(k, v)] tail s = (Return (tail ++ [(k, v)]), s)).
Proof.
  intros Hmine Hv Hl He Hkey. rewrite p_members_multiple_one. split.
  - intros Hget. rewrite Hget. change recursion_limit with (S 999).
    rewrite (scalar_merge_eq 999 s mine v later (VNode earlier) t_later
               Hmine Hv Hl); [|now rewrite Hkey].
    rewrite He, Hkey. destruct (String.eqb t_later t_earlier); [|reflexivity].
    unfold sset. now rewrite (dict_set_same _ _ _ _ Hget).
  - now intros ->.
Qed.

Lemma duplicate_scalar_member_witness :
  (sget "x" [("x", 1)] = Some 1 ->
   p_members_multiple [("x", 0)] [("x", 1)] sample_store
   = if String.eqb "string" "string" then (Return [("x", 1)], sample_store)
     else (Raise (TypeError (AtAttribute "x"
                    (TypeMismatch None (Some "string") (Some "string")))),
           sample_store)) /\
  (sget "x" [("x", 1)] = None ->
   p_members_multiple [("x", 0)] [("x", 1)] sample_store
   = (Return ([("x", 1)] ++ [("x", 0)]), sample_store)).
Proof.
  exact (duplicate_scalar_member "x" 0 1 [("x", 1)] sample_store
           (string_scalar false) otype_person "string" "string"
           eq_refl eq_refl eq_refl eq_refl eq_refl).
Defined.

Lemma member_value_eq (w : world) (key : string)
    (attributes : list (string * loc)) (v : option literal) :
  member_value (mem w) key attributes v ->
  match sget key attributes with
  | Some l => lift (get_value l)
  | None => ret None
  end w = (Return v, w).
Proof.
  unfold member_value. destruct (sget key attributes) as [l|].
  - intros (x & Hx & ->). apply lift_pure, (get_value_VNode _ _ _ Hx).
  - now intros ->.
Qed.

Lemma p_object_snippet_eq (w : world) (attributes : list (string * loc))
    (otype : option literal) :
  member_value (mem w) "otype" attributes otype ->
  p_object attributes w
  = (snippet <- match sget "snippet" attributes with
                | Some snippet_node =>
                    v <- lift (get_value snippet_node) ;;
                    match v with
                    | Some (LBool true) => ret true
                    | Some (LBool false) => ret false
                    | _ => raise (TypeError (InvalidSnippet v))
                    end
                | None => ret false
                end ;;
     type_node <- lift (alloc (TNode {| tn_type := "object";
                                        tn_attributes := attributes;
                                        tn_nullable := false;
                                        tn_otype := otype;
                                        tn_snippet := snippet;
                                        tn_ref := None |})) ;;
     match otype with
     | Some _ => register_type otype snippet type_node
     | None => ret tt
     end ;;;
     ret type_node) w.
Proof.
  intros Hotype. unfold p_object.
  now rewrite (bind_eq _ _ _ _ _ (member_value_eq _ _ _ _ Hotype)).
Qed.

Lemma p_object_eq (w : world) (attributes : list (string * loc))
    (otype : option literal) (snippet : bool) :
  member_value (mem w) "otype" attributes otype ->
  (sget "snippet" attributes = None /\ snippet = false \/
   member_value (mem w) "snippet" attributes (Some (LBool snippet))) ->
  let type_node := length (objs (mem w)) in
  let w1 :=
    {| mem := {| objs := objs (mem w)
                         ++ [TNode {| tn_type := "object";
                                      tn_attributes := attributes;
                                      tn_nullable := false;
                                      tn_otype := otype;
                                      tn_snippet := snippet;
                                      tn_ref := None |}];
                 stdout := stdout (mem w) |};
       type_registry := type_registry w |} in
  p_object attributes w
  = match otype with
    | Some _ => (register_type otype snippet type_node ;;; ret type_node) w1
    | None => (Return type_node, w1)
    end.
Proof.
  intros Hotype Hsnippet type_node w1.
  rewrite (p_object_snippet_eq _ _ _ Hotype).
  assert (Hs : match sget "snippet" attributes with
               | Some snippet_node =>
                   v <- lift (get_value snippet_node) ;;
                   match v with
                   | Some (LBool true) => ret true
                   | Some (LBool false) => ret false
                   | _ => raise (TypeError (InvalidSnippet v))
                   end
               | None => ret false
               end w = (Return snippet, w)).
  { destruct Hsnippet as [[Hnone ->]|Hsome]; [now rewrite Hnone|].
    unfold member_value in Hsome.
    destruct (sget "snippet" attributes) as [l|]; [|discriminate].
    destruct Hsome as (x & Hx & Hv).
    rewrite (bind_eq _ _ _ _ _ (lift_pure _ _ _ (get_value_VNode _ _ _ Hx))).
    rewrite <- Hv. now destruct snippet. }
  rewrite (bind_eq _ _ _ _ _ Hs).
  erewrite bind_eq; [|apply lift_return; reflexivity].
  fold type_node. fold w1. destruct otype; reflexivity.
Qed.

(** X11.  What [p_object] builds.  When the member [otype] is absent or a
    scalar, and the member [snippet] is absent or a scalar holding a
    boolean, the action allocates an object with these members as its
    attributes, the otype read and the snippet read (false when absent).
    It registers the object under (otype, snippet) when the otype read is
    not [None]; an object without [otype], or with [otype] null, is
    returned without the registry being touched. *)
Theorem p_object_registers_only_tagged (w : world)
    (attributes : list (string * loc)) (otype : option literal)
    (snippet : bool) :
  member_value (mem w) "otype" attributes otype ->
  (sget "snippet" attributes = None /\ snippet = false \/
   member_value (mem w) "snippet" attributes (Some (LBool snippet))) ->
  let type_node := length (objs (mem w)) in
  let w1 :=
    {| mem := {| objs := objs (mem w)
                         ++ [TNode {| tn_type := "object";
                                      tn_attributes := attributes;
                                      tn_nullable := false;
                                      tn_otype := otype;
                                      tn_snippet := snippet;
                                      tn_ref := None |}];
                 stdout := stdout (mem w) |};
       type_registry := type_registry w |} in
  p_object attributes w
  = match otype with
    | Some _ => (register_type otype snippet type_node ;;; ret type_node) w1
    | None => (Return type_node, w1)
    end.
Proof. apply p_object_eq. Qed.

Lemma p_object_registers_only_tagged_witness :
  p_object [("z", 2); ("n", 1)]
    {| mem := sample_store; type_registry := TypeRegistry_init |}
  = (Return 5,
     {| mem := {| objs := objs sample_store
                          ++ [TNode {| tn_type := "object";
                                       tn_attributes := [("z", 2); ("n", 1)];
                                       tn_nullable := false;
                                       tn_otype := None;
                                       tn_snippet := false;
                                       tn_ref := None |}];
                  stdout := [] |};
        type_registry := TypeRegistry_init |}).
Proof.
  apply (p_object_registers_only_tagged
           {| mem := sample_store; type_registry := TypeRegistry_init |}
           [("z", 2); ("n", 1)] None false).
  - reflexivity.
  - left. split; reflexivity.
Defined.

(** X12.  What [p_object] rejects.  A member [snippet] that is a scalar
    must hold [True] or [False]: any other value, [1] and [null] among
    them, raises the [TypeError] [Invalid 'snippet' value].  A member
    [otype] or [snippet] that is an object or a list has no [value]: the
    read fails with an [AttributeError].  Nothing is allocated or
    registered. *)
Theorem p_object_rejects (w : world) (attributes : list (string * loc)) :
  (forall otype l x,
     member_value (mem w) "otype" attributes otype ->
     sget "snippet" attributes = Some l ->
     objs (mem w) !! l = Some (VNode x) ->
     (forall b, vn_value x <> Some (LBool b)) ->
     p_object attributes w
     = (Raise (TypeError (InvalidSnippet (vn_value x))), w)) /\
  (forall otype l n,
     member_value (mem w) "otype" attributes otype ->
     sget "snippet" attributes = Some l ->
     objs (mem w) !! l = Some n ->
     class_of n <> ValueNode_class ->
     p_object attributes w
     = (Raise (AttributeError (class_name (class_of n)) "value"), w)) /\
  (forall l n,
     sget "otype" attributes = Some l ->
     objs (mem w) !! l = Some n ->
     class_of n <> ValueNode_class ->
     p_object attributes w
     = (Raise (AttributeError (class_name (class_of n)) "value"), w)).
Proof.
  assert (Hbad : forall l n,
            objs (mem w) !! l = Some n -> class_of n <> ValueNode_class ->
            lift (get_value l) w
            = (Raise (AttributeError (class_name (class_of n)) "value"), w)).
  { intros l n Hn Hc. rewrite lift_eq. unfold get_value.
    rewrite (bind_load _ _ _ _ Hn).
    destruct n as [x|x|x]; [now destruct Hc| |]; cbn; now rewrite world_eta. }
  split; [|split].
  - intros otype l x Hotype Hl Hx Hv.
    rewrite (p_object_snippet_eq _ _ _ Hotype), Hl.
    apply bind_raise.
    rewrite (bind_eq _ _ _ _ _ (lift_pure _ _ _ (get_value_VNode _ _ _ Hx))).
    destruct (vn_value x) as [[y|y|y|[|]]|] eqn:Ev; try reflexivity.
    + now destruct (Hv true).
    + now destruct (Hv false).
  - intros otype l n Hotype Hl Hn Hc.
    rewrite (p_object_snippet_eq _ _ _ Hotype), Hl.
    apply bind_raise. apply bind_raise. now apply Hbad.
  - intros l n Hl Hn Hc. unfold p_object. rewrite Hl.
    apply bind_raise. now apply Hbad.
Qed.

(** ** Objects that are member values *)

Lemma type_names_absent (r : TypeRegistry) (k : regkey) :
  registry_inv r ->
  dict_get key_eqb k (types r) = None ->
  dict_get key_eqb k (type_names r) = None.
Proof.
  intros Hinv Hk. rewrite (type_names_get _ _ Hinv).
  rewrite (dict_get_find key_eqb) in Hk.
  now destruct (dict_find key_eqb k (types r)).
Qed.

Lemma key_eqb_snippet (otype : option literal) (a b : bool) :
  key_eqb (otype, a) (otype, b) = Bool.eqb a b.
Proof. unfold key_eqb. cbn [fst snd]. now rewrite py_eq_opt_refl. Qed.

Lemma get_ref_after_insert (r : TypeRegistry) (otype : option literal)
    (snippet : bool) (l : loc) (name : string) :
  registry_inv r ->
  get_ref r otype = None ->
  get_ref {| types := types r ++ [((otype, snippet), l)];
             type_names := type_names r ++ [((otype, snippet), name)] |}
          otype
  = Some name.
Proof.
  intros Hinv Hnone.
  pose proof (get_ref_None _ _ false Hinv Hnone) as Hf.
  pose proof (get_ref_None _ _ true Hinv Hnone) as Ht.
  pose proof (type_names_absent _ _ Hinv Hf) as Hnf.
  pose proof (type_names_absent _ _ Hinv Ht) as Hnt.
  unfold get_ref, get_preferred_snippet, dict_mem. cbn [types type_names].
  rewrite !dict_get_app, Hf, Ht. cbn [dict_get].
  rewrite !key_eqb_snippet.
  destruct snippet; cbn [Bool.eqb].
  - rewrite dict_get_app, Hnt. cbn [dict_get]. now rewrite key_eqb_snippet.
  - rewrite dict_get_app, Hnf. cbn [dict_get]. now rewrite key_eqb_snippet.
Qed.

Lemma p_member_registers (key : string) (value : loc) (w : world)
    (t : TypeNode) :
  objs (mem w) !! value = Some (TNode t) ->
  registry_inv (type_registry w) ->
  get_ref (type_registry w) (tn_otype t) = None ->
  let name := type_name (tn_otype t) (tn_snippet t) in
  p_member key value w
  = (Return [(key, value)],
     {| mem := {| objs := <[value := TNode (with_attributes []
                                             (with_ref (Some name) t))]>
                            (objs (mem w));
                  stdout := stdout (mem w) |};
        type_registry :=
          {| types := types (type_registry w)
                      ++ [((tn_otype t, tn_snippet t), value)];
             type_names := type_names (type_registry w)
                           ++ [((tn_otype t, tn_snippet t), name)] |} |}).
Proof.
  intros Ht Hinv Hname name. rewrite (p_member_eq _ _ _ _ Ht).
  cbn [class_of].
  match goal with
  | |- _ = (_, ?w') =>
      enough (Hinner : p_member_TypeNode value w = (Return tt, w'))
        by now rewrite (bind_eq _ _ _ _ _ Hinner)
  end.
  unfold p_member_TypeNode, get_otype, get_snippet.
  rewrite (bind_eq _ _ _ _ _ (lift_pure _ _ _ (get_TypeNode_eq _ _ _ _ _ Ht))).
  unfold get_registry at 1. unfold bind at 1. rewrite Hname. cbn [truthy].
  rewrite (bind_eq _ _ _ _ _ (lift_pure _ _ _ (get_TypeNode_eq _ _ _ _ _ Ht))).
  rewrite (bind_eq _ _ _ _ _ (lift_pure _ _ _ (get_TypeNode_eq _ _ _ _ _ Ht))).
  pose proof (get_ref_None _ _ (tn_snippet t) Hinv Hname) as Hkey.
  rewrite (bind_eq _ _ _ _ _ (register_type_new _ _ _ value Hinv Hkey)).
  erewrite bind_eq.
  2:{ apply lift_pure. apply (get_TypeNode_eq _ _ _ _ _ Ht). }
  unfold get_registry at 1. unfold bind at 1. cbn [type_registry].
  rewrite (get_ref_after_insert _ _ _ _ _ Hinv Hname).
  rewrite (set_ref_then_clear _ _ _ t) by exact Ht. reflexivity.
Qed.

(** Appending the empty string changes nothing. *)
Lemma string_append_empty (a : string) : String.append a "" = a.
Proof. induction a as [|c a IH]; cbn; [reflexivity | now rewrite IH]. Qed.

(** X13.  An object that is a member's value and whose otype has no name
    yet.  [p_member] registers it under (otype, snippet) with the name
    [type_name] computes, so an object without [otype] is registered under
    [(None, snippet)] and named [None], or [None_snippet] when its
    [snippet] is true; it then sets the object's [ref] to the name and
    empties its attributes.  The registered entry is this very object, so
    the entry is left without attributes. *)
Theorem member_object_is_registered (key : string) (value : loc) (w : world)
    (t : TypeNode) :
  objs (mem w) !! value = Some (TNode t) ->
  registry_inv (type_registry w) ->
  get_ref (type_registry w) (tn_otype t) = None ->
  let name := type_name (tn_otype t) (tn_snippet t) in
  p_member key value w
  = (Return [(key, value)],
     {| mem := {| objs := <[value := TNode (with_attributes []
                                             (with_ref (Some name) t))]>
                            (objs (mem w));
                  stdout := stdout (mem w) |};
        type_registry :=
          {| types := types (type_registry w)
                      ++ [((tn_otype t, tn_snippet t), value)];
             type_names := type_names (type_registry w)
                           ++ [((tn_otype t, tn_snippet t), name)] |} |}) /\
  (tn_otype t = None ->
   name = if tn_snippet t then "None_snippet" else "None") /\
  (forall id : string,
     tn_otype t = Some (LStr id) ->
     name = if tn_snippet t then String.append id "_snippet" else id).
Proof.
  intros Ht Hinv Href name. split; [now apply p_member_registers|].
  subst name. split.
  - intros ->. now destruct (tn_snippet t).
  - intros id ->. unfold type_name. cbn [py_str].
    destruct (tn_snippet t); [reflexivity|]. apply string_append_empty.
Qed.

Lemma member_object_is_registered_witness :
  p_member "child" 2
    {| mem := untagged_store; type_registry := TypeRegistry_init |}
  = (Return [("child", 2)],
     {| mem := {| objs := <[2 := TNode (with_attributes []
                                         (with_ref (Some "None_snippet")
                                            untagged_snippet_object))]>
                            (objs untagged_store);
                  stdout := [] |};
        type_registry :=
          {| types := [((None, true), 2)];
             type_names := [((None, true), "None_snippet")] |} |}) /\
  type_name (tn_otype untagged_snippet_object)
    (tn_snippet untagged_snippet_object) = "None_snippet".
Proof.
  destruct (member_object_is_registered "child" 2
              {| mem := untagged_store; type_registry := TypeRegistry_init |}
              untagged_snippet_object eq_refl registry_inv_init eq_refl)
    as (Hrun & Hname & _).
  split; [exact Hrun | exact (Hname eq_refl)].
Defined.

Lemma p_member_clears (key : string) (value : loc) (w : world)
    (t : TypeNode) :
  objs (mem w) !! value = Some (TNode t) ->
  truthy (get_ref (type_registry w) (tn_otype t)) = true ->
  p_member key value w
  = (Return [(key, value)],
     {| mem := {| objs := <[value := TNode (with_attributes []
                              (with_ref (get_ref (type_registry w)
                                           (tn_otype t)) t))]>
                            (objs (mem w));
                  stdout := stdout (mem w) |};
        type_registry := type_registry w |}).
Proof.
  intros Ht Hname. rewrite (p_member_eq _ _ _ _ Ht).
  cbn [class_of].
  match goal with
  | |- _ = (_, ?w') =>
      enough (Hinner : p_member_TypeNode value w = (Return tt, w'))
        by now rewrite (bind_eq _ _ _ _ _ Hinner)
  end.
  unfold p_member_TypeNode, get_otype.
  rewrite (bind_eq _ _ _ _ _ (lift_pure _ _ _ (get_TypeNode_eq _ _ _ _ _ Ht))).
  unfold get_registry at 1. unfold bind at 1. rewrite Hname.
  rewrite (set_ref_then_clear _ _ _ t) by exact Ht. reflexivity.
Qed.

(** X14.  A tagged object first seen as a member's value loses its
    attributes in the schema.  Let a document [j] parse to an object that is
    the registry's entry for its own (otype, snippet), as it is when
    [p_object] has just registered it, and let its otype resolve to a
    non-empty name.  Then parsing [{key: j}], for a key other than [otype]
    and [snippet], returns an object whose one attribute is that object,
    and in the state left the registry's entry is still that object, now
    with no attributes: [p_member] has emptied the entry itself. *)
Theorem nested_first_sighting_is_emptied (key : string) (j : json)
    (w w1 : world) (l : loc) (t : TypeNode) :
  key <> "otype" -> key <> "snippet" ->
  value j w = (Return l, w1) ->
  objs (mem w1) !! l = Some (TNode t) ->
  dict_get key_eqb (tn_otype t, tn_snippet t) (types (type_registry w1))
  = Some l ->
  truthy (get_ref (type_registry w1) (tn_otype t)) = true ->
  exists outer w2,
    value (JObject [(key, j)]) w = (Return outer, w2) /\
    type_registry w2 = type_registry w1 /\
    attrs_of (mem w2) l = Some [] /\
    attrs_of (mem w2) outer = Some [(key, l)].
Proof.
  intros Hko Hks Hj Ht Hentry Hname.
  assert (Hlt : l < length (objs (mem w1))) by (eapply lookup_lt_Some; eauto).
  pose proof (p_member_clears key l w1 t Ht Hname) as Hmember.
  set (w1' := {| mem := {| objs := <[l := TNode (with_attributes []
                              (with_ref (get_ref (type_registry w1)
                                           (tn_otype t)) t))]>
                                     (objs (mem w1));
                           stdout := stdout (mem w1) |};
                 type_registry := type_registry w1 |}) in *.
  assert (Hget : forall k, k = "otype" \/ k = "snippet" ->
                           sget k [(key, l)] = None).
  { intros k Hk. unfold sget. cbn.
    destruct (String.eqb key k) eqn:E; [|reflexivity].
    apply String.eqb_eq in E. destruct Hk; congruence. }
  pose proof (p_object_eq w1' [(key, l)] None false) as Hobject.
  unfold member_value in Hobject. rewrite !Hget in Hobject by auto.
  specialize (Hobject eq_refl (or_introl (conj eq_refl eq_refl))).
  cbn zeta in Hobject.
  eexists _, _. split; [|split; [|split]].
  - assert (Hmembers : (v <- value j ;; member <- p_member key v ;;
                        ret member) w = (Return [(key, l)], w1')).
    { rewrite (bind_eq _ _ _ _ _ Hj).
      now rewrite (bind_eq _ _ _ _ _ Hmember). }
    cbn [value]. rewrite (bind_eq _ _ _ _ _ Hmembers). exact Hobject.
  - reflexivity.
  - unfold attrs_of. cbn [mem objs w1'].
    rewrite lookup_app_l by (rewrite length_insert; exact Hlt).
    now rewrite list_lookup_insert_eq by exact Hlt.
  - unfold attrs_of. cbn [mem objs w1'].
    rewrite lookup_app_r by (rewrite length_insert; lia).
    now rewrite length_insert, Nat.sub_diag.
Qed.

Lemma nested_first_sighting_is_emptied_witness :
  exists outer w2,
    value doc_tagged_child initial_world = (Return outer, w2) /\
    type_registry w2
    = type_registry
        (snd (value (JObject [("otype", JString "t"); ("n", JInt 1)])
                initial_world)) /\
    attrs_of (mem w2) 2 = Some [] /\
    attrs_of (mem w2) outer = Some [("child", 2)].
Proof.
  eapply (nested_first_sighting_is_emptied "child"
            (JObject [("otype", JString "t"); ("n", JInt 1)]) initial_world
            (snd (value (JObject [("otype", JString "t"); ("n", JInt 1)])
                    initial_world)) 2);
    try discriminate; vm_compute; reflexivity.
Defined.

Lemma p_object_rejects_witness :
  p_object [("snippet", 1)]
    {| mem := sample_store; type_registry := TypeRegistry_init |}
  = (Raise (TypeError (InvalidSnippet (Some (LStr "x")))),
     {| mem := sample_store; type_registry := TypeRegistry_init |}).
Proof.
  apply (proj1 (p_object_rejects
                  {| mem := sample_store; type_registry := TypeRegistry_init |}
                  [("snippet", 1)]) None 1 (string_scalar false));
    try reflexivity.
  intros b. discriminate.
Defined.

(** ** Later sightings of a registered type *)

(** X15.  A later sighting of a registered (otype, snippet) is merged into
    the object registered first.  When [register_type] returns for a key
    that is present, the registry is as it was, and the entry, the object
    registered first, has kept its attribute names in their order, has
    every attribute name of the new object, and binds every attribute that
    the two did not both have to a nullable node. *)
Theorem later_sighting_is_merged (otype : option literal) (snippet : bool)
    (type_node existing : loc) (w w' : world) (A B : list (string * loc)) :
  dict_get key_eqb (otype, snippet) (types (type_registry w)) = Some existing ->
  attrs_of (mem w) existing = Some A ->
  attrs_of (mem w) type_node = Some B ->
  register_type otype snippet type_node w = (Return tt, w') ->
  type_registry w' = type_registry w /\
  exists A' more,
    attrs_of (mem w') existing = Some A' /\
    map fst A' = map fst A ++ more /\
    (forall k, smem k B = true -> smem k A' = true) /\
    (forall k a, smem k A && smem k B = false -> sget k A' = Some a ->
                 nullable_at (mem w') a).
Proof.
  intros Hkey HA HB Hreg.
  rewrite (register_type_existing _ _ _ _ _ Hkey) in Hreg.
  revert Hreg. generalize recursion_limit. intros depth Hreg.
  destruct (merge depth existing type_node (mem w)) as [[r|e] s] eqn:Hm;
    [|discriminate].
  injection Hreg as <-. cbn [mem type_registry]. split; [reflexivity|].
  now destruct (merge_unites_attributes _ _ _ _ _ _ _ _ HA HB Hm).
Qed.

Lemma later_sighting_is_merged_witness :
  type_registry
    (snd (register_type (Some (LStr "language")) false 4
            {| mem := two_languages;
               type_registry :=
                 {| types := [((Some (LStr "language"), false), 1)];
                    type_names := [((Some (LStr "language"), false),
                                    "language")] |} |}))
  = {| types := [((Some (LStr "language"), false), 1)];
       type_names := [((Some (LStr "language"), false), "language")] |} /\
  exists A' more,
    attrs_of
      (mem (snd (register_type (Some (LStr "language")) false 4
                   {| mem := two_languages;
                      type_registry :=
                        {| types := [((Some (LStr "language"), false), 1)];
                           type_names := [((Some (LStr "language"), false),
                                           "language")] |} |}))) 1
    = Some A' /\
    map fst A' = map fst [("name", 0)] ++ more /\
    (forall k, smem k [("dialect", 3); ("name", 2)] = true ->
               smem k A' = true) /\
    (forall k a,
       smem k [("name", 0)] && smem k [("dialect", 3); ("name", 2)] = false ->
       sget k A' = Some a ->
       nullable_at
         (mem (snd (register_type (Some (LStr "language")) false 4
                      {| mem := two_languages;
                         type_registry :=
                           {| types := [((Some (LStr "language"), false), 1)];
                              type_names := [((Some (LStr "language"), false),
                                              "language")] |} |}))) a).
Proof.
  apply (later_sighting_is_merged (Some (LStr "language")) false 4 1
           {| mem := two_languages;
              type_registry :=
                {| types := [((Some (LStr "language"), false), 1)];
                   type_names := [((Some (LStr "language"), false),
                                   "language")] |} |}
           _ [("name", 0)] [("dialect", 3); ("name", 2)]);
    vm_compute; reflexivity.
Defined.

(** ** Looking up what was registered *)

Lemma key_eqb_equal (a b : option literal) (snippet : bool) :
  py_eq_opt a b = true -> key_eqb (a, snippet) (b, snippet) = true.
Proof.
  intros H. unfold key_eqb. cbn [fst snd]. rewrite H. now destruct snippet.
Qed.

Lemma get_ref_present (r : TypeRegistry) (otype : option literal)
    (snippet : bool) (l : loc) :
  registry_inv r ->
  dict_get key_eqb (otype, snippet) (types r) = Some l ->
  get_ref r otype <> None.
Proof.
  intros Hinv Hl. unfold get_ref, get_preferred_snippet.
  destruct (dict_mem key_eqb (otype, false) (types r)) eqn:Ef.
  { now apply registry_entry_named. }
  destruct (dict_mem key_eqb (otype, true) (types r)) eqn:Et.
  { now apply registry_entry_named. }
  unfold dict_mem in Ef, Et. destruct snippet; rewrite Hl in *; discriminate.
Qed.

(** Two keys that compare equal find the same stored item. *)
Lemma dict_find_eqb {V} (a b : regkey) (d : list (regkey * V)) :
  key_eqb a b = true -> dict_find key_eqb a d = dict_find key_eqb b d.
Proof.
  intros Hab. induction d as [|[k' v'] d IH]; cbn; [reflexivity|].
  rewrite IH. destruct (key_eqb k' a) eqn:Ea, (key_eqb k' b) eqn:Eb;
    try reflexivity.
  - rewrite (key_eqb_trans _ _ _ Ea Hab) in Eb. discriminate.
  - rewrite key_eqb_sym in Hab. rewrite (key_eqb_trans _ _ _ Eb Hab) in Ea.
    discriminate.
Qed.

Lemma dict_find_app {K V} (eqb : K -> K -> bool) (k : K)
    (d e : list (K * V)) :
  dict_find eqb k (d ++ e)
  = match dict_find eqb k d with
    | Some kv => Some kv
    | None => dict_find eqb k e
    end.
Proof.
  induction d as [|[k' v'] d IH]; cbn; [reflexivity|].
  now destruct (eqb k' k).
Qed.

(** X16.  Looking up after registering.  Once [register_type] has
    returned for (otype, snippet), [types] holds one item that every otype
    comparing equal to it (as [1], [1.0] and [True] do) finds: the item
    already stored under such a key, with the key as it was first stored
    and the object registered then, or else the key and the object just
    passed.  [get_type] returns that item's object, [get_type_name] the
    name computed from that item's stored key, not from the otype looked
    up, and [get_ref] resolves the otype to a name. *)
Theorem register_then_lookup (otype other : option literal) (snippet : bool)
    (l : loc) (w w' : world) :
  registry_inv (type_registry w) ->
  register_type otype snippet l w = (Return tt, w') ->
  py_eq_opt other otype = true ->
  exists entry stored,
    dict_find key_eqb (other, snippet) (types (type_registry w'))
    = Some (stored, entry) /\
    (dict_find key_eqb (otype, snippet) (types (type_registry w))
     = Some (stored, entry) \/
     dict_find key_eqb (otype, snippet) (types (type_registry w)) = None /\
     stored = (otype, snippet) /\ entry = l) /\
    TypeRegistry_get_type (type_registry w') other snippet = Some entry /\
    (TypeRegistry_get_type (type_registry w) otype snippet = Some entry \/
     TypeRegistry_get_type (type_registry w) otype snippet = None /\
     entry = l) /\
    key_eqb stored (other, snippet) = true /\
    TypeRegistry_get_type_name (type_registry w') (other, snippet)
    = Some (type_name (fst stored) (snd stored)) /\
    get_ref (type_registry w') other <> None.
Proof.
  intros Hinv Hreg Heq.
  pose proof (register_type_inv w otype snippet l Hinv) as Hinv'.
  pose proof (register_type_registry w otype snippet l Hinv) as Hr.
  rewrite Hreg in Hinv', Hr. cbn [snd] in Hinv', Hr.
  unfold TypeRegistry_get_type, TypeRegistry_get_type_name.
  assert (Hitem : exists entry stored,
            dict_find key_eqb (otype, snippet) (types (type_registry w'))
            = Some (stored, entry) /\
            (dict_find key_eqb (otype, snippet) (types (type_registry w))
             = Some (stored, entry) \/
             dict_find key_eqb (otype, snippet) (types (type_registry w))
             = None /\ stored = (otype, snippet) /\ entry = l)).
  { rewrite Hr, (dict_get_find key_eqb).
    destruct (dict_find key_eqb (otype, snippet) (types (type_registry w)))
      as [[stored existing]|] eqn:Ek; cbn [option_map].
    - exists existing, stored. rewrite Ek. auto.
    - exists l, (otype, snippet). split; [|auto]. cbn [types].
      rewrite dict_find_app, Ek. cbn [dict_find].
      now rewrite key_eqb_refl. }
  destruct Hitem as (entry & stored & Hfind & Hfrom).
  rewrite <- (dict_find_eqb (other, snippet) (otype, snippet)
                (types (type_registry w')) (key_eqb_equal _ _ _ Heq))
    in Hfind.
  assert (Hentry : dict_get key_eqb (other, snippet)
                     (types (type_registry w')) = Some entry).
  { now rewrite (dict_get_find key_eqb), Hfind. }
  exists entry, stored. split; [exact Hfind|]. split; [exact Hfrom|].
  split; [exact Hentry|]. split.
  { rewrite (dict_get_find key_eqb).
    destruct Hfrom as [-> | (-> & _ & ->)]; cbn [option_map snd]; auto. }
  split; [eapply dict_find_key; exact Hfind|]. split.
  - rewrite (type_names_get _ _ Hinv'), Hfind. reflexivity.
  - eapply get_ref_present; eauto.
Qed.

Lemma register_then_lookup_witness :
  exists entry stored,
    dict_find key_eqb (Some (LFloat float_one), false)
      (types (type_registry one_then_true))
    = Some (stored, entry) /\
    (dict_find key_eqb (Some (LBool true), false)
       (types (type_registry one_registered))
     = Some (stored, entry) \/
     dict_find key_eqb (Some (LBool true), false)
       (types (type_registry one_registered)) = None /\
     stored = (Some (LBool true), false) /\ entry = 9) /\
    TypeRegistry_get_type (type_registry one_then_true)
      (Some (LFloat float_one)) false
    = Some entry /\
    (TypeRegistry_get_type (type_registry one_registered)
       (Some (LBool true)) false = Some entry \/
     TypeRegistry_get_type (type_registry one_registered)
       (Some (LBool true)) false = None /\
     entry = 9) /\
    key_eqb stored (Some (LFloat float_one), false) = true /\
    TypeRegistry_get_type_name (type_registry one_then_true)
      (Some (LFloat float_one), false)
    = Some (type_name (fst stored) (snd stored)) /\
    get_ref (type_registry one_then_true) (Some (LFloat float_one)) <> None.
Proof.
  apply (register_then_lookup (Some (LBool true)) (Some (LFloat float_one))
           false 9 one_registered one_then_true).
  - split; [|reflexivity]. vm_compute. auto.
  - vm_compute. reflexivity.
  - vm_compute. reflexivity.
Defined.

(** ** The form of the schema *)

Lemma dict_get_none_In {K V} (eqb : K -> K -> bool) (k k' : K) (v : V)
    (d : list (K * V)) :
  dict_get eqb k d = None -> In (k', v) d -> eqb k' k = false.
Proof.
  induction d as [|[k0 v0] d IH]; cbn; [contradiction|].
  destruct (eqb k0 k) eqn:E; [discriminate|].
  intros Hd [[= -> ->]|Hin]; auto.
Qed.

Lemma attributes_to_dict_spec (s : store) (r : TypeRegistry)
    (items : list (string * loc)) (result out : list (string * pyobj)) :
  dict_ok String.eqb items ->
  (forall k a, In (k, a) items -> sget k result = None) ->
  attributes_to_dict s r items result = Return out ->
  exists outs,
    out = result ++ outs /\
    Forall2 (fun kv o => fst o = fst kv /\
                         attribute_to_dict s r (snd kv) = Return (snd o))
      items outs.
Proof.
  revert result out. induction items as [|[key attr] items IH];
    intros result out Hok Hfresh Hout; cbn [attributes_to_dict] in Hout.
  - injection Hout as <-. exists []. split; [now rewrite app_nil_r|].
    constructor.
  - destruct Hok as [Hkey Hok].
    destruct (attribute_to_dict s r attr) as [d|e] eqn:Ed; [|discriminate].
    cbn [obind] in Hout.
    assert (Hset : sset key d result = result ++ [(key, d)]).
    { unfold sset. apply dict_set_absent. apply (Hfresh key attr). now left. }
    rewrite Hset in Hout.
    destruct (IH (result ++ [(key, d)]) out Hok) as (outs & -> & Hall);
      [|exact Hout|].
    + intros k a Hin. unfold sget. rewrite dict_get_app.
      fold (@sget pyobj k result). rewrite (Hfresh k a) by now right.
      cbn [dict_get].
      rewrite String.eqb_sym.
      now rewrite (dict_get_none_In String.eqb key k a items Hkey Hin).
    + exists ((key, d) :: outs). split; [now rewrite <- app_assoc|].
      constructor; [now split | exact Hall].
Qed.

(** X17.  The form of a serialised object.  When [TypeNode.to_dict]
    returns for an object whose attribute map has no key twice, the result
    holds [type], [otype] and [snippet], then [nullable] (only when the
    flag is set), then [attributes] (only when there are attributes): one
    item per attribute, under the attribute's name and in the attributes'
    order, each the serialisation of that attribute. *)
Theorem schema_entry_format (s : store) (r : TypeRegistry) (t : TypeNode)
    (d : pyobj) :
  dict_ok String.eqb (tn_attributes t) ->
  TypeNode_to_dict s r t = Return d ->
  exists outs,
    d = PyDict (entry_header t
                ++ match outs with
                   | [] => []
                   | _ :: _ => [("attributes", PyDict outs)]
                   end) /\
    Forall2 (fun kv o => fst o = fst kv /\
                         attribute_to_dict s r (snd kv) = Return (snd o))
      (tn_attributes t) outs.
Proof.
  intros Hok Hd. unfold TypeNode_to_dict in Hd.
  destruct (tn_attributes t) as [|kv attrs] eqn:Eattrs.
  - injection Hd as <-. exists []. split; [|constructor].
    unfold entry_header. rewrite app_nil_r. now destruct (tn_nullable t).
  - destruct (attributes_to_dict s r (kv :: attrs) []) as [out|e] eqn:Eout;
      [|discriminate].
    cbn [obind] in Hd. injection Hd as <-.
    destruct (attributes_to_dict_spec s r (kv :: attrs) [] out Hok)
      as (outs & -> & Hall); [reflexivity | exact Eout|].
    exists outs. split; [|exact Hall]. cbn [app].
    destruct outs as [|o outs']; [inversion Hall|].
    unfold entry_header. now destruct (tn_nullable t).
Qed.

Lemma schema_entry_format_witness :
  exists outs,
    PyDict [("type", PyStr (Some "object"));
            ("otype", PyValue (Some (LStr "language")));
            ("snippet", PyValue (Some (LBool false)));
            ("attributes",
             PyDict [("dialect", scalar_schema "string");
                     ("name", scalar_schema "string")])]
    = PyDict (entry_header (language_object [("dialect", 3); ("name", 2)])
              ++ match outs with
                 | [] => []
                 | _ :: _ => [("attributes", PyDict outs)]
                 end) /\
    Forall2 (fun kv o => fst o = fst kv /\
                         attribute_to_dict two_languages TypeRegistry_init
                           (snd kv) = Return (snd o))
      (tn_attributes (language_object [("dialect", 3); ("name", 2)])) outs.
Proof.
  apply (schema_entry_format two_languages TypeRegistry_init
           (language_object [("dialect", 3); ("name", 2)])).
  - vm_compute. auto.
  - vm_compute. reflexivity.
Defined.

(** ** Strings that are dates *)

Lemma fullmatch_cons (p : ascii -> bool) (ps : list (ascii -> bool))
    (s : string) :
  fullmatch (p :: ps) s = true <->
  exists c s', s = String c s' /\ p c = true /\ fullmatch ps s' = true.
Proof.
  destruct s as [|c s']; cbn.
  - split; [discriminate | now intros (? & ? & ? & _)].
  - rewrite andb_true_iff. split.
    + intros [H1 H2]. now exists c, s'.
    + now intros (? & ? & [= <- <-] & ? & ?).
Qed.

Lemma fullmatch_nil (s : string) : fullmatch [] s = true <-> s = EmptyString.
Proof. destruct s; cbn; split; congruence. Qed.

Lemma is_dash_eq (c : ascii) : is_dash c = true <-> c = "-"%char.
Proof.
  unfold is_dash. rewrite Nat.eqb_eq. split.
  - intros H. rewrite <- (ascii_nat_embedding c), H. reflexivity.
  - now intros ->.
Qed.

Lemma date_pattern_shaped (s : string) :
  fullmatch date_pattern s = true <-> date_shaped s.
Proof.
  unfold date_pattern, date_shaped. split.
  - intros H.
    apply fullmatch_cons in H as (y1 & s1 & -> & Hy1 & H).
    apply fullmatch_cons in H as (y2 & s2 & -> & Hy2 & H).
    apply fullmatch_cons in H as (y3 & s3 & -> & Hy3 & H).
    apply fullmatch_cons in H as (y4 & s4 & -> & Hy4 & H).
    apply fullmatch_cons in H as (c1 & s5 & -> & Hc1 & H).
    apply fullmatch_cons in H as (m1 & s6 & -> & Hm1 & H).
    apply fullmatch_cons in H as (m2 & s7 & -> & Hm2 & H).
    apply fullmatch_cons in H as (c2 & s8 & -> & Hc2 & H).
    apply fullmatch_cons in H as (d1 & s9 & -> & Hd1 & H).
    apply fullmatch_cons in H as (d2 & s10 & -> & Hd2 & H).
    apply fullmatch_nil in H as ->.
    apply is_dash_eq in Hc1 as ->. apply is_dash_eq in Hc2 as ->.
    exists y1, y2, y3, y4, m1, m2, d1, d2. split; [|reflexivity].
    now repeat constructor.
  - intros (y1 & y2 & y3 & y4 & m1 & m2 & d1 & d2 & Hall & ->).
    repeat match goal with
           | H : Forall _ (_ :: _) |- _ => apply Forall_cons in H as [? H]
           end.
    cbn [fullmatch].
    repeat match goal with
           | H : is_digit _ = true |- _ => rewrite H; clear H
           end.
    reflexivity.
Qed.

(** X18.  Which strings are dates.  [p_value_string] builds a scalar of
    type [date] exactly for the strings of the form [dddd-dd-dd] (four
    digits, a dash, two digits, a dash, two digits: no range is checked)
    and a scalar of type [string] for every other string; the scalar holds
    the string as its value, is not nullable and has no key. *)
Theorem p_value_string_classifies (str : string) (s : store) :
  (date_shaped str ->
   p_value_string str s
   = alloc (VNode {| vn_type := Some "date"; vn_value := Some (LStr str);
                     vn_nullable := false; vn_key := None |}) s) /\
  (~ date_shaped str ->
   p_value_string str s
   = alloc (VNode {| vn_type := Some "string"; vn_value := Some (LStr str);
                     vn_nullable := false; vn_key := None |}) s).
Proof.
  unfold p_value_string, new_ValueNode.
  destruct (fullmatch date_pattern str) eqn:E.
  - split; [reflexivity|]. intros Hn. now apply date_pattern_shaped in E.
  - split; [|reflexivity]. intros Hd. apply date_pattern_shaped in Hd.
    congruence.
Qed.

Lemma p_value_string_classifies_witness :
  p_value_string "9999-99-99" sample_store
  = alloc (VNode {| vn_type := Some "date";
                    vn_value := Some (LStr "9999-99-99");
                    vn_nullable := false; vn_key := None |}) sample_store.
Proof.
  apply (proj1 (p_value_string_classifies "9999-99-99" sample_store)).
  exists "9"%char, "9"%char, "9"%char, "9"%char, "9"%char, "9"%char,
    "9"%char, "9"%char.
  split; [now repeat constructor | reflexivity].
Defined.

(** ** What a run never undoes *)

Lemma node_fixed_refl (n : node) : node_fixed n n.
Proof. destruct n; cbn; auto. Qed.

Lemma node_fixed_trans (a b c : node) :
  node_fixed a b -> node_fixed b c -> node_fixed a c.
Proof.
  destruct a, b, c; cbn; try tauto; intuition congruence.
Qed.

Lemma node_kept_refl (n : node) : node_kept n n.
Proof. split; [apply node_fixed_refl | auto]. Qed.

Lemma node_kept_trans (a b c : node) :
  node_kept a b -> node_kept b c -> node_kept a c.
Proof.
  intros [H1 F1] [H2 F2]. split; [eapply node_fixed_trans; eauto | auto].
Qed.

Lemma store_kept_refl (s : store) : store_kept s s.
Proof.
  split.
  - intros l n H. exists n. auto using node_kept_refl.
  - exists []. now rewrite app_nil_r.
Qed.

Lemma store_kept_trans (a b c : store) :
  store_kept a b -> store_kept b c -> store_kept a c.
Proof.
  intros [H1 [m1 O1]] [H2 [m2 O2]]. split.
  - intros l n Hl. destruct (H1 _ _ Hl) as (n1 & Hl1 & K1).
    destruct (H2 _ _ Hl1) as (n2 & Hl2 & K2).
    exists n2. eauto using node_kept_trans.
  - exists (m1 ++ m2). now rewrite O2, O1, app_assoc.
Qed.

Lemma world_kept_refl (w : world) : world_kept w w.
Proof.
  split; [apply store_kept_refl|].
  split; exists []; now rewrite app_nil_r.
Qed.

Lemma world_kept_trans (a b c : world) :
  world_kept a b -> world_kept b c -> world_kept a c.
Proof.
  intros (S1 & [t1 T1] & [n1 N1]) (S2 & [t2 T2] & [n2 N2]).
  split; [eapply store_kept_trans; eauto|]. split.
  - exists (t1 ++ t2). now rewrite T2, T1, app_assoc.
  - exists (n1 ++ n2). now rewrite N2, N1, app_assoc.
Qed.

Lemma node_grows_kept (n n' : node) : node_grows n n' -> node_kept n n'.
Proof.
  destruct n, n'; cbn; try contradiction; unfold node_kept; cbn; intuition.
Qed.

Lemma grows_store_kept (s s' : store) : grows s s' -> store_kept s s'.
Proof.
  intros (_ & Hnodes & Hout). split; [|exact Hout].
  intros l n Hl. destruct (Hnodes _ _ Hl) as (n' & Hl' & Hg).
  exists n'. auto using node_grows_kept.
Qed.

Lemma kept_merge (depth : nat) (self other : loc) :
  always store_kept (merge depth self other).
Proof. intros s. apply grows_store_kept, grows_merge. Qed.

Lemma kept_alloc (n : node) : always store_kept (alloc n).
Proof.
  intros s. unfold alloc. cbn [snd]. split.
  - intros l x Hl. exists x. cbn [objs].
    split; [now apply lookup_app_l_Some | apply node_kept_refl].
  - exists []. cbn. now rewrite app_nil_r.
Qed.

Lemma store_kept_write (s : store) (l : loc) (n n' : node) :
  objs s !! l = Some n -> node_kept n n' ->
  store_kept s {| objs := <[l := n']> (objs s); stdout := stdout s |}.
Proof.
  intros Hl Hk. split.
  - intros l0 n0 H0. cbn [objs]. destruct (Nat.eq_dec l0 l) as [->|Hne].
    + rewrite list_lookup_insert_eq by (eapply lookup_lt_Some; eauto).
      exists n'. split; [reflexivity|]. congruence.
    + rewrite list_lookup_insert_ne by congruence.
      exists n0. auto using node_kept_refl.
  - exists []. cbn. now rewrite app_nil_r.
Qed.

Lemma kept_set_ref (l : loc) (r : option string) :
  always store_kept (set_ref l r).
Proof.
  intros s. unfold set_ref, bind, load, write, raise.
  destruct (objs s !! l) as [[x|t|x]|] eqn:Hl; cbn [snd];
    try apply store_kept_refl.
  eapply store_kept_write; [exact Hl|]. split; cbn; auto.
Qed.

Lemma kept_set_attributes (l : loc) (attrs : list (string * loc)) :
  always store_kept (set_attributes l attrs).
Proof.
  intros s. unfold set_attributes, bind, load, write, raise.
  destruct (objs s !! l) as [[x|t|x]|] eqn:Hl; cbn [snd];
    try apply store_kept_refl.
  eapply store_kept_write; [exact Hl|]. split; cbn; auto.
Qed.

Lemma always_at_attribute {St A} (R : St -> St -> Prop) (key : string)
    (m : M St A) :
  always R m -> always R (at_attribute key m).
Proof.
  intros H s. specialize (H s). unfold at_attribute.
  destruct (m s) as [[a|e] s']; [exact H|]. now destruct e.
Qed.

Lemma kept_p_members_multiple (p1 p3 : list (string * loc)) :
  always store_kept (p_members_multiple p1 p3).
Proof.
  revert p3. induction p1 as [|[key value] p1 IH]; intros p3;
    cbn [p_members_multiple].
  - apply always_ret, store_kept_refl.
  - apply always_bind; [exact store_kept_trans| |intros; apply IH].
    destruct (sget key p3) as [mine|].
    + apply always_bind; [exact store_kept_trans| |].
      * apply always_at_attribute, kept_merge.
      * intros. apply always_ret, store_kept_refl.
    + apply always_ret, store_kept_refl.
Qed.

Lemma kept_reads {A} (m : M store A) : reads m -> always store_kept m.
Proof. apply always_reads, store_kept_refl. Qed.

Lemma kept_p_array (elements : list loc) : always store_kept (p_array elements).
Proof.
  destruct elements as [|first rest]; cbn [p_array]; [apply kept_alloc|].
  apply always_bind; [exact store_kept_trans| |intros; apply kept_alloc].
  apply always_for_each; [exact store_kept_refl | exact store_kept_trans|].
  intros elem. apply kept_reads.
  apply reads_bind; [apply reads_get_class|]. intros c1.
  apply reads_bind; [apply reads_get_class|]. intros c2.
  destruct (negb _); [apply reads_raise|].
  destruct (_ && _); [|apply reads_ret].
  apply reads_bind; [apply reads_get_type|]. intros t1.
  apply reads_bind; [apply reads_get_type|]. intros t2.
  destruct (negb _); [apply reads_raise | apply reads_ret].
Qed.

Lemma reads_the_element_type (value : loc) : reads (the_element_type value).
Proof.
  apply reads_bind; [apply reads_get_element_type|].
  intros [e|]; [apply reads_ret | apply reads_raise].
Qed.

Lemma learns_ret {A} (a : A) : learns (ret a).
Proof. intros w H. split; [exact H | apply world_kept_refl]. Qed.

Lemma learns_raise {A} (e : exn) : learns (@raise world A e).
Proof. intros w H. split; [exact H | apply world_kept_refl]. Qed.

Lemma learns_bind {A B} (m : M world A) (k : A -> M world B) :
  learns m -> (forall a, learns (k a)) -> learns (bind m k).
Proof.
  intros Hm Hk w H. unfold bind. destruct (Hm w H) as [Hinv Hkept].
  destruct (m w) as [[a|e] w1]; cbn [snd] in *; [|now split].
  destruct (Hk a w1 Hinv) as [Hinv' Hkept']. split; [exact Hinv'|].
  eapply world_kept_trans; eauto.
Qed.

Lemma learns_lift {A} (m : M store A) : always store_kept m -> learns (lift m).
Proof.
  intros Hm w H. rewrite lift_eq. cbn [snd type_registry mem].
  split; [exact H|]. split; [apply Hm|].
  split; exists []; now rewrite app_nil_r.
Qed.

Lemma learns_reads {A} (m : M store A) : reads m -> learns (lift m).
Proof. intros H. now apply learns_lift, kept_reads. Qed.

Lemma learns_get_registry : learns get_registry.
Proof. intros w H. split; [exact H | apply world_kept_refl]. Qed.

Lemma learns_register_type (otype : option literal) (snippet : bool)
    (l : loc) :
  learns (register_type otype snippet l).
Proof.
  intros w H. split; [now apply register_type_inv|]. split.
  - apply grows_store_kept, register_type_grows.
  - rewrite (register_type_registry _ _ _ _ H).
    destruct (dict_get key_eqb (otype, snippet) (types (type_registry w))).
    + split; exists []; now rewrite app_nil_r.
    + cbn [types type_names]. split; eexists; reflexivity.
Qed.

Lemma learns_p_object (attributes : list (string * loc)) :
  learns (p_object attributes).
Proof.
  unfold p_object.
  apply learns_bind.
  { destruct (sget "otype" attributes);
      [apply learns_reads, reads_get_value | apply learns_ret]. }
  intros otype. apply learns_bind.
  { destruct (sget "snippet" attributes); [|apply learns_ret].
    apply learns_bind; [apply learns_reads, reads_get_value|].
    intros [[?|?|?|[|]]|]; first [apply learns_ret | apply learns_raise]. }
  intros snippet. apply learns_bind; [apply learns_lift, kept_alloc|].
  intros type_node. apply learns_bind; [|intros; apply learns_ret].
  destruct otype; [apply learns_register_type | apply learns_ret].
Qed.

Lemma learns_p_member (key : string) (l : loc) : learns (p_member key l).
Proof.
  assert (Hfield : forall A field (f : TypeNode -> A) v,
            reads (e <- the_element_type v ;; get_TypeNode field f e)).
  { intros. apply reads_bind; [apply reads_the_element_type|].
    intros. apply reads_get_TypeNode. }
  unfold p_member. apply learns_bind; [apply learns_reads, reads_get_class|].
  intros c. apply learns_bind; [|intros; apply learns_ret].
  destruct c.
  - apply learns_ret.
  - unfold p_member_TypeNode, get_otype, get_snippet.
    repeat first
      [ apply learns_reads, reads_get_TypeNode
      | apply learns_lift, kept_set_ref
      | apply learns_lift, kept_set_attributes
      | apply learns_ret | apply learns_get_registry
      | apply learns_register_type
      | apply learns_bind; [|intros ?]
      | match goal with |- learns (if ?b then _ else _) => destruct b end ].
  - unfold p_member_ListNode, get_otype, get_snippet.
    apply learns_bind; [apply learns_reads, reads_get_element_type|].
    intros [e|]; [|apply learns_ret].
    apply learns_bind; [apply learns_reads, reads_get_class|]. intros c.
    destruct c; try apply learns_ret.
    repeat first
      [ apply learns_reads, Hfield
      | apply learns_reads, reads_the_element_type
      | apply learns_lift, kept_set_ref
      | apply learns_lift, kept_set_attributes
      | apply learns_ret | apply learns_get_registry
      | apply learns_register_type
      | apply learns_bind; [|intros ?]
      | match goal with |- learns (if ?b then _ else _) => destruct b end ].
Qed.

Lemma learns_value (j : json) : learns (value j).
Proof.
  revert j. fix IH 1. intros [members|elements|s|n|f| | |]; cbn [value];
    try (apply learns_lift; unfold p_value_string, p_value_number,
           p_value_true, p_value_false, p_value_null, new_ValueNode;
         try destruct (fullmatch date_pattern s); apply kept_alloc).
  - apply learns_bind; [|intros; apply learns_p_object].
    induction members as [|[key j'] rest IHrest]; [apply learns_raise|].
    apply learns_bind; [apply IH|]. intros v.
    apply learns_bind; [apply learns_p_member|]. intros member.
    destruct rest as [|m rest]; [apply learns_ret|].
    apply learns_bind; [exact IHrest|].
    intros; apply learns_lift, kept_p_members_multiple.
  - apply learns_bind; [|intros; apply learns_lift, kept_p_array].
    induction elements as [|j' rest IHrest]; [apply learns_raise|].
    apply learns_bind; [apply IH|]. intros v.
    destruct rest as [|m rest]; [apply learns_ret|].
    apply learns_bind; [exact IHrest | intros; apply learns_ret].
Qed.

Lemma learns_run (data_list : list json) : learns (run data_list).
Proof.
  unfold run. apply learns_bind.
  - unfold parse_all. induction data_list as [|j rest IH]; cbn [for_each];
      [apply learns_ret|].
    apply learns_bind; [|intros; exact IH].
    apply learns_bind; [apply learns_value | intros; apply learns_ret].
  - intros _ w H. destruct (TypeRegistry_to_dict w); cbn [snd];
      (split; [exact H | apply world_kept_refl]).
Qed.

(** X19.  What a run never undoes.  From any state in which the registry's
    dictionaries go together, and whether the run returns or raises: every
    object is still there with its class, a scalar with its type, value and
    key, a list with its element type, an object with its type, otype and
    snippet; a [nullable] that was true is true; the output is only
    appended to; and the registry's two dictionaries are what they were
    followed by new items: no entry is removed, moved, renamed or bound to
    another object. *)
Theorem run_undoes_nothing (data_list : list json) (w : world) :
  registry_inv (type_registry w) ->
  world_kept w (snd (run data_list w)).
Proof. intros H. now apply learns_run. Qed.

Lemma run_undoes_nothing_witness :
  world_kept (snd (run corpus_a initial_world))
    (snd (run corpus_b (snd (run corpus_a initial_world)))).
Proof.
  apply (run_undoes_nothing corpus_b (snd (run corpus_a initial_world))).
  apply learns_run, registry_inv_init.
Defined.

(** ** The order of an object's attributes *)

Lemma value_JObject (ms : list (string * json)) :
  value (JObject ms) = bind (members_of value ms) p_object.
Proof. reflexivity. Qed.

Lemma p_member_returned (key : string) (value : loc) (w w' : world)
    (d : list (string * loc)) :
  p_member key value w = (Return d, w') -> d = [(key, value)].
Proof.
  unfold p_member. intros H.
  apply bind_inv in H as (c & w1 & _ & H).
  apply bind_inv in H as ([] & w2 & _ & H). now injection H as <-.
Qed.

Lemma members_keys (ms : list (string * json)) (w w' : world)
    (attrs : list (string * loc)) :
  NoDup (map fst ms) ->
  members_of value ms w = (Return attrs, w') ->
  map fst attrs = rev (map fst ms).
Proof.
  revert w w' attrs. induction ms as [|[key j'] rest IH];
    intros w w' attrs Hnd H; [discriminate|].
  cbn [members_of] in H. apply bind_inv in H as (v & w1 & _ & H).
  apply bind_inv in H as (member & w2 & Hmember & H).
  apply p_member_returned in Hmember as ->.
  cbn [map fst] in Hnd. apply NoDup_cons in Hnd as [Hfresh Hnd].
  destruct rest as [|m rest]; [now injection H as <-|].
  apply bind_inv in H as (tail & w3 & Htail & H).
  fold (members_of value (m :: rest)) in Htail.
  pose proof (IH _ _ _ Hnd Htail) as Hkeys.
  apply lift_inv in H as (s & H & _).
  rewrite p_members_multiple_one in H.
  assert (Hnone : sget key tail = None).
  { destruct (sget key tail) as [x|] eqn:E; [|reflexivity].
    exfalso. apply Hfresh. apply sget_smem in E.
    apply smem_In in E. rewrite Hkeys in E. apply list_elem_of_In.
    now apply in_rev. }
  rewrite Hnone in H. injection H as <-.
  rewrite map_app, Hkeys. reflexivity.
Qed.

Lemma members_ok (ms : list (string * json)) (cls : list class) (w : world) :
  world_ok_with cls w ->
  wp (members_of value ms)
     (fun attrs w' =>
        exists more, world_ok_with (cls ++ more) w' /\
          Forall (fun kv : string * loc => snd kv < length (cls ++ more))
            attrs)
     any_exn w.
Proof.
  revert cls w. induction ms as [|[key j'] rest IHrest]; intros cls w Hw;
    [exact I|].
  cbn [members_of]. apply wp_bind.
  eapply wp_mono; [apply (value_ok j' cls w Hw)| |intros; exact I].
  cbn beta. intros v w1 (more1 & Hw1 & Hv).
  apply wp_bind.
  eapply wp_mono; [apply (p_member_ok _ key v w1 Hw1 Hv)| |intros; exact I].
  cbn beta. intros member w2 [Hw2 ->].
  destruct rest as [|m rest].
  { apply wp_ret. exists more1. split; [exact Hw2|]. now repeat constructor. }
  apply wp_bind. eapply wp_mono; [apply (IHrest _ w2 Hw2)| |intros; exact I].
  cbn beta. intros tail w3 (more2 & Hw3 & Htail).
  pose proof Hw3 as (Hs3 & _). apply wp_lift.
  eapply wp_mono;
    [apply (p_members_multiple_ok _ [(key, v)] tail _ Hs3)| |intros; exact I].
  - repeat constructor. cbn. rewrite length_app. lia.
  - exact Htail.
  - cbn beta. intros p0 s' [Hs' Hp0]. exists (more1 ++ more2).
    rewrite app_assoc. split; [|exact Hp0].
    now apply world_ok_with_store_same.
Qed.

Lemma In_dict_set {K V} (eqb : K -> K -> bool) (k k' : K) (v v' : V)
    (d : list (K * V)) :
  In (k', v') (dict_set eqb k v d) -> v' = v \/ In (k', v') d.
Proof.
  induction d as [|[k0 v0] d IH]; cbn.
  - intros [[= <- <-]|[]]. now left.
  - destruct (eqb k0 k); cbn.
    + intros [[= <- <-]|Hin]; auto.
    + intros [Heq|Hin]; [auto|]. destruct (IH Hin); auto.
Qed.

Lemma wp_for_items_at (Inv : store -> Prop) (l : loc)
    (body : string -> loc -> M store unit) (s : store) :
  (forall s attrs j k v,
     Inv s -> attrs_of s l = Some attrs -> attrs !! j = Some (k, v) ->
     wp (body k v) (fun _ s' => Inv s') any_exn s) ->
  Inv s ->
  wp (for_items (get_attributes l) body) (fun _ s' => Inv s') any_exn s.
Proof.
  intros Hbody Hs. unfold for_items.
  apply wp_bind_returns. intros first s1 Hfirst.
  apply get_TypeNode_inv in Hfirst as (t & Ht & -> & ->).
  apply (wp_items_from_returns (fun _ s => Inv s)); auto.
  intros j s0 attrs k v HI Hattrs _ Hk. eapply Hbody; eauto.
Qed.

Section Leaves.
Variable l : loc.
Variable A : list (string * loc).

Lemma leaves_flag (s : store) (x : loc) (n : node) (b : bool) :
  objs s !! x = Some n ->
  unreferenced l s /\ attrs_of s l = Some A ->
  unreferenced l {| objs := <[x := node_with_nullable b n]> (objs s);
                    stdout := stdout s |} /\
  attrs_of {| objs := <[x := node_with_nullable b n]> (objs s);
              stdout := stdout s |} l = Some A.
Proof.
  intros Hx [Hun HA]. split.
  - intros y attrs k v Hattrs. rewrite (attrs_of_flag _ _ _ _ _ Hx) in Hattrs.
    now apply (Hun y attrs k v).
  - now rewrite (attrs_of_flag _ _ _ _ _ Hx).
Qed.

Lemma leaves_set_nullable (x : loc) (b : bool) (s s' : store) :
  set_nullable x b s = (Return tt, s') ->
  unreferenced l s /\ attrs_of s l = Some A ->
  unreferenced l s' /\ attrs_of s' l = Some A.
Proof.
  intros H HP. apply set_nullable_inv in H as (n & Hn & ->).
  now apply leaves_flag.
Qed.

Lemma leaves_set_item (x : loc) (key : string) (v : loc) (s s' : store) :
  set_item x key v s = (Return tt, s') ->
  x <> l -> v <> l ->
  unreferenced l s /\ attrs_of s l = Some A ->
  unreferenced l s' /\ attrs_of s' l = Some A.
Proof.
  intros H Hx Hv [Hun HA]. apply set_item_inv in H as (t & Ht & ->).
  assert (Hlt : x < length (objs s)) by (eapply lookup_lt_Some; eauto).
  split.
  - intros y attrs k v' Hattrs Hin. unfold attrs_of in Hattrs.
    cbn [objs] in Hattrs. destruct (Nat.eq_dec y x) as [->|Hne].
    + rewrite list_lookup_insert_eq in Hattrs by exact Hlt.
      injection Hattrs as <-. cbn [with_attributes tn_attributes] in Hin.
      apply In_dict_set in Hin as [->|Hin]; [exact Hv|].
      apply (Hun x (tn_attributes t) k v'); [|exact Hin].
      unfold attrs_of. now rewrite Ht.
    + rewrite list_lookup_insert_ne in Hattrs by congruence.
      now apply (Hun y attrs k v').
  - unfold attrs_of. cbn [objs].
    now rewrite list_lookup_insert_ne by congruence.
Qed.

Lemma leaves_or_nullable {B} (k : M store B) (Q : B -> store -> Prop)
    (self other : loc) (s : store) :
  unreferenced l s /\ attrs_of s l = Some A ->
  (forall s', unreferenced l s' /\ attrs_of s' l = Some A ->
              wp k Q any_exn s') ->
  wp (nullable <- py_or (get_nullable self) (get_nullable other) ;;
      set_nullable self nullable ;;; k) Q any_exn s.
Proof.
  intros HP Hk. apply wp_bind_returns. intros b s1 Hor.
  apply wp_bind_returns. intros [] s2 Hset.
  destruct (or_nullable_inv _ _ _ _ _ _ Hor Hset) as (n & Hn & _ & ->).
  apply Hk. now apply leaves_flag.
Qed.

Lemma ValueNode_merge_leaves (self other : loc) (s : store) :
  unreferenced l s /\ attrs_of s l = Some A ->
  wp (ValueNode_merge self other)
     (fun r s' => (unreferenced l s' /\ attrs_of s' l = Some A) /\
                  (r = self \/ r = other))
     any_exn s.
Proof.
  intros HP. unfold ValueNode_merge.
  assert (Hset : forall x r,
            (r = self \/ r = other) ->
            wp (set_nullable x true ;;; ret r)
               (fun r s' => (unreferenced l s' /\ attrs_of s' l = Some A) /\
                            (r = self \/ r = other)) any_exn s).
  { intros x r Hr. apply wp_bind_returns. intros [] s1 H1.
    apply wp_ret. split; [|exact Hr]. eapply leaves_set_nullable; eauto. }
  apply wp_bind_reads; [apply reads_get_type|]. intros [ty|];
    [|apply Hset; auto].
  apply wp_bind_reads; [apply reads_get_key|]. intros key.
  apply wp_bind_reads.
  { destruct (is_otype_or_snippet key); [|apply reads_ret].
    apply reads_bind; [apply reads_get_value|]. intros [a|]; [|apply reads_ret].
    apply reads_bind; [apply reads_get_value|]. intros [b|]; [|apply reads_ret].
    destruct (negb (py_eq a b)); [apply reads_raise | apply reads_ret]. }
  intros _.
  apply wp_bind_reads; [apply reads_get_type|]. intros [ty'|];
    [|apply Hset; auto].
  apply wp_bind_returns. intros [] s1 H1.
  apply bind_inv in H1 as (oty & s2 & Hoty & H1).
  pose proof (reads_get_type other s) as Hr. rewrite Hoty in Hr. cbn in Hr.
  subst s2. destruct oty as [oty|].
  - destruct (negb _); [discriminate|]. injection H1 as <-.
    apply wp_ret. auto.
  - apply wp_ret. split; [|auto]. eapply leaves_set_nullable; eauto.
Qed.

Lemma TypeNode_merge_leaves (merge : loc -> loc -> M store loc)
    (self other : loc) (s : store) :
  (forall a b s, a <> l ->
     unreferenced l s /\ attrs_of s l = Some A ->
     wp (merge a b)
        (fun r s' => (unreferenced l s' /\ attrs_of s' l = Some A) /\
                     (r = a \/ r = b))
        any_exn s) ->
  self <> l ->
  unreferenced l s /\ attrs_of s l = Some A ->
  wp (TypeNode_merge merge self other)
     (fun r s' => (unreferenced l s' /\ attrs_of s' l = Some A) /\
                  (r = self \/ r = other))
     any_exn s.
Proof.
  intros Hmerge Hself HP. unfold TypeNode_merge.
  apply leaves_or_nullable; [exact HP|]. clear s HP. intros s HP.
  apply wp_bind_reads; [apply reads_get_type|]. intros [oty|];
    [|apply wp_ret; auto].
  apply wp_bind_reads; [apply reads_get_type|]. intros sty.
  destruct (negb _).
  { apply wp_bind_reads; [apply reads_get_TypeNode|]. intros. exact I. }
  apply wp_bind_reads; [apply reads_differ|]. intros differ.
  apply wp_bind_returns. intros [] s1 Hw. apply warning_objs in Hw.
  assert (HP1 : unreferenced l s1 /\ attrs_of s1 l = Some A).
  { destruct HP as [Hun HA]. split.
    - intros y attrs k v Hattrs. rewrite (attrs_of_objs _ _ _ Hw) in Hattrs.
      now apply (Hun y attrs k v).
    - now rewrite (attrs_of_objs _ _ _ Hw). }
  clear s HP Hw.
  apply wp_bind.
  eapply wp_mono;
    [apply (wp_for_items_inv
              (fun s => unreferenced l s /\ attrs_of s l = Some A))
    | |intros; exact I].
  { intros key attr s HPs.
    apply wp_bind_reads; [apply reads_get_TypeNode|]. intros attrs.
    destruct (negb _); [|now apply wp_ret].
    apply wp_of_returns. intros [] s' Hset.
    eapply leaves_set_nullable; eauto. }
  { exact HP1. }
  cbn beta. clear s1 HP1. intros _ s HP.
  apply wp_bind.
  eapply wp_mono;
    [apply (wp_for_items_at
              (fun s => unreferenced l s /\ attrs_of s l = Some A))
    | |intros; exact I].
  { clear s HP. intros s oattrs j key attr HP Hoattrs Hj.
    assert (Hattr : attr <> l).
    { destruct HP as [Hun _]. apply (Hun other oattrs key attr Hoattrs).
      apply list_elem_of_In. eapply list_elem_of_lookup_2; eauto. }
    apply wp_bind_returns. intros attrs s1 Hattrs.
    apply get_TypeNode_inv in Hattrs as (t & Ht & -> & ->).
    destruct (sget key (tn_attributes t)) as [mine|] eqn:Emine.
    - assert (Hmine : mine <> l).
      { destruct HP as [Hun _].
        destruct (dict_get_In _ _ _ _ Emine) as (k' & Hin & _).
        apply (Hun self (tn_attributes t) k' mine); [|exact Hin].
        unfold attrs_of. now rewrite Ht. }
      apply wp_bind.
      eapply wp_mono; [apply (Hmerge mine attr s Hmine HP)| |intros; exact I].
      cbn beta. intros merged s1 [HP1 Hmerged].
      apply wp_of_returns. intros [] s2 Hset.
      eapply leaves_set_item; eauto. destruct Hmerged; congruence.
    - apply wp_bind_returns. intros [] s1 Hset.
      apply wp_of_returns. intros [] s2 Hitem.
      eapply leaves_set_item; eauto. eapply leaves_set_nullable; eauto. }
  { exact HP. }
  cbn beta. intros _ s1 HP1. apply wp_ret. auto.
Qed.

Lemma merge_leaves (depth : nat) (self other : loc) (s : store) :
  self <> l ->
  unreferenced l s /\ attrs_of s l = Some A ->
  wp (merge depth self other)
     (fun r s' => (unreferenced l s' /\ attrs_of s' l = Some A) /\
                  (r = self \/ r = other))
     any_exn s.
Proof.
  revert self other s.
  induction depth as [|depth IH]; intros self other s Hself HP.
  - exact I.
  - cbn [merge]. apply wp_bind_reads; [apply reads_load|]. intros [v|t|a].
    + now apply ValueNode_merge_leaves.
    + apply TypeNode_merge_leaves; auto.
    + unfold ListNode_merge. apply leaves_or_nullable; [exact HP|].
      intros s' HP'.
      apply wp_bind_reads; [apply reads_get_element_type|]. intros e.
      rewrite is_not_ListNode_class. apply wp_ret. auto.
Qed.
End Leaves.

Lemma reads_returns {St A} (m : M St A) (s s' : St) (a : A) :
  reads m -> m s = (Return a, s') -> s' = s.
Proof. intros Hm H. specialize (Hm s). rewrite H in Hm. exact Hm. Qed.

Lemma reads_lift {A} (m : M store A) : reads m -> reads (lift m).
Proof.
  intros Hm w. rewrite lift_eq. cbn [snd]. rewrite Hm. apply world_eta.
Qed.

Lemma reads_member_value (key : string) (attributes : list (string * loc)) :
  reads match sget key attributes with
        | Some l => lift (get_value l)
        | None => ret None
        end.
Proof.
  destruct (sget key attributes);
    [apply reads_lift, reads_get_value | apply reads_ret].
Qed.

Lemma reads_snippet_value (attributes : list (string * loc)) :
  reads match sget "snippet" attributes with
        | Some snippet_node =>
            v <- lift (get_value snippet_node) ;;
            match v with
            | Some (LBool true) => ret true
            | Some (LBool false) => ret false
            | _ => raise (TypeError (InvalidSnippet v))
            end
        | None => ret false
        end.
Proof.
  destruct (sget "snippet" attributes); [|apply reads_ret].
  apply reads_bind; [apply reads_lift, reads_get_value|].
  intros [[?|?|?|[|]]|]; first [apply reads_ret | apply reads_raise].
Qed.

Lemma p_object_keeps_attributes (cls : list class)
    (attributes : list (string * loc)) (w w' : world) (l : loc) :
  world_ok_with cls w ->
  Forall (fun kv : string * loc => snd kv < length cls) attributes ->
  p_object attributes w = (Return l, w') ->
  attrs_of (mem w') l = Some attributes.
Proof.
  intros Hw Hrange H. pose proof Hw as (Hs & Hinv & Hentries).
  unfold p_object in H.
  apply bind_inv in H as (otype & wa & Ho & H).
  apply (reads_returns _ _ _ _ (reads_member_value _ _)) in Ho as ->.
  apply bind_inv in H as (snippet & wb & Hsn & H).
  apply (reads_returns _ _ _ _ (reads_snippet_value _)) in Hsn as ->.
  apply bind_inv in H as (type_node & w2 & Halloc & H).
  apply lift_inv in Halloc as (s2 & Halloc & ->).
  unfold alloc in Halloc. injection Halloc as <- <-.
  apply bind_inv in H as ([] & w3 & Hreg & H). injection H as <- <-.
  rewrite (store_ok_length _ _ Hs) in *.
  set (t0 := {| tn_type := "object"; tn_attributes := attributes;
                tn_nullable := false; tn_otype := otype;
                tn_snippet := snippet; tn_ref := None |}) in *.
  set (s2 := {| objs := objs (mem w) ++ [TNode t0];
                stdout := stdout (mem w) |}) in *.
  assert (Hnew : attrs_of s2 (length cls) = Some attributes).
  { unfold attrs_of, s2. cbn [objs].
    rewrite lookup_app_r by (rewrite (store_ok_length _ _ Hs); lia).
    now rewrite (store_ok_length _ _ Hs), Nat.sub_diag. }
  destruct otype as [o|]; [|now injection Hreg as <-].
  destruct (dict_get key_eqb (Some o, snippet) (types (type_registry w)))
    as [existing|] eqn:Ek.
  - rewrite (register_type_existing
               {| mem := s2; type_registry := type_registry w |}
               _ _ _ existing Ek) in Hreg.
    cbn [mem type_registry] in Hreg. revert Hreg.
    generalize recursion_limit. intros depth Hreg.
    destruct (merge depth existing (length cls) s2) as [[r|e] s3] eqn:Hm;
      [|discriminate].
    injection Hreg as <-. cbn [mem].
    assert (Hne : existing <> length cls).
    { destruct (dict_get_In _ _ _ _ Ek) as (k' & Hin & _).
      rewrite Forall_forall in Hentries. apply list_elem_of_In in Hin.
      specialize (Hentries _ Hin). cbn in Hentries.
      apply lookup_lt_Some in Hentries. lia. }
    assert (Hun : unreferenced (length cls) s2).
    { intros x attrs k v Hattrs Hin.
      enough (v < length cls) by lia.
      unfold attrs_of, s2 in Hattrs. cbn [objs] in Hattrs.
      destruct (objs (mem w) !! x) as [n|] eqn:Hx.
      - rewrite (lookup_app_l_Some _ _ _ _ Hx) in Hattrs.
        destruct n as [y|t|y]; try discriminate. injection Hattrs as <-.
        destruct (store_ok_node _ _ _ _ Hs Hx) as [_ Hall].
        rewrite Forall_forall in Hall. apply list_elem_of_In in Hin.
        exact (Hall _ Hin).
      - apply lookup_ge_None in Hx.
        rewrite lookup_app_r in Hattrs by exact Hx.
        destruct (x - length (objs (mem w))) as [|d]; cbn in Hattrs;
          [|discriminate].
        injection Hattrs as <-. rewrite Forall_forall in Hrange.
        apply list_elem_of_In in Hin. exact (Hrange _ Hin). }
    now destruct (wp_returns _ _ _ _ _
                    (merge_leaves (length cls) attributes depth existing
                       (length cls) s2 Hne (conj Hun Hnew)) Hm)
      as [[_ HA] _].
  - rewrite (register_type_new
               {| mem := s2; type_registry := type_registry w |}
               _ _ _ Hinv Ek) in Hreg.
    now injection Hreg as <-.
Qed.

(** X20.  The order of an object's attributes.  When an object whose
    members have distinct keys is parsed, in a state the program can
    reach, the node built holds the members as its attributes in the
    reverse of their order in the document: the rules [members] add each
    member after those that follow it.  Registering the node does not
    change this. *)
Theorem attributes_in_reverse_order (ms : list (string * json))
    (w w' : world) (l : loc) :
  world_ok w ->
  NoDup (map fst ms) ->
  value (JObject ms) w = (Return l, w') ->
  exists attrs,
    attrs_of (mem w') l = Some attrs /\ map fst attrs = rev (map fst ms).
Proof.
  intros [cls Hw] Hnd H. rewrite value_JObject in H.
  apply bind_inv in H as (attributes & w1 & Hm & Hobj).
  pose proof (members_keys _ _ _ _ Hnd Hm) as Hkeys.
  destruct (wp_returns _ _ _ _ _ (members_ok ms cls w Hw) Hm)
    as (more & Hw1 & Hrange).
  exists attributes. split; [|exact Hkeys].
  eapply p_object_keeps_attributes; eauto.
Qed.

Lemma attributes_in_reverse_order_witness :
  exists attrs,
    attrs_of (mem (snd (value person_alice initial_world))) 4 = Some attrs /\
    map fst attrs = rev ["otype"; "snippet"; "name"; "age"].
Proof.
  apply (attributes_in_reverse_order
           [("otype", JString "person"); ("snippet", JTrue);
            ("name", JString "Alice"); ("age", JInt 30)]
           initial_world (snd (value person_alice initial_world)) 4).
  - apply world_ok_initial.
  - cbn [map fst].
    repeat (apply NoDup_cons; split;
            [rewrite ?not_elem_of_cons; repeat split;
             first [discriminate | apply not_elem_of_nil]|]).
    apply NoDup_nil. exact I.
  - vm_compute. reflexivity.
Defined.
